(** * FRB: nebular-line physics and survey-catalog reduction

    A shallow embedding of [frb/galaxies/nebular.py] and
    [frb/surveys/catalog_utils.py].

    Conventions of the embedding:
    - Python floats that enter transcendental arithmetic ([10**x],
      [log10], [pi]) are modelled by the real numbers [R]: the theorems
      are about the formulas the code evaluates, not about rounding.
      Where a float operation leaves the reals (a zero divisor, the
      logarithm of a number that is not positive) the model says what
      the code does there: an exception, or a value that is not finite.
    - Floats that are only compared or reported (separations, catalogue
      magnitudes in the summary) are modelled by the rationals [Q], and
      identifiers by [Z], so those functions compute.
    - An [astropy] quantity is represented by its value in the unit the
      code finally asks for (erg/s, cm, Angstrom, Msun/yr, degrees).
    - A raised exception is a value [Raise e] of the [result] type. *)

From Stdlib Require Import Reals Lra Lia List String Ascii ZArith QArith Qabs Bool.
From Stdlib Require Import Permutation Sorted.
Import ListNotations.

Set Implicit Arguments.

Close Scope Q_scope.
Close Scope R_scope.
Close Scope Z_scope.
Local Open Scope nat_scope.

(** ** Exceptions *)

Inductive exn : Type :=
| IOError
| KeyError
| ValueError
| IndexError
| TypeError
| ZeroDivisionError.

Inductive result (A : Type) : Type :=
| Ok (a : A)
| Raise (e : exn).

Arguments Ok {A} a.
Arguments Raise {A} e.

Definition bind {A B : Type} (m : result A) (k : A -> result B) : result B :=
  match m with
  | Ok a => k a
  | Raise e => Raise e
  end.

Notation "x <- m ;; k" := (bind m (fun x => k))
  (at level 61, m at next level, right associativity).

(** [d[key]] on a Python dict held as an association list. *)
Fixpoint getitem {V : Type} (d : list (string * V)) (key : string) : result V :=
  match d with
  | [] => Raise KeyError
  | (k, v) :: d' => if String.eqb k key then Ok v else getitem d' key
  end.

(** [10**x] and the decimal logarithm on the reals. *)
Definition pow10 (x : R) : R := Rpower 10 x.
Definition log10 (x : R) : R := (ln x / ln 10)%R.

(** What a float computation yields, as far as the reals can tell: a
    finite value, or one of [inf], [-inf] and [nan], which numpy returns
    with a warning and which the later operations of the code hand on. *)
Inductive float : Type :=
| finite (x : R)
| non_finite.

(** [np.log10(x)]: [nan] below 0 and [-inf] at 0. *)
Definition np_log10 (x : R) : float :=
  if Rlt_dec 0 x then finite (log10 x) else non_finite.

(** [x / y] when an operand is a numpy value: a zero divisor gives [inf]
    or [nan], never an exception. *)
Definition np_div (x y : R) : float :=
  if Req_dec_T y 0 then non_finite else finite (x / y).

(** ** frb/galaxies/nebular.py *)

Module Nebular.

Local Open Scope R_scope.
Local Open Scope string_scope.

(** Module globals. *)
Definition Ha_Hb_intrin : R := 2.8.
Definition Ha_conversion : R := 7.9e-42.

(** A line-flux dictionary: line name (or [name ++ "_err"]) to value. *)
Definition NebLines := list (string * R).

(** [astropy.cosmology.FLRW]: only [luminosity_distance] is called.  The
    distance is held in cm, so that [Lum.to('erg/s')] is the identity on
    values. *)
Record Cosmology : Type := { luminosity_distance : R -> R }.

Section WithCollaborators.

(** [linelist.LineList('Galaxy')[line]['wrest']] in Angstrom.  For a
    line that is not in the list, [llist[line]] is [None]; subscripting
    it raises [TypeError]. *)
Variable wrest : string -> option R.

(** [interp1d(MW_dust['wave'], MW_dust['Al_AV'])] for the data file
    [data/Dust/MW_dust.dat]: [None] outside the tabulated range, where
    scipy raises [ValueError]. *)
Variable MW_dust : R -> option R.

Definition load_extinction (curve : string) : result (R -> result R) :=
  if String.eqb curve "MW" then
    Ok (fun wave => match MW_dust wave with
                    | Some a => Ok a
                    | None => Raise ValueError
                    end)
  else Raise IOError.

(** The kind of number the dict holds for the two fluxes: Python floats
    ([true]) or numpy scalars ([false]), as when they were read from a
    table.  The code is the same for both; they differ on a zero
    divisor, where Python raises [ZeroDivisionError] and numpy warns and
    returns [inf] or [nan]. *)
Variable python_floats : bool.

(** [x / y] on two numbers of the dict's kind. *)
Definition fdiv (x y : R) : result float :=
  if Req_dec_T y 0 then
    if python_floats then Raise ZeroDivisionError else Ok non_finite
  else Ok (finite (x / y)).

(** The curve values [a1AV], [a2AV] are numpy arrays, so that the last
    division and the logarithm are numpy's. *)
Definition calc_dust_extinct (neb_lines : NebLines) (method curve : string)
  : result float :=
  alAV <- load_extinction curve ;;
  sel <- (if String.eqb method "Ha/Hb" then
            F1_obs <- getitem neb_lines "Halpha" ;;
            F2_obs <- getitem neb_lines "Hbeta" ;;
            Ok (6564.6, 4862.7, F1_obs, F2_obs)
          else Raise IOError) ;;
  let '(wave1, wave2, F1_obs, F2_obs) := sel in
  a1AV <- alAV wave1 ;;
  a2AV <- alAV wave2 ;;
  fratio_obs <- fdiv F1_obs F2_obs ;;
  match fratio_obs with
  | non_finite => Ok non_finite
  | finite fratio_obs =>
      intrin_obs <- fdiv Ha_Hb_intrin fratio_obs ;;
      match intrin_obs with
      | non_finite => Ok non_finite
      | finite intrin_obs =>
          match np_log10 intrin_obs with
          | non_finite => Ok non_finite
          | finite l => Ok (np_div (2.5 * l) (a1AV - a2AV))
          end
      end
  end.

Definition calc_lum (neb_lines : NebLines) (line : string) (z : R)
    (cosmo : Cosmology) (AV : option R) (curve : string) : result (R * R) :=
  wave <- match wrest line with
          | Some w => Ok w
          | None => Raise TypeError
          end ;;
  al <- match AV with
        | Some av =>
            alAV <- load_extinction curve ;;
            a <- alAV wave ;;
            Ok (av * a)
        | None => Ok 0
        end ;;
  let DL := luminosity_distance cosmo z in
  flux <- getitem neb_lines line ;;
  let Lum := flux * pow10 (al / 2.5) * (4 * PI * DL ^ 2) in
  err <- getitem neb_lines (line ++ "_err") ;;
  let Lum_err :=
    if Rlt_dec 0 err then err * pow10 (al / 2.5) * (4 * PI * DL ^ 2)
    else -999 in
  Ok (Lum, Lum_err).

Definition calc_SFR (neb_lines : NebLines) (method : string) (z : R)
    (cosmo : Cosmology) (AV : option R) (curve : string) : result R :=
  sel <- (if String.eqb method "Ha" then Ok ("Halpha", Ha_conversion)
          else if String.eqb method "Hb" then
                 Ok ("Hbeta", Ha_conversion * Ha_Hb_intrin)
          else Raise IOError) ;;
  let '(line, conversion) := sel in
  r <- calc_lum neb_lines line z cosmo AV curve ;;
  let '(Lum, Lum_err) := r in
  Ok (Lum * conversion).

(** The dust exponent [al] of [calc_lum], as a function of its inputs. *)
Definition attenuation (wave : R) (AV : option R) (curve : string) : result R :=
  match AV with
  | Some av =>
      alAV <- load_extinction curve ;;
      a <- alAV wave ;;
      Ok (av * a)
  | None => Ok 0
  end.

End WithCollaborators.

End Nebular.

(** ** numpy and Python list primitives used by catalog_utils.py *)

Section ListPrimitives.

Context {A : Type}.

(** [a[mask]]: the entries of [a] where [mask] is [True]. *)
Fixpoint mask_select (a : list A) (mask : list bool) : list A :=
  match a, mask with
  | x :: a', b :: mask' =>
      if b then x :: mask_select a' mask' else mask_select a' mask'
  | _, _ => []
  end.

(** [a[mask] = v] for a scalar [v]. *)
Fixpoint mask_fill (a : list A) (mask : list bool) (v : A) : list A :=
  match a, mask with
  | x :: a', b :: mask' => (if b then v else x) :: mask_fill a' mask' v
  | _, _ => a
  end.

(** [a[mask] = vals]: the values are consumed in order by the selected
    positions.  (numpy refuses a [vals] of another length; the callers
    below build it from the same mask.) *)
Fixpoint mask_assign (a : list A) (mask : list bool) (vals : list A) : list A :=
  match a, mask with
  | x :: a', b :: mask' =>
      if b then
        match vals with
        | v :: vals' => v :: mask_assign a' mask' vals'
        | [] => a
        end
      else x :: mask_assign a' mask' vals
  | _, _ => a
  end.

(** [a[idx]] for an integer index array; an index out of range raises. *)
Fixpoint take (a : list A) (idx : list nat) : result (list A) :=
  match idx with
  | [] => Ok []
  | i :: idx' =>
      match nth_error a i with
      | Some x => r <- take a idx' ;; Ok (x :: r)
      | None => Raise IndexError
      end
  end.

(** [sorted(l)]: stable insertion of each element before the first
    element that is not below it. *)
Variable leb : A -> A -> bool.

Fixpoint insert (x : A) (l : list A) : list A :=
  match l with
  | [] => [x]
  | y :: l' => if leb x y then x :: l else y :: insert x l'
  end.

Definition sorted (l : list A) : list A := fold_right insert [] l.

End ListPrimitives.

Definition enumerate {A : Type} (l : list A) : list (nat * A) :=
  combine (seq 0 (List.length l)) l.

(** [np.argsort(a)] is a collaborator of the code.  With the default
    [kind] numpy promises a permutation of the positions of [a] along
    which the entries do not decrease, and leaves the order of equal
    entries open: the default sort is not stable.  The functions below
    take the sort as a parameter [argsort], and the properties assume of
    it what numpy promises ([argsort_contract]).  Two sorts that keep
    the promise: *)

(** [np.argsort(a, kind='stable')]: equal entries stay in the order of
    their positions. *)
Definition argsort_stable {A : Type} (leb : A -> A -> bool) (a : list A)
  : list nat :=
  map fst (sorted (fun p q => leb (snd p) (snd q)) (enumerate a)).

(** A sort that lists equal entries from the last position to the
    first. *)
Definition argsort_ties_reversed {A : Type} (leb : A -> A -> bool)
    (a : list A) : list nat :=
  map fst (sorted (fun p q => leb (snd p) (snd q)) (rev (enumerate a))).

(** The number of leading elements of [l] that satisfy [f]. *)
Fixpoint count_while {A : Type} (f : A -> bool) (l : list A) : nat :=
  match l with
  | [] => O
  | x :: l' => if f x then S (count_while f l') else O
  end.

Definition count_true (mask : list bool) : nat :=
  List.length (filter (fun b => b) mask).

(** [np.any(mask)]. *)
Definition any (mask : list bool) : bool := existsb (fun b => b) mask.

Definition inb (k : string) (l : list string) : bool :=
  existsb (String.eqb k) l.

(** [pat in s] for Python strings. *)
Fixpoint contains (pat s : string) : bool :=
  if String.prefix pat s then true
  else match s with
       | EmptyString => false
       | String _ s' => contains pat s'
       end.

(** [s.replace(c, new)] for a one-character pattern [c]. *)
Fixpoint replace (c : ascii) (new s : string) : string :=
  match s with
  | EmptyString => EmptyString
  | String a s' =>
      if Ascii.eqb a c then (new ++ replace c new s')%string
      else String a (replace c new s')
  end.

(** [np.unique]: the sorted distinct values. *)
Definition unique (l : list string) : list string :=
  sorted String.leb (nodup string_dec l).

(** [np.setdiff1d(a, b)]. *)
Definition setdiff1d (a b : list string) : list string :=
  filter (fun x => negb (inb x b)) (unique a).

Fixpoint foldM {S X : Type} (f : S -> X -> result S) (s : S) (l : list X)
  : result S :=
  match l with
  | [] => Ok s
  | x :: l' => s' <- f s x ;; foldM f s' l'
  end.

(** ** astropy tables *)

Record Table (A : Type) : Type := mkTable {
  columns : list (string * list A);
  meta : list (string * string)
}.

Section TableOps.

Context {A : Type}.

Definition colnames (t : Table A) : list string := map fst (columns t).

(** [t[name]] *)
Definition col (t : Table A) (name : string) : result (list A) :=
  getitem (columns t) name.

Fixpoint set_assoc (d : list (string * list A)) (k : string) (v : list A)
  : list (string * list A) :=
  match d with
  | [] => [(k, v)]
  | (k', v') :: d' =>
      if String.eqb k' k then (k, v) :: d' else (k', v') :: set_assoc d' k v
  end.

(** [t[name] = v]: replaces the column, or appends a new one. *)
Definition setitem (t : Table A) (name : string) (v : list A) : Table A :=
  mkTable (set_assoc (columns t) name v) (meta t).

(** [t.rename_column(name, new_name)]: astropy raises [KeyError] when
    [name] is absent or [new_name] is taken. *)
Definition rename_column (t : Table A) (name new_name : string)
  : result (Table A) :=
  if negb (inb name (colnames t)) then Raise KeyError
  else if String.eqb name new_name then Ok t
  else if inb new_name (colnames t) then Raise KeyError
  else Ok (mkTable
             (map (fun kv => if String.eqb (fst kv) name
                             then (new_name, snd kv) else kv) (columns t))
             (meta t)).

Fixpoint take_columns (d : list (string * list A)) (idx : list nat)
  : result (list (string * list A)) :=
  match d with
  | [] => Ok []
  | (k, v) :: d' =>
      v' <- take v idx ;;
      r <- take_columns d' idx ;;
      Ok ((k, v') :: r)
  end.

(** [t[idx]]: a new table with the rows [idx]; the meta data is copied. *)
Definition take_rows (t : Table A) (idx : list nat) : result (Table A) :=
  c <- take_columns (columns t) idx ;;
  Ok (mkTable c (meta t)).

End TableOps.

(** ** frb/surveys/catalog_utils.py *)

Module CatalogUtils.

Local Open Scope string_scope.
Local Open Scope list_scope.

(** *** Sky coordinates

    A [SkyCoord] is a pair (ra, dec) in degrees.  The angular separation
    is astropy's; the functions below only compare, scale and report it. *)
Definition SkyCoord : Type := (Q * Q)%type.

(** Strict comparison of two floats. *)
Definition Qltb (x y : Q) : bool := negb (Qle_bool y x).

(** First position of the least (greatest) entry, as [np.argmin] and
    [np.argmax] return it. *)
Fixpoint arg_best (better : Q -> Q -> bool) (best_i : nat) (best : Q)
    (i : nat) (l : list Q) : nat :=
  match l with
  | [] => best_i
  | x :: l' =>
      if better x best then arg_best better i x (S i) l'
      else arg_best better best_i best (S i) l'
  end.

Definition argmin (l : list Q) : result nat :=
  match l with
  | [] => Raise ValueError
  | x :: l' => Ok (arg_best Qltb 0 x 1 l')
  end.

Definition argmax (l : list Q) : result nat :=
  match l with
  | [] => Raise ValueError
  | x :: l' => Ok (arg_best (fun a b => Qltb b a) 0 x 1 l')
  end.

(** [a[i]] for one integer index. *)
Definition item {A : Type} (a : list A) (i : nat) : result A :=
  match nth_error a i with
  | Some x => Ok x
  | None => Raise IndexError
  end.

(** The three messages of [summarize_catalog], each held as the
    arguments of its [format] call. *)
Inductive summary_line : Type :=
| CountLine (survey : string) (n : nat) (radius_arcsec : Q)
| BrightestLine (survey photom_column : string) (value : Q)
| ClosestLine (survey : string) (sep_arcsec : Q) (photom_column : string)
    (value : Q).

(** The store of table objects: a reference is a position in it. *)
Definition Heap : Type := list (Table Q).

Definition deref (h : Heap) (r : nat) : result (Table Q) := item h r.

Fixpoint update (h : Heap) (r : nat) (t : Table Q) : Heap :=
  match h, r with
  | [], _ => []
  | _ :: h', O => t :: h'
  | t0 :: h', S r' => t0 :: update h' r' t
  end.

Definition alloc (h : Heap) (t : Table Q) : nat * Heap :=
  (List.length h, h ++ [t]).

Section WithSeparation.

(** [coord.separation(other)], in degrees. *)
Variable separation : SkyCoord -> SkyCoord -> Q.

(** [np.argsort] on an array of separations. *)
Variable argsort : list Q -> list nat.

(** [catalog] is a reference to the caller's table; the result is the
    outcome of the call together with the store it leaves. *)
Definition sort_by_separation (catalog : nat) (coord : SkyCoord)
    (radec : string * string) (add_sep : bool) (h : Heap)
  : result nat * Heap :=
  match deref h catalog with
  | Raise e => (Raise e, h)
  | Ok t =>
      if negb (inb (fst radec) (colnames t)) then (Raise IOError, h)
      else if negb (inb (snd radec) (colnames t)) then (Raise IOError, h)
      else
        match col t (fst radec), col t (snd radec) with
        | Ok ra, Ok dec =>
            let cat_coords := combine ra dec in
            let seps := map (separation coord) cat_coords in
            let isrt := argsort seps in
            let h1 :=
              if add_sep
              then update h catalog
                     (setitem t "separation" (map (fun s => s * 60)%Q seps))
              else h in
            match (t1 <- deref h1 catalog ;; take_rows t1 isrt) with
            | Ok srt_catalog =>
                let (r, h2) := alloc h1 srt_catalog in (Ok r, h2)
            | Raise e => (Raise e, h1)
            end
        | Raise e, _ => (Raise e, h)
        | _, Raise e => (Raise e, h)
        end
  end.

Definition summarize_catalog (frbc_coord : SkyCoord) (catalog : Table Q)
    (summary_radius : Q) (photom_column : string) (magnitude : bool)
  : result (list summary_line) :=
  ra <- col catalog "ra" ;;
  dec <- col catalog "dec" ;;
  let coords := combine ra dec in
  let seps := map (separation frbc_coord) coords in
  let in_radius := map (fun s => Qltb s summary_radius) seps in
  survey <- getitem (meta catalog) "survey" ;;
  let summary_list :=
    [CountLine survey (count_true in_radius) (summary_radius * 3600)%Q] in
  if any in_radius then
    phot <- col catalog photom_column ;;
    brightest <- (if magnitude then argmin (mask_select phot in_radius)
                  else argmax (mask_select phot in_radius)) ;;
    bval <- item (mask_select phot in_radius) brightest ;;
    let summary_list :=
      summary_list ++ [BrightestLine survey photom_column bval] in
    closest <- argmin (mask_select seps in_radius) ;;
    csep <- item (mask_select seps in_radius) closest ;;
    cval <- item (mask_select phot in_radius) brightest ;;
    Ok (summary_list
          ++ [ClosestLine survey (csep * 3600)%Q photom_column cval])
  else Ok summary_list.

End WithSeparation.

(** *** match_ids *)

Definition in1d (a b : list Z) : list bool :=
  map (fun x => existsb (Z.eqb x) b) a.

(** [np.searchsorted(a, v, sorter=sorter)]: for each value, the number of
    entries of [a], read in the order [sorter], that lie strictly below
    it. *)
Definition searchsorted (a v : list Z) (sorter : list nat) : list nat :=
  map (fun x =>
         count_while (fun i => match nth_error a i with
                               | Some y => (y <? x)%Z
                               | None => false
                               end) sorter) v.

Section WithArgsort.

(** [np.argsort] on an array of identifiers. *)
Variable argsort : list Z -> list nat.

Definition match_ids (IDs match_IDs : list Z) (require_in_match : bool)
  : result (list Z) :=
  let rows := map (fun _ => (-1 * 1)%Z) IDs in
  let in_match := in1d IDs match_IDs in
  if require_in_match && (0 <? count_true (map negb in_match))%nat then
    Raise IOError
  else
    let rows := mask_fill rows (map negb in_match) (-1)%Z in
    let IDs_inmatch := mask_select IDs in_match in
    let xsorted := argsort match_IDs in
    let ypos := searchsorted match_IDs IDs_inmatch xsorted in
    indices <- take xsorted ypos ;;
    Ok (mask_assign rows in_match (map Z.of_nat indices)).

End WithArgsort.

(** *** Magnitudes to fluxes *)

Section WithFilters.

Local Open Scope R_scope.

(** [frb.galaxies.defs.valid_filters]: the registry of filter names. *)
Variable valid_filters : list string.

Definition _detect_mag_cols (photometry_table : Table R)
  : list string * list string :=
  let allcols := colnames photometry_table in
  let photom_cols := valid_filters in
  let photom_errcols := map (fun filt => (filt ++ "_err")%string) photom_cols in
  (filter (fun elem => inb elem allcols) photom_cols,
   filter (fun elem => inb elem allcols) photom_errcols).

(** [c < 0] on a column. *)
Definition lt0 (c : list R) : list bool :=
  map (fun x => if Rlt_dec x 0 then true else false) c.

(** The body shared by the three conversion loops, for one band
    [(mag, err, fnu0)].  [wise] selects the renaming step that only the
    first loop has. *)
Definition convert_band (photometry_table : Table R) (convert : R)
    (wise : bool) (fluxtable : Table R) (band : string * (string * R))
  : result (Table R) :=
  let '(mag, (err, fnu0)) := band in
  m <- col fluxtable mag ;;
  let badmags := lt0 m in
  let fluxtable := setitem fluxtable mag (mask_fill m badmags (-99.0)) in
  pm <- col photometry_table mag ;;
  m <- col fluxtable mag ;;
  let fluxtable :=
    setitem fluxtable mag
      (mask_assign m (map negb badmags)
         (map (fun x => fnu0 * pow10 (- x / 2.5) * 1000 * convert)
            (mask_select pm (map negb badmags)))) in
  e <- col fluxtable err ;;
  let baderrs := lt0 e in
  let fluxtable := setitem fluxtable err (mask_fill e baderrs (-99.0)) in
  fm <- col fluxtable mag ;;
  pe <- col photometry_table err ;;
  e <- col fluxtable err ;;
  let fluxtable :=
    setitem fluxtable err
      (mask_assign e (map negb baderrs)
         (map (fun fx => fst fx * (pow10 (snd fx / 2.5) - 1))
            (combine (mask_select fm (map negb baderrs))
                     (mask_select pe (map negb baderrs))))) in
  if wise && negb (contains "WISE" mag) then
    fluxtable <- rename_column fluxtable mag (replace "W" "WISE" mag) ;;
    rename_column fluxtable err (replace "W" "WISE" err)
  else Ok fluxtable.

Definition wise_fnu0 : list R := [309.54; 171.787; 31.674; 8.363].
Definition vista_fnu0 : list R := [2087.32; 1554.03; 1030.40; 674.83].

(** [fluxunits] is given by [convert = units.mJy.to(fluxunits)]. *)
Definition convert_mags_to_flux (photometry_table : Table R) (convert : R)
  : result (Table R) :=
  let fluxtable := photometry_table in
  let '(mag_cols, mag_errcols) := _detect_mag_cols fluxtable in
  let wisecols := sorted String.leb (filter (contains "W") mag_cols) in
  let wise_errcols := sorted String.leb (filter (contains "W") mag_errcols) in
  let vistacols := sorted String.leb (filter (contains "VISTA") mag_cols) in
  let vista_errcols :=
    sorted String.leb (filter (contains "VISTA") mag_errcols) in
  fluxtable <- foldM (convert_band photometry_table convert true) fluxtable
                 (combine wisecols (combine wise_errcols wise_fnu0)) ;;
  fluxtable <- foldM (convert_band photometry_table convert false) fluxtable
                 (combine vistacols (combine vista_errcols vista_fnu0)) ;;
  let other_mags := setdiff1d mag_cols wisecols in
  let other_errs := setdiff1d mag_errcols wise_errcols in
  foldM (convert_band photometry_table convert false) fluxtable
    (map (fun me => (fst me, (snd me, 3630.7805)))
       (combine other_mags other_errs)).

End WithFilters.

End CatalogUtils.

Unset Implicit Arguments.

(** ** Definitions used to state the properties *)

(** What numpy promises of [np.argsort(a)]: the result [p] is a
    permutation of the positions of [a], and [a[p]] is sorted. *)
Definition sorts {A : Type} (leb : A -> A -> bool) (a : list A)
    (p : list nat) : Prop :=
  Permutation p (seq 0 (List.length a)) /\
  exists keys,
    take a p = Ok keys /\
    StronglySorted (fun x y => leb x y = true) keys.

Definition argsort_contract {A : Type} (leb : A -> A -> bool)
    (argsort : list A -> list nat) : Prop :=
  forall a, sorts leb a (argsort a).

(** The order of [argsort_stable]: by key, then by position. *)
Definition lex_lt (p q : nat * Z) : Prop :=
  (snd p < snd q)%Z \/ (snd p = snd q /\ fst p < fst q).

Definition key_leb (p q : nat * Z) : bool := (snd p <=? snd q)%Z.

(** The first row holding [x], in the spec's words: the lowest index,
    or nothing. *)
Fixpoint first_index (x : Z) (l : list Z) : option nat :=
  match l with
  | [] => None
  | y :: l' => if (x =? y)%Z then Some 0 else option_map S (first_index x l')
  end.

Definition first_match_row (reference_ids : list Z) (x : Z) : Z :=
  match first_index x reference_ids with
  | Some i => Z.of_nat i
  | None => (-1)%Z
  end.

(** The row that [xsorted[ypos]] gives for [x]: the entry of [sorter] at
    the position [searchsorted] finds. *)
Definition sorter_row (a : list Z) (sorter : list nat) (x : Z) : nat :=
  nth (count_while (fun i => match nth_error a i with
                             | Some y => (y <? x)%Z
                             | None => false
                             end) sorter) sorter 0.

Definition row_of (a : list Z) (x : Z) : nat :=
  match first_index x a with
  | Some i => i
  | None => 0
  end.

Section TableShape.

Context {A : Type}.

(** Every column of [t] has [n] rows. *)
Definition rectangular (t : Table A) (n : nat) : Prop :=
  Forall (fun kv => List.length (snd kv) = n) (columns t).

Definition rename_key (name new_name : string) (kv : string * list A)
  : string * list A :=
  if String.eqb (fst kv) name then (new_name, snd kv) else kv.

End TableShape.

(** The conversion of one row, as the loop bodies compute it: [cur] is
    the entry of the flux table that is tested, [orig] the entry of the
    input table that is converted. *)
Definition flux_of (fnu0 convert cur orig : R) : R :=
  if Rlt_dec cur 0 then (-99.0)%R
  else (fnu0 * pow10 (- orig / 2.5) * 1000 * convert)%R.

Definition fluxerr_of (flux cur_err orig_err : R) : R :=
  if Rlt_dec cur_err 0 then (-99.0)%R
  else (flux * (pow10 (orig_err / 2.5) - 1))%R.

Definition band_flux (fnu0 convert : R) (m pm : list R) : list R :=
  map (fun co => flux_of fnu0 convert (fst co) (snd co)) (combine m pm).

Definition band_err (flux e pe : list R) : list R :=
  map (fun x => fluxerr_of (fst (snd x)) (fst x) (snd (snd x)))
    (combine e (combine flux pe)).

(** The name a column carries after the first loop has treated the band
    of magnitude column [mag]. *)
Definition wise_name (wise : bool) (mag name : string) : string :=
  if wise && negb (contains "WISE" mag) then replace "W" "WISE" name
  else name.

Definition band_mag (b : string * (string * R)) : string := fst b.
Definition band_err_name (b : string * (string * R)) : string := fst (snd b).

Definition apart (k : string) (b : string * (string * R)) : Prop :=
  k <> fst b /\ k <> fst (snd b).

(** The two columns of a band are in both tables, under two names. *)
Definition band_present (photometry_table fluxtable : Table R)
    (b : string * (string * R)) : Prop :=
  In (band_mag b) (colnames fluxtable) /\
  In (band_err_name b) (colnames fluxtable) /\
  In (band_mag b) (colnames photometry_table) /\
  In (band_err_name b) (colnames photometry_table) /\
  band_mag b <> band_err_name b.

(** The column lists and the bands of the three loops of
    [convert_mags_to_flux]. *)
Section LoopViews.

Import CatalogUtils.
Local Open Scope R_scope.
Local Open Scope string_scope.

Variable valid_filters : list string.
Variable photometry_table : Table R.

Definition mag_cols : list string :=
  fst (_detect_mag_cols valid_filters photometry_table).
Definition mag_errcols : list string :=
  snd (_detect_mag_cols valid_filters photometry_table).

(** The names [_detect_mag_cols] recognizes in the table. *)
Definition recognized : list string := (mag_cols ++ mag_errcols)%list.

Definition wisecols : list string :=
  sorted String.leb (filter (contains "W") mag_cols).
Definition wise_errcols : list string :=
  sorted String.leb (filter (contains "W") mag_errcols).
Definition vistacols : list string :=
  sorted String.leb (filter (contains "VISTA") mag_cols).
Definition vista_errcols : list string :=
  sorted String.leb (filter (contains "VISTA") mag_errcols).
Definition other_mags : list string := setdiff1d mag_cols wisecols.
Definition other_errs : list string := setdiff1d mag_errcols wise_errcols.

Definition wise_bands : list (string * (string * R)) :=
  combine wisecols (combine wise_errcols wise_fnu0).
Definition vista_bands : list (string * (string * R)) :=
  combine vistacols (combine vista_errcols vista_fnu0).
Definition other_bands : list (string * (string * R)) :=
  map (fun me => (fst me, (snd me, 3630.7805)))
    (combine other_mags other_errs).

(** The names the first loop gives to the columns it renames. *)
Definition wise_renames (bands : list (string * (string * R))) : list string :=
  flat_map (fun b => if contains "WISE" (band_mag b) then []
                     else [replace "W" "WISE" (band_mag b);
                           replace "W" "WISE" (band_err_name b)]) bands.

(** The renaming of the first loop meets no column: the new names are
    distinct and new to the table, and no band of the first loop is a
    VISTA name that the second loop would look for. *)
Definition fresh_renames : Prop :=
  NoDup (wise_renames wise_bands) /\
  (forall x, In x (wise_renames wise_bands) ->
             ~ In x (colnames photometry_table)) /\
  (forall b, In b wise_bands ->
             contains "VISTA" (band_mag b) = false /\
             contains "VISTA" (band_err_name b) = false).

(** [treated mag err zp out_mag out_err]: the conversion pairs the
    magnitude column [mag] with the error column [err] under the zero
    point [zp], and no other pass writes the columns [out_mag] and
    [out_err] that hold the result.  Either the pair is a band of the
    first loop, is no VISTA name, and the names the loop gives it are not
    recognized names; or it is a band of the last loop that the second
    loop treated as the same pair, or not at all. *)
Inductive treated : string -> string -> R -> string -> string -> Prop :=
| treated_wise (mag err : string) (fnu0 : R) :
    In (mag, (err, fnu0)) wise_bands ->
    contains "VISTA" mag = false ->
    contains "VISTA" err = false ->
    (contains "WISE" mag = false ->
     ~ In (replace "W" "WISE" mag) recognized /\
     ~ In (replace "W" "WISE" err) recognized) ->
    treated mag err fnu0 (wise_name true mag mag) (wise_name true mag err)
| treated_other (mag err : string) (zp : R) :
    In (mag, (err, zp)) other_bands ->
    (forall b, In b vista_bands ->
               band_mag b = mag <-> band_err_name b = err) ->
    treated mag err zp mag err.

End LoopViews.

(** What the amended sentinel policy asks of one row: [m], [e] are the
    input magnitude and error, [f], [s] the output flux and error. *)
Definition row_converted (zp convert m e f s : R) : Prop :=
  ((m < 0 -> f = -99) /\
   (0 <= m -> f = zp * pow10 (- m / 2.5) * 1000 * convert) /\
   (e < 0 -> s = -99) /\
   (0 <= m -> 0 <= e -> s = f * (pow10 (e / 2.5) - 1)))%R.

(** ** Test doubles for the collaborators

    Concrete stand-ins for the line list, the extinction curve and the
    cosmology, used where a statement is instantiated. *)

Module Doubles.

Local Open Scope R_scope.
Local Open Scope string_scope.

Definition wrest0 (line : string) : option R :=
  if String.eqb line "Halpha" then Some 6564.6
  else if String.eqb line "Hbeta" then Some 4862.7
  else None.

(** A curve falling with wavelength, normalised at 5500 Angstrom. *)
Definition curve0 (wave : R) : option R := Some (5500 / wave).

Definition cosmo0 : Nebular.Cosmology :=
  {| Nebular.luminosity_distance := fun z => 1e27 * z |}.

Definition neb0 : Nebular.NebLines :=
  [("Halpha", 5.6); ("Halpha_err", 0.5); ("Hbeta", 2); ("Hbeta_err", -999)].

Definition neb1 : Nebular.NebLines :=
  [("Halpha", 4); ("Halpha_err", 0.5); ("Hbeta", 2); ("Hbeta_err", -999)].

(** The separation of two points of the equator (dec = 0). *)
Definition sep_equator (c o : CatalogUtils.SkyCoord) : Q :=
  Qabs (fst o - fst c).

(** Two sources 1 and 2 arcsec from the origin; the nearer is the fainter. *)
Definition cat_two : Table Q :=
  mkTable [("ra", [1 # 3600; 2 # 3600]%Q); ("dec", [0; 0]%Q);
           ("r", [20; 18]%Q)]
          [("survey", "DES")].

(** Three sources listed from the farthest to the nearest. *)
Definition cat_three : Table Q :=
  mkTable [("ra", [3; 2; 1]%Q); ("dec", [0; 0; 0]%Q); ("r", [21; 22; 23]%Q)]
          [("survey", "DES")].

(** An instance of the registry [valid_filters]: optical bands, the four
    WISE bands and the four VISTA bands. *)
Definition filters0 : list string :=
  ["DES_g"; "DES_r"; "W1"; "W2"; "W3"; "W4";
   "VISTA_Y"; "VISTA_J"; "VISTA_H"; "VISTA_Ks"].

Definition tab_vista : Table R :=
  mkTable [("VISTA_Y", [20]); ("VISTA_Y_err", [0.1])] [].

(** A negative magnitude with a non-negative error. *)
Definition tab_des_bad : Table R :=
  mkTable [("DES_r", [-1]); ("DES_r_err", [0])] [].

Definition tab_des : Table R :=
  mkTable [("DES_r", [20; -1]); ("DES_r_err", [0.1; -1])] [].

Definition tab_w3 : Table R :=
  mkTable [("W3", [10]); ("W3_err", [0.1])] [].

(** A W3 magnitude that comes without an error column. *)
Definition tab_w3_alone : Table R := mkTable [("W3", [10])] [].

End Doubles.

(** ** Further functions of catalog_utils.py and surveycoord.py *)

Module CatalogClean.

Section WithCells.

Context {A : Type}.

(** [catalog.mask] and [catalog.filled(v)]: a [Table] holds no masked
    entry, and for such a table astropy gives [None] as its mask. *)
Definition mask (catalog : Table A) : option (Table bool) := None.
Definition filled (catalog : Table A) (fill_value : A) : Table A := catalog.

(** [pdict] is a dict from the desired name to the name in the catalog,
    read in insertion order. *)
Definition clean_cat (catalog : Table A) (pdict : list (string * string))
    (fill_mask : option A) : result (Table A) :=
  catalog <- foldM (fun catalog kv =>
                      let '(key, value) := kv in
                      if inb value (colnames catalog)
                      then rename_column catalog value key
                      else Ok catalog) catalog pdict ;;
  match fill_mask with
  | Some v =>
      match mask catalog with
      | Some _ => Ok (filled catalog v)
      | None => Ok catalog
      end
  | None => Ok catalog
  end.

End WithCells.

End CatalogClean.

Module SurveyCoord.

(** The attributes of a [SurveyCoord] object that the methods below
    read. *)
Record SurveyCoord : Type := {
  coord : CatalogUtils.SkyCoord;
  radius : Q;
  verbose : bool;
  survey : option string;
  catalog : option (Table Q)
}.

(** [len(table)]: the number of rows. *)
Definition len {A : Type} (t : Table A) : nat :=
  match columns t with
  | [] => 0
  | (_, c) :: _ => List.length c
  end.

(** How a method made of [assert] statements ends. *)
Inductive outcome : Type :=
| Passed
| AssertionError
| TypeError.

Definition validate_catalog (self : SurveyCoord) : outcome :=
  match catalog self with
  | None => TypeError
  | Some cat =>
      if (0 <? len cat)%nat then
        if negb (inb "ra" (colnames cat)) then AssertionError
        else if negb (inb "dec" (colnames cat)) then AssertionError
        else if negb (inb "radius" (map fst (meta cat))) then AssertionError
        else if negb (inb "survey" (map fst (meta cat))) then AssertionError
        else Passed
      else Passed
  end.

End SurveyCoord.

(** The name a column [k] carries once [pdict] has been applied: the
    key of the first item whose value is [k], or [k] itself. *)
Definition new_name (pdict : list (string * string)) (k : string) : string :=
  match find (fun kv => String.eqb (snd kv) k) pdict with
  | Some kv => fst kv
  | None => k
  end.

(** More test data. *)
Module MoreDoubles.

Local Open Scope string_scope.


Definition pdict_radec : list (string * string) :=
  [("ra", "RA"); ("dec", "DEC"); ("NVSS_S", "S1.4")].

(** A table that already has the desired name. *)
Definition cat_both : Table Q :=
  mkTable [("RA", [10]%Q); ("ra", [10]%Q)] [].

Definition survey_two : SurveyCoord.SurveyCoord :=
  {| SurveyCoord.coord := (0, 0)%Q;
     SurveyCoord.radius := (5 # 3600)%Q;
     SurveyCoord.verbose := false;
     SurveyCoord.survey := Some "DES";
     SurveyCoord.catalog :=
       Some (mkTable (columns Doubles.cat_two)
                     [("survey", "DES"); ("radius", "5")]) |}.

(** Two present W columns beyond the four zero points. *)
Definition filters_w6 : list string :=
  ["W1"; "W2"; "W3"; "W4"; "W5"].

Definition tab_w5 : Table R :=
  mkTable [("W1", [10%R]); ("W1_err", [0.1%R]);
           ("W2", [10%R]); ("W2_err", [0.1%R]);
           ("W3", [10%R]); ("W3_err", [0.1%R]);
           ("W4", [10%R]); ("W4_err", [0.1%R]);
           ("W5", [10%R]); ("W5_err", [0.1%R])] [].

(** A curve tabulated redward of 6000 Angstrom only. *)
Definition curve_red (wave : R) : option R :=
  if Rlt_dec wave 6000 then None else Some (5500 / wave)%R.

Definition neb_zero : Nebular.NebLines :=
  [("Halpha", 4%R); ("Halpha_err", 0.5%R); ("Hbeta", 0%R)].

Definition neb_noerr : Nebular.NebLines := [("Halpha", 4%R)].

(** No Halpha flux measured; and a negative Halpha flux, as a noisy
    measurement of a faint line gives. *)
Definition neb_ha_zero : Nebular.NebLines :=
  [("Halpha", 0%R); ("Hbeta", 2%R)].
Definition neb_ha_negative : Nebular.NebLines :=
  [("Halpha", (-4)%R); ("Hbeta", 2%R)].

(** A grey curve: the same attenuation at every wavelength. *)
Definition curve_flat (wave : R) : option R := Some 1%R.

Definition tab_mixed : Table R :=
  mkTable [("DES_r", [20%R]); ("DES_r_err", [0.1%R]); ("z", [0.3%R])] [].

End MoreDoubles.

(** * Properties of nebular.py *)

Section NebularFacts.

Import Nebular.
Local Open Scope R_scope.
Local Open Scope string_scope.

Variable wrest : string -> option R.
Variable MW_dust : R -> option R.

Lemma pow10_0 : pow10 0 = 1.
Proof. unfold pow10. apply Rpower_O. lra. Qed.

Lemma pow10_pos (x : R) : 0 < pow10 x.
Proof. unfold pow10, Rpower. apply exp_pos. Qed.

(** What [calc_lum] returns whenever its look-ups succeed. *)
Lemma calc_lum_spec (neb_lines : NebLines) (line : string) (z : R)
    (cosmo : Cosmology) (AV : option R) (curve : string) (w al f e : R) :
  wrest line = Some w ->
  attenuation MW_dust w AV curve = Ok al ->
  getitem neb_lines line = Ok f ->
  getitem neb_lines (line ++ "_err") = Ok e ->
  calc_lum wrest MW_dust neb_lines line z cosmo AV curve =
    Ok (f * pow10 (al / 2.5) * (4 * PI * luminosity_distance cosmo z ^ 2),
        if Rlt_dec 0 e
        then e * pow10 (al / 2.5) * (4 * PI * luminosity_distance cosmo z ^ 2)
        else -999).
Proof.
  intros Hw Hal Hf He. unfold calc_lum. rewrite Hw. cbn [bind].
  unfold attenuation in Hal.
  destruct AV as [av|].
  - destruct (load_extinction MW_dust curve) as [alAV|x]; cbn [bind] in *;
      [|discriminate].
    destruct (alAV w) as [a|x]; cbn [bind] in *; [|discriminate].
    injection Hal as <-. rewrite Hf. cbn [bind]. rewrite He. reflexivity.
  - injection Hal as <-. cbn [bind]. rewrite Hf. cbn [bind]. rewrite He.
    reflexivity.
Qed.

Lemma attenuation_None (w : R) (curve : string) :
  attenuation MW_dust w None curve = Ok 0.
Proof. reflexivity. Qed.

Lemma attenuation_MW (w av a : R) :
  MW_dust w = Some a ->
  attenuation MW_dust w (Some av) "MW" = Ok (av * a).
Proof.
  intros H. unfold attenuation, load_extinction. cbn. rewrite H. reflexivity.
Qed.

(** C8: [calc_lum] returns L = F * 10^(al/2.5) * 4 pi D_L^2, where the
    exponent is A_V * a(lambda_rest) when A_V is supplied; without A_V the
    correction factor is exactly 1. *)
Theorem calc_lum_luminosity (neb_lines : NebLines) (line : string) (z : R)
    (cosmo : Cosmology) (w f e : R) :
  wrest line = Some w ->
  getitem neb_lines line = Ok f ->
  getitem neb_lines (line ++ "_err") = Ok e ->
  (forall curve, exists sL,
      calc_lum wrest MW_dust neb_lines line z cosmo None curve =
        Ok (f * 1 * (4 * PI * luminosity_distance cosmo z ^ 2), sL)) /\
  (forall av a, MW_dust w = Some a -> exists sL,
      calc_lum wrest MW_dust neb_lines line z cosmo (Some av) "MW" =
        Ok (f * pow10 (av * a / 2.5)
              * (4 * PI * luminosity_distance cosmo z ^ 2), sL)).
Proof.
  intros Hw Hf He. split.
  - intros curve. eexists.
    rewrite (calc_lum_spec _ _ z cosmo _ _ _ _ _ _ Hw (attenuation_None w curve) Hf He).
    replace (0 / 2.5) with 0 by lra. rewrite pow10_0. reflexivity.
  - intros av a Ha. eexists.
    rewrite (calc_lum_spec _ _ z cosmo _ _ _ _ _ _ Hw (attenuation_MW w av a Ha) Hf He).
    reflexivity.
Qed.

(** C4: a non-positive flux error (the -999 sentinel included) gives a
    luminosity error of exactly -999 whatever the flux; a positive one is
    multiplied by 10^(al/2.5) * 4 pi D_L^2, the factor that takes the flux
    to the luminosity, where the exponent [al] is 0 without A_V and
    A_V * a(lambda_rest) with it. *)
Theorem calc_lum_error (neb_lines : NebLines) (line : string) (z : R)
    (cosmo : Cosmology) (AV : option R) (curve : string) (w al f e : R) :
  wrest line = Some w ->
  attenuation MW_dust w AV curve = Ok al ->
  getitem neb_lines line = Ok f ->
  getitem neb_lines (line ++ "_err") = Ok e ->
  (e <= 0 ->
   calc_lum wrest MW_dust neb_lines line z cosmo AV curve =
     Ok (f * pow10 (al / 2.5) * (4 * PI * luminosity_distance cosmo z ^ 2),
         -999)) /\
  (0 < e ->
   calc_lum wrest MW_dust neb_lines line z cosmo AV curve =
     Ok (f * pow10 (al / 2.5) * (4 * PI * luminosity_distance cosmo z ^ 2),
         e * pow10 (al / 2.5) * (4 * PI * luminosity_distance cosmo z ^ 2))) /\
  (AV = None -> al = 0) /\
  (forall av a, AV = Some av -> curve = "MW" -> MW_dust w = Some a ->
                al = av * a).
Proof.
  intros Hw Hal Hf He.
  rewrite (calc_lum_spec _ _ z cosmo _ _ _ _ _ _ Hw Hal Hf He).
  split; [|split; [|split]].
  - intros Hs. destruct (Rlt_dec 0 e); [exfalso; lra | reflexivity].
  - intros Hs. destruct (Rlt_dec 0 e); [reflexivity | lra].
  - intros ->. cbn in Hal. now injection Hal as <-.
  - intros av a -> -> Ha. rewrite (attenuation_MW w av a Ha) in Hal.
    now injection Hal as <-.
Qed.

Lemma log10_pos (x : R) : 1 < x -> 0 < log10 x.
Proof.
  intros H. unfold log10.
  assert (0 < ln x) by (rewrite <- ln_1; apply ln_increasing; lra).
  assert (0 < ln 10) by (rewrite <- ln_1; apply ln_increasing; lra).
  apply Rdiv_lt_0_compat; assumption.
Qed.

Lemma log10_1 : log10 1 = 0.
Proof. unfold log10. rewrite ln_1. lra. Qed.

Variable python_floats : bool.

(** What [calc_dust_extinct] returns once its look-ups have succeeded and
    the observed ratio is positive. *)
Lemma calc_dust_extinct_run (neb_lines : NebLines) (fa fb a1 a2 : R) :
  getitem neb_lines "Halpha" = Ok fa ->
  getitem neb_lines "Hbeta" = Ok fb ->
  fb <> 0 -> 0 < fa / fb ->
  MW_dust 6564.6 = Some a1 ->
  MW_dust 4862.7 = Some a2 ->
  calc_dust_extinct MW_dust python_floats neb_lines "Ha/Hb" "MW" =
    Ok (np_div (2.5 * log10 (2.8 / (fa / fb))) (a1 - a2)).
Proof.
  intros Hfa Hfb Hnz Hpos H1 H2.
  unfold calc_dust_extinct, load_extinction.
  cbn [String.eqb Ascii.eqb Bool.eqb bind]. rewrite Hfa. cbn [bind].
  rewrite Hfb. cbn [bind]. rewrite H1. cbn [bind]. rewrite H2. cbn [bind].
  unfold fdiv at 1. destruct (Req_dec_T fb 0); [contradiction|].
  cbn [bind]. unfold fdiv.
  destruct (Req_dec_T (fa / fb) 0); [lra|]. cbn [bind].
  unfold np_log10, Ha_Hb_intrin.
  destruct (Rlt_dec 0 (2.8 / (fa / fb))) as [_|Hn]; [reflexivity|].
  exfalso. apply Hn. apply Rdiv_lt_0_compat; lra.
Qed.

(** C6, amended: when the observed ratio F(Ha)/F(Hb) is positive and the
    curve takes two values at the two wavelengths, the estimate is
    A_V = 2.5 log10(2.8 / (F(Ha)/F(Hb))) / (a(6564.6) - a(4862.7)),
    for Python floats and for numpy scalars alike; it is 0 when the
    observed ratio is 2.8, and a ratio below 2.8 on a curve falling with
    wavelength is returned as a negative A_V. *)
Theorem calc_dust_extinct_HaHb (neb_lines : NebLines) (fa fb a1 a2 : R) :
  getitem neb_lines "Halpha" = Ok fa ->
  getitem neb_lines "Hbeta" = Ok fb ->
  fb <> 0 -> 0 < fa / fb ->
  MW_dust 6564.6 = Some a1 ->
  MW_dust 4862.7 = Some a2 ->
  a1 <> a2 ->
  calc_dust_extinct MW_dust python_floats neb_lines "Ha/Hb" "MW" =
    Ok (finite (2.5 * log10 (2.8 / (fa / fb)) / (a1 - a2))) /\
  (fa = 2.8 * fb ->
   calc_dust_extinct MW_dust python_floats neb_lines "Ha/Hb" "MW" =
     Ok (finite 0)) /\
  (fa / fb < 2.8 -> a1 < a2 ->
   exists AV,
     calc_dust_extinct MW_dust python_floats neb_lines "Ha/Hb" "MW" =
       Ok (finite AV) /\
     AV < 0).
Proof.
  intros Hfa Hfb Hnz Hpos H1 H2 Hne.
  assert (E : calc_dust_extinct MW_dust python_floats neb_lines "Ha/Hb" "MW" =
              Ok (finite (2.5 * log10 (2.8 / (fa / fb)) / (a1 - a2)))).
  { rewrite (calc_dust_extinct_run neb_lines fa fb a1 a2 Hfa Hfb Hnz Hpos
               H1 H2).
    unfold np_div. destruct (Req_dec_T (a1 - a2) 0); [lra|reflexivity]. }
  split; [exact E|]. split.
  - intros Hr. rewrite E. do 2 f_equal. subst fa.
    replace (2.8 * fb / fb) with 2.8 by (field; assumption).
    replace (2.8 / 2.8) with 1 by lra.
    rewrite log10_1. unfold Rdiv. ring.
  - intros Hhi Hcurve. eexists. split; [exact E|].
    assert (Hl : 0 < log10 (2.8 / (fa / fb))).
    { apply log10_pos. set (r := fa / fb) in *.
      apply Rmult_lt_reg_r with r; [assumption|].
      replace (2.8 / r * r) with 2.8 by (field; lra). lra. }
    assert (Hi : / (a1 - a2) < 0) by (apply Rinv_lt_0_compat; lra).
    set (l := log10 (2.8 / (fa / fb))) in *.
    unfold Rdiv. nra.
Qed.

(** What the code does outside those conditions, once the look-ups have
    succeeded: with a zero flux it raises [ZeroDivisionError] on Python
    floats and returns a value that is not finite on numpy scalars; with
    fluxes of opposite signs, or a curve that takes the same value at
    the two wavelengths, it returns a value that is not finite. *)
Lemma calc_dust_extinct_degenerate (neb_lines : NebLines) (fa fb a1 a2 : R) :
  getitem neb_lines "Halpha" = Ok fa ->
  getitem neb_lines "Hbeta" = Ok fb ->
  MW_dust 6564.6 = Some a1 ->
  MW_dust 4862.7 = Some a2 ->
  (fa = 0 \/ fb = 0 ->
   calc_dust_extinct MW_dust python_floats neb_lines "Ha/Hb" "MW" =
     if python_floats then Raise ZeroDivisionError else Ok non_finite) /\
  (fb <> 0 -> fa / fb < 0 ->
   calc_dust_extinct MW_dust python_floats neb_lines "Ha/Hb" "MW" =
     Ok non_finite) /\
  (fb <> 0 -> 0 < fa / fb -> a1 = a2 ->
   calc_dust_extinct MW_dust python_floats neb_lines "Ha/Hb" "MW" =
     Ok non_finite).
Proof.
  intros Hfa Hfb H1 H2.
  assert (E : calc_dust_extinct MW_dust python_floats neb_lines "Ha/Hb" "MW" =
    (fratio_obs <- fdiv python_floats fa fb ;;
     match fratio_obs with
     | non_finite => Ok non_finite
     | finite fratio_obs =>
         intrin_obs <- fdiv python_floats Ha_Hb_intrin fratio_obs ;;
         match intrin_obs with
         | non_finite => Ok non_finite
         | finite intrin_obs =>
             match np_log10 intrin_obs with
             | non_finite => Ok non_finite
             | finite l => Ok (np_div (2.5 * l) (a1 - a2))
             end
         end
     end)).
  { unfold calc_dust_extinct, load_extinction.
    cbn [String.eqb Ascii.eqb Bool.eqb bind]. rewrite Hfa. cbn [bind].
    rewrite Hfb. cbn [bind]. rewrite H1. cbn [bind]. rewrite H2.
    reflexivity. }
  rewrite E. clear E. split; [|split].
  - intros Hz. unfold fdiv at 1.
    destruct (Req_dec_T fb 0) as [Hb|Hb].
    + now destruct python_floats.
    + destruct Hz as [Ha|Hb']; [|contradiction]. cbn [bind]. unfold fdiv.
      destruct (Req_dec_T (fa / fb) 0) as [_|Hn].
      * now destruct python_floats.
      * exfalso. apply Hn. subst fa. unfold Rdiv. ring.
  - intros Hb Hneg. unfold fdiv at 1.
    destruct (Req_dec_T fb 0); [contradiction|]. cbn [bind]. unfold fdiv.
    destruct (Req_dec_T (fa / fb) 0); [lra|]. cbn [bind].
    unfold np_log10, Ha_Hb_intrin.
    destruct (Rlt_dec 0 (2.8 / (fa / fb))) as [Hp|_]; [|reflexivity].
    exfalso. set (r := fa / fb) in *.
    assert (2.8 / r < 0).
    { unfold Rdiv. apply Rmult_pos_neg; [lra|].
      now apply Rinv_lt_0_compat. }
    lra.
  - intros Hb Hpos ->. fold (calc_dust_extinct MW_dust python_floats).
    unfold fdiv at 1. destruct (Req_dec_T fb 0); [contradiction|].
    cbn [bind]. unfold fdiv.
    destruct (Req_dec_T (fa / fb) 0); [lra|]. cbn [bind].
    unfold np_log10. destruct (Rlt_dec 0 (Ha_Hb_intrin / (fa / fb)));
      [|reflexivity].
    unfold np_div. destruct (Req_dec_T (a2 - a2) 0) as [_|Hn];
      [reflexivity|]. exfalso. apply Hn. ring.
Qed.

End NebularFacts.

Section NebularWitnesses.

Import Nebular Doubles MoreDoubles.
Local Open Scope R_scope.
Local Open Scope string_scope.

(** The luminosity of Halpha in [neb0], without and with extinction. *)
Lemma calc_lum_luminosity_witness :
  (forall curve, exists sL,
      calc_lum wrest0 curve0 neb0 "Halpha" 0.1 cosmo0 None curve =
        Ok (5.6 * 1 * (4 * PI * luminosity_distance cosmo0 0.1 ^ 2), sL)) /\
  (forall av a, curve0 6564.6 = Some a -> exists sL,
      calc_lum wrest0 curve0 neb0 "Halpha" 0.1 cosmo0 (Some av) "MW" =
        Ok (5.6 * pow10 (av * a / 2.5)
              * (4 * PI * luminosity_distance cosmo0 0.1 ^ 2), sL)).
Proof.
  apply (calc_lum_luminosity wrest0 curve0 neb0 "Halpha" 0.1 cosmo0
           6564.6 5.6 0.5); reflexivity.
Defined.

(** The sentinel error of Hbeta and the positive error of Halpha in [neb0]. *)
Lemma calc_lum_error_witness :
  calc_lum wrest0 curve0 neb0 "Hbeta" 0.1 cosmo0 None "MW" =
    Ok (2 * pow10 (0 / 2.5) * (4 * PI * luminosity_distance cosmo0 0.1 ^ 2),
        -999) /\
  calc_lum wrest0 curve0 neb0 "Halpha" 0.1 cosmo0 (Some 1.2) "MW" =
    Ok (5.6 * pow10 (1.2 * (5500 / 6564.6) / 2.5)
          * (4 * PI * luminosity_distance cosmo0 0.1 ^ 2),
        0.5 * pow10 (1.2 * (5500 / 6564.6) / 2.5)
          * (4 * PI * luminosity_distance cosmo0 0.1 ^ 2)).
Proof.
  split.
  - apply (proj1 (calc_lum_error wrest0 curve0 neb0 "Hbeta" 0.1 cosmo0
                    None "MW" 4862.7 0 2 (-999)
                    eq_refl eq_refl eq_refl eq_refl)).
    lra.
  - apply (proj1 (proj2 (calc_lum_error wrest0 curve0 neb0 "Halpha" 0.1
                           cosmo0 (Some 1.2) "MW" 6564.6
                           (1.2 * (5500 / 6564.6)) 5.6 0.5
                           eq_refl eq_refl eq_refl eq_refl))).
    lra.
Defined.

(** [neb0] sits at the intrinsic ratio; [neb1] has the ratio 2 and a
    negative estimate on the falling curve. *)
Lemma calc_dust_extinct_HaHb_witness :
  calc_dust_extinct curve0 true neb0 "Ha/Hb" "MW" = Ok (finite 0) /\
  (exists AV, calc_dust_extinct curve0 false neb1 "Ha/Hb" "MW"
                = Ok (finite AV) /\ AV < 0).
Proof.
  split.
  - apply (calc_dust_extinct_HaHb curve0 true neb0 5.6 2
             (5500 / 6564.6) (5500 / 4862.7));
      try reflexivity; lra.
  - apply (calc_dust_extinct_HaHb curve0 false neb1 4 2
             (5500 / 6564.6) (5500 / 4862.7));
      try reflexivity; lra.
Defined.

(** C6, as stated, fails: F(Hbeta) = 2 is not zero, yet with
    F(Halpha) = 0 no A_V is returned (Python floats raise
    [ZeroDivisionError], numpy scalars give a value that is not finite),
    with F(Halpha) = -4 the logarithm of a negative number gives
    [nan], and on a curve with a(6564.6) = a(4862.7) the last division
    has a zero divisor. *)
Lemma zero_Halpha_flux_no_estimate :
  getitem neb_ha_zero "Hbeta" = Ok 2 /\ 2 <> 0 /\
  calc_dust_extinct curve0 true neb_ha_zero "Ha/Hb" "MW"
    = Raise ZeroDivisionError /\
  calc_dust_extinct curve0 false neb_ha_zero "Ha/Hb" "MW" = Ok non_finite /\
  (forall python_floats AV,
     calc_dust_extinct curve0 python_floats neb_ha_zero "Ha/Hb" "MW"
       <> Ok (finite AV)) /\
  (forall python_floats,
     calc_dust_extinct curve0 python_floats neb_ha_negative "Ha/Hb" "MW"
       = Ok non_finite) /\
  (forall python_floats,
     calc_dust_extinct curve_flat python_floats neb1 "Ha/Hb" "MW"
       = Ok non_finite).
Proof.
  assert (Hz : forall pf,
            calc_dust_extinct curve0 pf neb_ha_zero "Ha/Hb" "MW" =
              if pf then Raise ZeroDivisionError else Ok non_finite).
  { intros pf.
    apply (proj1 (calc_dust_extinct_degenerate curve0 pf neb_ha_zero 0 2
                    (5500 / 6564.6) (5500 / 4862.7)
                    eq_refl eq_refl eq_refl eq_refl)).
    now left. }
  split; [reflexivity|]. split; [lra|].
  split; [exact (Hz true)|]. split; [exact (Hz false)|]. split.
  - intros pf AV. rewrite Hz. destruct pf; discriminate.
  - split; intros pf.
    + apply (proj1 (proj2 (calc_dust_extinct_degenerate curve0 pf
                             neb_ha_negative (-4) 2
                             (5500 / 6564.6) (5500 / 4862.7)
                             eq_refl eq_refl eq_refl eq_refl))); lra.
    + apply (proj2 (proj2 (calc_dust_extinct_degenerate curve_flat pf
                             neb1 4 2 1 1
                             eq_refl eq_refl eq_refl eq_refl)));
        [lra|lra|reflexivity].
Qed.

End NebularWitnesses.

(** * Facts about the list primitives *)

Section SortedFacts.

Context {A : Type}.
Variable leb : A -> A -> bool.

Lemma insert_perm (x : A) (l : list A) : Permutation (insert leb x l) (x :: l).
Proof.
  induction l as [|y l IH]; cbn; [reflexivity|].
  destruct (leb x y); [reflexivity|].
  rewrite IH. apply perm_swap.
Qed.

Lemma sorted_perm (l : list A) : Permutation (sorted leb l) l.
Proof.
  induction l as [|x l IH]; cbn; [reflexivity|].
  rewrite insert_perm. now constructor.
Qed.

Lemma sorted_In (x : A) (l : list A) : In x (sorted leb l) <-> In x l.
Proof.
  split; apply Permutation_in; [|symmetry]; apply sorted_perm.
Qed.

Lemma sorted_NoDup (l : list A) : NoDup l -> NoDup (sorted leb l).
Proof.
  apply Permutation_NoDup. symmetry. apply sorted_perm.
Qed.

Lemma sorted_length (l : list A) : List.length (sorted leb l) = List.length l.
Proof. apply Permutation_length, sorted_perm. Qed.

End SortedFacts.

Section OrderFacts.

Context {A : Type}.
Variable leb : A -> A -> bool.
Variable R : A -> A -> Prop.
Hypothesis R_trans : forall x y z, R x y -> R y z -> R x z.
Hypothesis leb_true : forall x y, leb x y = true -> R x y.
Hypothesis leb_false : forall x y, leb x y = false -> R y x.

Lemma insert_strongly_sorted (x : A) (l : list A) :
  StronglySorted R l -> StronglySorted R (insert leb x l).
Proof.
  induction 1 as [|y l Hs IH Hy]; cbn.
  - repeat constructor.
  - destruct (leb x y) eqn:E.
    + constructor; [now constructor|]. constructor; [now apply leb_true|].
      eapply Forall_impl; [|exact Hy]. intros z Hz.
      eapply R_trans; [apply leb_true; exact E|exact Hz].
    + constructor; [exact IH|]. rewrite Forall_forall in *. intros z Hz.
      apply (Permutation_in _ (insert_perm leb x l)) in Hz.
      destruct Hz as [<-|Hz]; [now apply leb_false|now apply Hy].
Qed.

Lemma sorted_strongly_sorted (l : list A) : StronglySorted R (sorted leb l).
Proof.
  induction l as [|x l IH]; cbn; [constructor|].
  now apply insert_strongly_sorted.
Qed.

End OrderFacts.

Section TakeFacts.

Context {A : Type}.

Lemma In_enumerate_gen (l : list A) (a i : nat) (x : A) :
  In (i, x) (combine (seq a (List.length l)) l) <->
  a <= i /\ nth_error l (i - a) = Some x.
Proof.
  revert a. induction l as [|y l IH]; intros a; cbn.
  - split; [tauto|]. intros [_ H]. destruct (i - a); discriminate.
  - rewrite IH. split.
    + intros [H|[H1 H2]].
      * injection H as <- <-. rewrite Nat.sub_diag. split; [lia|reflexivity].
      * split; [lia|]. replace (i - a) with (S (i - S a)) by lia. exact H2.
    + intros [H1 H2]. destruct (i - a) as [|k] eqn:E.
      * left. injection H2 as <-. f_equal. lia.
      * right. split; [lia|]. replace (i - S a) with k by lia. exact H2.
Qed.

Lemma map_fst_enumerate (l : list A) :
  map fst (enumerate l) = seq 0 (List.length l).
Proof.
  unfold enumerate. generalize 0. induction l as [|x l IH]; intros a; cbn;
    [reflexivity|]. now rewrite IH.
Qed.

Lemma take_nth (d : A) (a : list A) (idx : list nat) :
  Forall (fun i => i < List.length a) idx ->
  take a idx = Ok (map (fun i => nth i a d) idx).
Proof.
  induction 1 as [|i idx Hi Hidx IH]; cbn; [reflexivity|].
  rewrite IH. destruct (nth_error a i) as [x|] eqn:E.
  - cbn. now rewrite (nth_error_nth _ _ d E).
  - apply nth_error_None in E. lia.
Qed.

Lemma map_nth_seq (d : A) (l : list A) :
  map (fun i => nth i l d) (seq 0 (List.length l)) = l.
Proof.
  induction l as [|x l IH]; cbn; [reflexivity|].
  f_equal. rewrite <- seq_shift, map_map. exact IH.
Qed.

Lemma take_columns_col (cols c : list (string * list A)) (idx : list nat)
    (k : string) (v : list A) :
  take_columns cols idx = Ok c ->
  getitem cols k = Ok v ->
  exists v', take v idx = Ok v' /\ getitem c k = Ok v'.
Proof.
  revert c. induction cols as [|[k0 v0] cols IH]; intros c; cbn;
    [discriminate|].
  destruct (take v0 idx) as [v0'|] eqn:E0; cbn [bind]; [|discriminate].
  destruct (take_columns cols idx) as [c0|] eqn:E1; cbn [bind];
    [|discriminate].
  intros [= <-]. cbn. destruct (String.eqb k0 k).
  - intros [= <-]. now exists v0'.
  - intros Hk. now apply IH.
Qed.

Lemma take_columns_names (cols c : list (string * list A)) (idx : list nat) :
  take_columns cols idx = Ok c -> map fst c = map fst cols.
Proof.
  revert c. induction cols as [|[k0 v0] cols IH]; intros c; cbn.
  - now intros [= <-].
  - destruct (take v0 idx) as [v0'|]; cbn [bind]; [|discriminate].
    destruct (take_columns cols idx) as [c0|]; cbn [bind]; [|discriminate].
    intros [= <-]. cbn. f_equal. now apply IH.
Qed.

End TakeFacts.

(** * Facts about [np.argsort] *)

Section ArgsortFacts.

Context {A : Type}.
Variable leb : A -> A -> bool.

Lemma sorts_range (a : list A) (p : list nat) :
  sorts leb a p -> Forall (fun i => i < List.length a) p.
Proof.
  intros [Hp _]. rewrite Forall_forall. intros i Hi.
  apply (Permutation_in _ Hp) in Hi. apply in_seq in Hi. lia.
Qed.

Lemma take_pairs (a : list A) (s : list (nat * A)) :
  (forall i x, In (i, x) s -> nth_error a i = Some x) ->
  take a (map fst s) = Ok (map snd s).
Proof.
  induction s as [|[i x] s IH]; intros H; cbn; [reflexivity|].
  rewrite (H i x (or_introl eq_refl)).
  rewrite IH; [reflexivity|]. intros j y Hj. apply H. now right.
Qed.

Lemma take_In (a : list A) (p : list nat) (keys : list A) (i : nat)
    (x : A) :
  take a p = Ok keys -> In i p -> nth_error a i = Some x -> In x keys.
Proof.
  revert keys. induction p as [|j p IH]; intros keys; cbn; [contradiction|].
  destruct (nth_error a j) as [y|] eqn:E; [|discriminate].
  destruct (take a p) as [r|]; cbn [bind]; [|discriminate].
  intros [= <-] [->|Hi] Hx.
  - left. congruence.
  - right. now apply (IH r).
Qed.

Lemma take_nth_error (a : list A) (p : list nat) (keys : list A) (c : nat)
    (x : A) :
  take a p = Ok keys -> nth_error keys c = Some x ->
  exists i, nth_error p c = Some i /\ nth_error a i = Some x.
Proof.
  revert keys c. induction p as [|j p IH]; intros keys c; cbn.
  - intros [= <-]. destruct c; discriminate.
  - destruct (nth_error a j) as [y|] eqn:E; [|discriminate].
    destruct (take a p) as [r|]; cbn [bind]; [|discriminate].
    intros [= <-]. destruct c as [|c]; cbn.
    + intros [= <-]. now exists j.
    + intros Hc. now apply (IH r).
Qed.

Hypothesis leb_trans :
  forall x y z, leb x y = true -> leb y z = true -> leb x z = true.
Hypothesis leb_total : forall x y, leb x y = false -> leb y x = true.

(** Sorting the pairs (position, entry) by entry keeps the promise, in
    whatever order the pairs are handed to the sort. *)
Lemma sorted_pairs_sorts (a : list A) (l : list (nat * A)) :
  Permutation (map fst l) (seq 0 (List.length a)) ->
  (forall i x, In (i, x) l -> nth_error a i = Some x) ->
  sorts leb a (map fst (sorted (fun p q => leb (snd p) (snd q)) l)).
Proof.
  intros Hp Hin. split.
  - rewrite <- Hp. apply Permutation_map, sorted_perm.
  - exists (map snd (sorted (fun p q => leb (snd p) (snd q)) l)). split.
    + apply take_pairs. intros i x Hx. apply Hin.
      now apply sorted_In in Hx.
    + assert (Hs : StronglySorted
                     (fun p q : nat * A => leb (snd p) (snd q) = true)
                     (sorted (fun p q => leb (snd p) (snd q)) l)).
      { apply sorted_strongly_sorted.
        - intros x y z. apply leb_trans.
        - intros x y H. exact H.
        - intros x y H. now apply leb_total. }
      induction Hs as [|q s Hs IH Hq]; cbn; constructor; [exact IH|].
      rewrite Forall_map. exact Hq.
Qed.

Lemma argsort_stable_contract : argsort_contract leb (argsort_stable leb).
Proof.
  intros a. unfold argsort_stable. apply sorted_pairs_sorts.
  - now rewrite map_fst_enumerate.
  - intros i x Hx. unfold enumerate in Hx.
    apply In_enumerate_gen in Hx as [_ Hx]. now rewrite Nat.sub_0_r in Hx.
Qed.

Lemma argsort_ties_reversed_contract :
  argsort_contract leb (argsort_ties_reversed leb).
Proof.
  intros a. unfold argsort_ties_reversed. apply sorted_pairs_sorts.
  - rewrite map_rev, map_fst_enumerate. symmetry. apply Permutation_rev.
  - intros i x Hx. apply in_rev in Hx. unfold enumerate in Hx.
    apply In_enumerate_gen in Hx as [_ Hx]. now rewrite Nat.sub_0_r in Hx.
Qed.

End ArgsortFacts.

Lemma Zleb_trans (x y z : Z) :
  (x <=? y)%Z = true -> (y <=? z)%Z = true -> (x <=? z)%Z = true.
Proof. rewrite !Z.leb_le. lia. Qed.

Lemma Zleb_total (x y : Z) : (x <=? y)%Z = false -> (y <=? x)%Z = true.
Proof. rewrite Z.leb_gt, Z.leb_le. lia. Qed.

Lemma Qle_bool_trans (x y z : Q) :
  Qle_bool x y = true -> Qle_bool y z = true -> Qle_bool x z = true.
Proof. rewrite !Qle_bool_iff. apply Qle_trans. Qed.

Lemma Qle_bool_total (x y : Q) : Qle_bool x y = false -> Qle_bool y x = true.
Proof.
  intros H. apply Qle_bool_iff, Qlt_le_weak, Qnot_le_lt. intros Hle.
  apply Qle_bool_iff in Hle. congruence.
Qed.

Lemma argsort_stable_Z : argsort_contract Z.leb (argsort_stable Z.leb).
Proof. apply argsort_stable_contract; [exact Zleb_trans|exact Zleb_total]. Qed.

Lemma argsort_ties_reversed_Z :
  argsort_contract Z.leb (argsort_ties_reversed Z.leb).
Proof.
  apply argsort_ties_reversed_contract; [exact Zleb_trans|exact Zleb_total].
Qed.

Lemma argsort_stable_Q : argsort_contract Qle_bool (argsort_stable Qle_bool).
Proof.
  apply argsort_stable_contract; [exact Qle_bool_trans|exact Qle_bool_total].
Qed.

(** What the promise gives for an array of separations. *)
Section ArgsortOnQ.

Variable argsort : list Q -> list nat.
Hypothesis Hargsort : argsort_contract Qle_bool argsort.

Lemma argsort_range (a : list Q) :
  Forall (fun i => i < List.length a) (argsort a).
Proof. eapply sorts_range. apply Hargsort. Qed.

Lemma argsort_perm (a : list Q) :
  Permutation (argsort a) (seq 0 (List.length a)).
Proof. apply Hargsort. Qed.

Lemma argsort_sorted_Q (a : list Q) :
  StronglySorted Qle (map (fun i => nth i a 0%Q) (argsort a)).
Proof.
  destruct (Hargsort a) as [_ [keys [Ht Hs]]].
  rewrite (take_nth 0%Q) in Ht by apply argsort_range.
  injection Ht as <-.
  induction Hs as [|x l Hs IH Hx]; constructor; [exact IH|].
  eapply Forall_impl; [|exact Hx]. cbn. intros y Hy.
  now apply Qle_bool_iff.
Qed.

End ArgsortOnQ.

Lemma insert_lex_sorted (p : nat * Z) (s : list (nat * Z)) :
  StronglySorted lex_lt s ->
  Forall (fun q => fst p < fst q) s ->
  StronglySorted lex_lt (insert key_leb p s).
Proof.
  induction 1 as [|q s Hs IH Hq]; intros Hp; cbn.
  - repeat constructor.
  - inversion Hp as [|? ? Hpq Hps]; subst.
    unfold key_leb at 1. destruct (Z.leb_spec (snd p) (snd q)) as [Hle|Hlt].
    + constructor; [now constructor|].
      constructor.
      * unfold lex_lt. lia.
      * rewrite Forall_forall in *. intros r Hr.
        specialize (Hq r Hr). specialize (Hps r Hr). unfold lex_lt in *. lia.
    + constructor; [now apply IH|].
      rewrite Forall_forall in *. intros r Hr.
      apply (Permutation_in _ (insert_perm key_leb p s)) in Hr.
      destruct Hr as [<-|Hr]; [unfold lex_lt; lia | now apply Hq].
Qed.

Lemma sorted_enumerate_from (l : list Z) (a : nat) :
  StronglySorted lex_lt (sorted key_leb (combine (seq a (List.length l)) l)) /\
  Forall (fun q => a <= fst q)
    (sorted key_leb (combine (seq a (List.length l)) l)).
Proof.
  revert a. induction l as [|x l IH]; intros a; cbn.
  - split; constructor.
  - destruct (IH (S a)) as [Hs Hb]. split.
    + apply insert_lex_sorted; [exact Hs|].
      eapply Forall_impl; [|exact Hb]. cbn. intros; lia.
    + rewrite Forall_forall in *. intros r Hr.
      apply (Permutation_in _ (insert_perm key_leb _ _)) in Hr.
      destruct Hr as [<-|Hr]; [cbn; lia|]. specialize (Hb r Hr). lia.
Qed.

Lemma In_enumerate_from (l : list Z) (a i : nat) (x : Z) :
  In (i, x) (combine (seq a (List.length l)) l) <->
  a <= i /\ nth_error l (i - a) = Some x.
Proof.
  revert a. induction l as [|y l IH]; intros a; cbn.
  - split; [tauto|]. intros [_ H]. destruct (i - a); discriminate.
  - rewrite IH. split.
    + intros [H|[H1 H2]].
      * injection H as <- <-. rewrite Nat.sub_diag. split; [lia|reflexivity].
      * split; [lia|]. replace (i - a) with (S (i - S a)) by lia. exact H2.
    + intros [H1 H2]. destruct (i - a) as [|k] eqn:E.
      * left. injection H2 as <-. f_equal. lia.
      * right. split; [lia|]. replace (i - S a) with k by lia. exact H2.
Qed.

Lemma In_sorted_enumerate (l : list Z) (i : nat) (x : Z) :
  In (i, x) (sorted key_leb (enumerate l)) <-> nth_error l i = Some x.
Proof.
  rewrite sorted_In. unfold enumerate. rewrite In_enumerate_from.
  rewrite Nat.sub_0_r. split; [tauto|]. split; [lia|assumption].
Qed.

Lemma first_index_Some (x : Z) (l : list Z) (i : nat) :
  first_index x l = Some i ->
  nth_error l i = Some x /\ forall j, nth_error l j = Some x -> i <= j.
Proof.
  revert i. induction l as [|y l IH]; intros i; cbn; [discriminate|].
  destruct (Z.eqb_spec x y) as [->|Hne].
  - intros [= <-]. split; [reflexivity|]. intros; lia.
  - destruct (first_index x l) as [k|]; cbn; [|discriminate].
    intros [= <-]. destruct (IH k eq_refl) as [H1 H2]. split; [exact H1|].
    intros [|j]; cbn; [intros [= ->]; contradiction|].
    intros Hj. specialize (H2 j Hj). lia.
Qed.

Lemma first_index_existsb (x : Z) (l : list Z) :
  existsb (Z.eqb x) l = match first_index x l with
                        | Some _ => true
                        | None => false
                        end.
Proof.
  induction l as [|y l IH]; cbn; [reflexivity|].
  destruct (x =? y)%Z; cbn; [reflexivity|]. rewrite IH.
  now destruct (first_index x l).
Qed.

(** On the stably sorted positions, the left insertion point of a present
    value holds the first row with that value. *)
Lemma lex_sorted_first (s : list (nat * Z)) (x : Z) (i0 : nat) :
  StronglySorted lex_lt s ->
  In (i0, x) s ->
  (forall j, In (j, x) s -> i0 <= j) ->
  nth_error (map fst s) (count_while (fun p => (snd p <? x)%Z) s) = Some i0.
Proof.
  induction 1 as [|p s Hs IH Hp]; intros Hin Hfirst; cbn; [contradiction|].
  destruct (Z.ltb_spec (snd p) x) as [Hlt|Hge]; cbn.
  - apply IH.
    + destruct Hin as [->|Hin]; [cbn in Hlt; lia | exact Hin].
    + intros j Hj. apply Hfirst. now right.
  - destruct Hin as [->|Hin]; [reflexivity|].
    rewrite Forall_forall in Hp. specialize (Hp _ Hin).
    destruct Hp as [Hp|[Hp1 Hp2]]; cbn in *; [lia|].
    destruct p as [j y]; cbn in *. subst y.
    specialize (Hfirst j (or_introl eq_refl)). lia.
Qed.

Lemma count_while_ext {A : Type} (f g : A -> bool) (l : list A) :
  (forall x, In x l -> f x = g x) -> count_while f l = count_while g l.
Proof.
  induction l as [|x l IH]; intros H; cbn; [reflexivity|].
  rewrite (H x (or_introl eq_refl)). destruct (g x); [|reflexivity].
  f_equal. apply IH. intros y Hy. apply H. now right.
Qed.

Lemma count_while_map {A B : Type} (f : B -> bool) (g : A -> B) (l : list A) :
  count_while f (map g l) = count_while (fun x => f (g x)) l.
Proof.
  induction l as [|x l IH]; cbn; [reflexivity|].
  destruct (f (g x)); [now rewrite IH | reflexivity].
Qed.

Lemma argsort_searchsorted_first (a : list Z) (x : Z) (i0 : nat) :
  first_index x a = Some i0 ->
  nth_error (argsort_stable Z.leb a)
    (count_while (fun i => match nth_error a i with
                           | Some y => (y <? x)%Z
                           | None => false
                           end) (argsort_stable Z.leb a)) = Some i0.
Proof.
  intros Hfi. apply first_index_Some in Hfi as [Hnth Hmin].
  unfold argsort_stable.
  change (fun p q : nat * Z => (snd p <=? snd q)%Z) with key_leb.
  rewrite count_while_map.
  rewrite (count_while_ext _ (fun p => (snd p <? x)%Z)).
  - apply lex_sorted_first.
    + apply (sorted_enumerate_from a 0).
    + now apply In_sorted_enumerate.
    + intros j Hj. apply Hmin. now apply In_sorted_enumerate.
  - intros [j y] Hj. apply In_sorted_enumerate in Hj. cbn. now rewrite Hj.
Qed.

(** * Properties of catalog_utils.py: match_ids *)

Section MatchIds.

Import CatalogUtils.

Lemma mask_select_map {A : Type} (f : A -> bool) (l : list A) :
  mask_select l (map f l) = filter f l.
Proof.
  induction l as [|x l IH]; cbn; [reflexivity|].
  destruct (f x); now rewrite IH.
Qed.

Lemma take_searchsorted (a v : list Z) :
  Forall (fun x => existsb (Z.eqb x) a = true) v ->
  take (argsort_stable Z.leb a)
    (searchsorted a v (argsort_stable Z.leb a)) =
    Ok (map (row_of a) v).
Proof.
  induction 1 as [|x v Hx Hv IH]; cbn; [reflexivity|].
  rewrite first_index_existsb in Hx. unfold row_of at 1.
  destruct (first_index x a) as [i0|] eqn:E; [|discriminate].
  rewrite (argsort_searchsorted_first a x i0 E).
  unfold searchsorted in IH. rewrite IH. reflexivity.
Qed.

Lemma mask_assign_rows (f : Z -> bool) (g : Z -> Z) (c d : Z) (l : list Z) :
  mask_assign
    (mask_fill (map (fun _ => c) l) (map negb (map f l)) d)
    (map f l) (map g (filter f l)) =
  map (fun x => if f x then g x else d) l.
Proof.
  induction l as [|x l IH]; cbn; [reflexivity|].
  destruct (f x); cbn; now rewrite IH.
Qed.

Lemma count_true_negb_0 {A : Type} (f : A -> bool) (l : list A) :
  (0 <? count_true (map negb (map f l))) = negb (forallb f l).
Proof.
  induction l as [|x l IH]; cbn; [reflexivity|].
  unfold count_true in *. cbn. destruct (f x); cbn; [exact IH|reflexivity].
Qed.

Lemma match_ids_lenient (IDs match_IDs : list Z) :
  (let rows := map (fun _ => (-1 * 1)%Z) IDs in
   let in_match := in1d IDs match_IDs in
   let rows := mask_fill rows (map negb in_match) (-1)%Z in
   let IDs_inmatch := mask_select IDs in_match in
   let xsorted := argsort_stable Z.leb match_IDs in
   let ypos := searchsorted match_IDs IDs_inmatch xsorted in
   indices <- take xsorted ypos ;;
   Ok (mask_assign rows in_match (map Z.of_nat indices))) =
  Ok (map (first_match_row match_IDs) IDs).
Proof.
  cbv zeta. unfold in1d. rewrite mask_select_map.
  rewrite take_searchsorted.
  - cbn [bind]. rewrite (map_map (row_of match_IDs) Z.of_nat).
    rewrite (mask_assign_rows (fun x => existsb (Z.eqb x) match_IDs)
               (fun x => Z.of_nat (row_of match_IDs x))).
    f_equal. apply map_ext. intros x. rewrite first_index_existsb.
    unfold first_match_row, row_of. now destruct (first_index x match_IDs).
  - rewrite Forall_forall. intros x Hx. now apply filter_In in Hx.
Qed.

(** With a stable sort, as the comment in the code has it ("first
    instance in meta only!"), each identifier gets the lowest row that
    holds it. *)
Lemma match_ids_stable_first_occurrence (IDs match_IDs : list Z) :
  match_ids (argsort_stable Z.leb) IDs match_IDs false =
    Ok (map (first_match_row match_IDs) IDs) /\
  match_ids (argsort_stable Z.leb) IDs match_IDs true =
    (if forallb (fun x => existsb (Z.eqb x) match_IDs) IDs
     then Ok (map (first_match_row match_IDs) IDs)
     else Raise IOError).
Proof.
  split.
  - unfold match_ids. cbn [andb]. apply match_ids_lenient.
  - unfold match_ids. unfold in1d at 1. rewrite count_true_negb_0.
    destruct (forallb _ IDs); cbn [andb negb]; [|reflexivity].
    apply match_ids_lenient.
Qed.

Section AnyArgsort.

Variable argsort : list Z -> list nat.
Hypothesis Hargsort : argsort_contract Z.leb argsort.

Lemma sorted_keys_hit (keys : list Z) (x : Z) :
  StronglySorted (fun y z => (y <=? z)%Z = true) keys ->
  In x keys ->
  nth_error keys (count_while (fun y => (y <? x)%Z) keys) = Some x.
Proof.
  induction 1 as [|y keys Hs IH Hy]; intros Hin; cbn; [contradiction|].
  destruct (Z.ltb_spec y x) as [Hlt|Hge]; cbn.
  - apply IH. destruct Hin as [->|Hin]; [lia|exact Hin].
  - destruct Hin as [->|Hin]; [reflexivity|].
    rewrite Forall_forall in Hy. specialize (Hy x Hin).
    apply Z.leb_le in Hy. f_equal. lia.
Qed.

Lemma take_count_while (a : list Z) (p : list nat) (keys : list Z)
    (x : Z) :
  take a p = Ok keys ->
  count_while (fun i => match nth_error a i with
                        | Some y => (y <? x)%Z
                        | None => false
                        end) p =
  count_while (fun y => (y <? x)%Z) keys.
Proof.
  revert keys. induction p as [|j p IH]; intros keys; cbn.
  - now intros [= <-].
  - destruct (nth_error a j) as [y|] eqn:E; [|discriminate].
    destruct (take a p) as [r|]; cbn [bind]; [|discriminate].
    intros [= <-]. cbn. destruct (y <? x)%Z; [|reflexivity].
    f_equal. now apply IH.
Qed.

(** In whatever order the sort lists equal identifiers, the position
    that [searchsorted] finds for a present identifier holds a row with
    that identifier. *)
Lemma sorter_row_hit (a : list Z) (x : Z) :
  In x a ->
  nth_error (argsort a)
    (count_while (fun i => match nth_error a i with
                           | Some y => (y <? x)%Z
                           | None => false
                           end) (argsort a)) = Some (sorter_row a (argsort a) x) /\
  nth_error a (sorter_row a (argsort a) x) = Some x.
Proof.
  intros Hin. destruct (Hargsort a) as [Hp [keys [Ht Hs]]].
  assert (Hk : In x keys).
  { apply In_nth_error in Hin as [j Hj].
    apply (take_In a (argsort a) keys j x Ht); [|exact Hj].
    apply (Permutation_in _ (Permutation_sym Hp)). apply in_seq.
    split; [lia|]. cbn. apply nth_error_Some. congruence. }
  pose proof (sorted_keys_hit keys x Hs Hk) as Hhit.
  rewrite <- (take_count_while a (argsort a) keys x Ht) in Hhit.
  destruct (take_nth_error a (argsort a) keys _ x Ht Hhit) as [i [Hi Hx]].
  unfold sorter_row. rewrite (nth_error_nth _ _ 0 Hi). now split.
Qed.

Lemma take_searchsorted_any (a v : list Z) :
  Forall (fun x => existsb (Z.eqb x) a = true) v ->
  take (argsort a) (searchsorted a v (argsort a)) =
    Ok (map (sorter_row a (argsort a)) v).
Proof.
  induction 1 as [|x v Hx Hv IH]; cbn; [reflexivity|].
  assert (Hin : In x a).
  { apply existsb_exists in Hx as [y [Hy E]]. apply Z.eqb_eq in E.
    now subst. }
  rewrite (proj1 (sorter_row_hit a x Hin)).
  unfold searchsorted in IH. rewrite IH. reflexivity.
Qed.

(** What [match_ids] returns once the test of [require_in_match] has
    passed. *)
Lemma match_ids_any (IDs match_IDs : list Z) :
  (let rows := map (fun _ => (-1 * 1)%Z) IDs in
   let in_match := in1d IDs match_IDs in
   let rows := mask_fill rows (map negb in_match) (-1)%Z in
   let IDs_inmatch := mask_select IDs in_match in
   let xsorted := argsort match_IDs in
   let ypos := searchsorted match_IDs IDs_inmatch xsorted in
   indices <- take xsorted ypos ;;
   Ok (mask_assign rows in_match (map Z.of_nat indices))) =
  Ok (map (fun x => if existsb (Z.eqb x) match_IDs
                    then Z.of_nat (sorter_row match_IDs (argsort match_IDs) x)
                    else (-1)%Z) IDs).
Proof.
  cbv zeta. unfold in1d. rewrite mask_select_map.
  rewrite take_searchsorted_any.
  - cbn [bind].
    rewrite (map_map (sorter_row match_IDs (argsort match_IDs)) Z.of_nat).
    now rewrite (mask_assign_rows (fun x => existsb (Z.eqb x) match_IDs)
                   (fun x => Z.of_nat
                               (sorter_row match_IDs (argsort match_IDs) x))).
  - rewrite Forall_forall. intros x Hx. now apply filter_In in Hx.
Qed.

End AnyArgsort.

(** C5 (as the code behaves): [np.argsort] is called with the default
    kind, which need not be stable.  With a sort that keeps what numpy
    promises but lists equal identifiers from the last,
    [match_ids([5,7], [7,7,5,5])] is [[3,1]], not the first rows
    [[2,0]]; a stable sort gives the first rows on every input.  An
    unmatched identifier gives -1, or [IOError] when matches are
    required, whatever the sort. *)
Theorem match_ids_not_first_occurrence :
  argsort_contract Z.leb (argsort_ties_reversed Z.leb) /\
  match_ids (argsort_ties_reversed Z.leb) [5; 7]%Z [7; 7; 5; 5]%Z true =
    Ok [3; 1]%Z /\
  map (first_match_row [7; 7; 5; 5]%Z) [5; 7]%Z = [2; 0]%Z /\
  (forall IDs match_IDs,
     match_ids (argsort_stable Z.leb) IDs match_IDs false =
       Ok (map (first_match_row match_IDs) IDs)) /\
  (forall argsort,
     match_ids argsort [9]%Z [7; 5]%Z false = Ok [-1]%Z /\
     match_ids argsort [9]%Z [7; 5]%Z true = Raise IOError).
Proof.
  split; [exact argsort_ties_reversed_Z|]. split; [reflexivity|].
  split; [reflexivity|]. split.
  - intros IDs match_IDs. apply match_ids_stable_first_occurrence.
  - intros argsort. split; reflexivity.
Qed.

End MatchIds.

(** * Properties of catalog_utils.py: summaries and sorting *)

Section TableFacts.

Context {A : Type}.

Lemma getitem_set_same (d : list (string * list A)) (k : string) (v : list A) :
  getitem (set_assoc d k v) k = Ok v.
Proof.
  induction d as [|[k' v'] d IH]; cbn.
  - now rewrite String.eqb_refl.
  - destruct (String.eqb k' k) eqn:E; cbn.
    + now rewrite String.eqb_refl.
    + now rewrite E.
Qed.

Lemma getitem_set_other (d : list (string * list A)) (k k' : string)
    (v : list A) :
  k' <> k -> getitem (set_assoc d k v) k' = getitem d k'.
Proof.
  intros Hne. induction d as [|[k0 v0] d IH]; cbn.
  - destruct (String.eqb_spec k k'); [congruence|reflexivity].
  - destruct (String.eqb_spec k0 k) as [->|Hk]; cbn.
    + destruct (String.eqb_spec k k'); [congruence|].
      destruct (String.eqb_spec k k'); [congruence|reflexivity].
    + destruct (String.eqb_spec k0 k'); [reflexivity|exact IH].
Qed.

Lemma col_setitem_same (t : Table A) (k : string) (v : list A) :
  col (setitem t k v) k = Ok v.
Proof. apply getitem_set_same. Qed.

Lemma col_setitem_other (t : Table A) (k k' : string) (v : list A) :
  k' <> k -> col (setitem t k v) k' = col t k'.
Proof. apply getitem_set_other. Qed.

Lemma inb_In (k : string) (l : list string) : inb k l = true <-> In k l.
Proof.
  unfold inb. rewrite existsb_exists. split.
  - intros [x [Hx E]]. apply String.eqb_eq in E. now subst.
  - intros H. exists k. split; [exact H|apply String.eqb_refl].
Qed.

Lemma getitem_In (d : list (string * list A)) (k : string) (v : list A) :
  getitem d k = Ok v -> In (k, v) d.
Proof.
  induction d as [|[k' v'] d IH]; cbn; [discriminate|].
  destruct (String.eqb_spec k' k) as [->|Hne].
  - intros [= ->]. now left.
  - intros H. right. now apply IH.
Qed.

Lemma col_colnames (t : Table A) (k : string) (v : list A) :
  col t k = Ok v -> inb k (colnames t) = true.
Proof.
  intros H. apply inb_In. apply getitem_In in H.
  unfold colnames. apply in_map_iff. now exists (k, v).
Qed.

Lemma take_ok (a : list A) (idx : list nat) :
  Forall (fun i => i < List.length a) idx -> exists r, take a idx = Ok r.
Proof.
  induction 1 as [|i idx Hi Hidx [r IH]]; cbn; [now eexists|].
  destruct (nth_error a i) as [x|] eqn:E.
  - rewrite IH. cbn. now eexists.
  - apply nth_error_None in E. lia.
Qed.

Lemma take_columns_ok (d : list (string * list A)) (idx : list nat) (n : nat) :
  Forall (fun kv => List.length (snd kv) = n) d ->
  Forall (fun i => i < n) idx ->
  exists r, take_columns d idx = Ok r.
Proof.
  intros Hd Hidx. induction Hd as [|[k v] d Hv Hd [r IH]]; cbn.
  - now eexists.
  - cbn in Hv. subst n. destruct (take_ok v idx Hidx) as [v' ->]. cbn.
    rewrite IH. cbn. now eexists.
Qed.

Lemma set_assoc_rectangular (d : list (string * list A)) (k : string)
    (v : list A) (n : nat) :
  Forall (fun kv => List.length (snd kv) = n) d ->
  List.length v = n ->
  Forall (fun kv => List.length (snd kv) = n) (set_assoc d k v).
Proof.
  intros Hd Hv. induction Hd as [|[k' v'] d Hv' Hd IH]; cbn.
  - now repeat constructor.
  - destruct (String.eqb k' k); constructor; assumption.
Qed.

Lemma rectangular_col (t : Table A) (n : nat) (k : string) (v : list A) :
  rectangular t n -> col t k = Ok v -> List.length v = n.
Proof.
  intros Hr Hc. apply getitem_In in Hc. unfold rectangular in Hr.
  rewrite Forall_forall in Hr. apply (Hr _ Hc).
Qed.

End TableFacts.

Section HeapFacts.

Import CatalogUtils.

Lemma update_length (h : Heap) (r : nat) (t : Table Q) :
  List.length (update h r t) = List.length h.
Proof.
  revert r. induction h as [|t0 h IH]; intros [|r]; cbn; auto.
Qed.

Lemma deref_update_same (h : Heap) (r : nat) (t : Table Q) :
  r < List.length h -> deref (update h r t) r = Ok t.
Proof.
  revert r. induction h as [|t0 h IH]; intros [|r] Hr; cbn in *; try lia.
  - reflexivity.
  - apply IH. lia.
Qed.

Lemma deref_update_other (h : Heap) (r r' : nat) (t : Table Q) :
  r' <> r -> deref (update h r t) r' = deref h r'.
Proof.
  revert r r'. induction h as [|t0 h IH]; intros [|r] [|r'] Hne;
    cbn in *; try reflexivity; try lia.
  apply IH. lia.
Qed.

Lemma deref_lt (h : Heap) (r : nat) (t : Table Q) :
  deref h r = Ok t -> r < List.length h.
Proof.
  unfold deref, item. destruct (nth_error h r) eqn:E; [|discriminate].
  intros _. apply nth_error_Some. congruence.
Qed.

Lemma deref_app_old (h : Heap) (r : nat) (t : Table Q) :
  r < List.length h -> deref (h ++ [t]) r = deref h r.
Proof. intros Hr. unfold deref, item. now rewrite nth_error_app1. Qed.

Lemma deref_app_new (h : Heap) (t : Table Q) :
  deref (h ++ [t]) (List.length h) = Ok t.
Proof.
  unfold deref, item. rewrite nth_error_app2 by lia.
  now rewrite Nat.sub_diag.
Qed.

End HeapFacts.

Section CatalogFacts.

Import CatalogUtils Doubles.
Local Open Scope string_scope.
Local Open Scope list_scope.

(** C1 (as the code behaves): on a catalogue whose nearest source is not
    its brightest, the closest-source message carries the nearest
    separation but the brightest source's magnitude. *)
Theorem summarize_catalog_closest_line :
  summarize_catalog sep_equator (0, 0)%Q cat_two (5 # 3600)%Q "r" true =
    Ok [CountLine "DES" 2 (18000 # 3600)%Q;
        BrightestLine "DES" "r" 18%Q;
        ClosestLine "DES" (3600 # 3600)%Q "r" 18%Q] /\
  (closest <- argmin (map (sep_equator (0, 0)%Q) [(1 # 3600, 0); (2 # 3600, 0)]%Q) ;;
   phot <- col cat_two "r" ;;
   item phot closest) = Ok 20%Q.
Proof. split; reflexivity. Qed.

Variable separation : SkyCoord -> SkyCoord -> Q.

(** Any sort that keeps what numpy promises of [np.argsort]. *)
Variable argsort : list Q -> list nat.
Hypothesis Hargsort : argsort_contract Qle_bool argsort.

(** C9: with [add_sep = True] the caller's table object itself receives
    the column [separation] (arc-minutes) and keeps every other column as
    it was, rows in the same order; the sorted table is a new object. *)
Theorem sort_by_separation_adds_column (h : Heap) (catalog n : nat)
    (t : Table Q) (coord : SkyCoord) (radec : string * string)
    (ra dec : list Q) :
  deref h catalog = Ok t ->
  rectangular t n ->
  col t (fst radec) = Ok ra ->
  col t (snd radec) = Ok dec ->
  let seps := map (separation coord) (combine ra dec) in
  let t' := setitem t "separation" (map (fun s => s * 60)%Q seps) in
  exists srt,
    sort_by_separation separation argsort catalog coord radec true h =
      (Ok (List.length h), update h catalog t' ++ [srt]) /\
    take_rows t' (argsort seps) = Ok srt /\
    deref (update h catalog t' ++ [srt]) catalog = Ok t' /\
    deref (update h catalog t' ++ [srt]) (List.length h) = Ok srt /\
    List.length h <> catalog /\
    col t' "separation" = Ok (map (fun s => s * 60)%Q seps) /\
    (forall k, k <> "separation" -> col t' k = col t k) /\
    (forall r, r <> catalog -> r < List.length h ->
               deref (update h catalog t' ++ [srt]) r = deref h r).
Proof.
  intros Hd Hrect Hra Hdec seps t'.
  pose proof (deref_lt _ _ _ Hd) as Hlt.
  assert (Hn : List.length seps = n).
  { unfold seps. rewrite length_map. unfold SkyCoord. rewrite length_combine.
    rewrite (rectangular_col _ _ _ _ Hrect Hra).
    rewrite (rectangular_col _ _ _ _ Hrect Hdec). lia. }
  assert (Hrect' : rectangular t' n).
  { apply set_assoc_rectangular; [exact Hrect|]. now rewrite length_map. }
  destruct (take_columns_ok (columns t') (argsort seps) n Hrect')
    as [c Hc].
  { rewrite <- Hn. apply argsort_range, Hargsort. }
  exists (mkTable c (meta t')).
  assert (Htake : take_rows t' (argsort seps) =
                  Ok (mkTable c (meta t'))).
  { unfold take_rows. rewrite Hc. reflexivity. }
  repeat split.
  - unfold sort_by_separation. rewrite Hd.
    rewrite (col_colnames _ _ _ Hra), (col_colnames _ _ _ Hdec).
    cbn [negb]. rewrite Hra, Hdec.
    rewrite deref_update_same by exact Hlt. cbn [bind].
    fold seps. fold t'. rewrite Htake. unfold alloc.
    rewrite update_length. reflexivity.
  - exact Htake.
  - rewrite deref_app_old by (rewrite update_length; exact Hlt).
    now apply deref_update_same.
  - rewrite <- (update_length h catalog t'). apply deref_app_new.
  - lia.
  - apply col_setitem_same.
  - intros k Hk. now apply col_setitem_other.
  - intros r Hr Hrl.
    rewrite deref_app_old by (rewrite update_length; exact Hrl).
    now apply deref_update_other.
Qed.

End CatalogFacts.

Section CatalogWitnesses.

Import CatalogUtils Doubles.
Local Open Scope string_scope.
Local Open Scope list_scope.

(** Sorting [cat_three]: the stored table gains the column and keeps its
    rows, the returned one is reversed. *)
Lemma sort_by_separation_adds_column_witness :
  exists srt,
    sort_by_separation sep_equator (argsort_stable Qle_bool) 0 (0, 0)%Q
      ("ra", "dec") true [cat_three] =
      (Ok 1,
       [setitem cat_three "separation" [3 * 60; 2 * 60; 1 * 60]%Q; srt]) /\
    col srt "r" = Ok [23; 22; 21]%Q /\
    col (setitem cat_three "separation" [3 * 60; 2 * 60; 1 * 60]%Q) "r" =
      Ok [21; 22; 23]%Q.
Proof.
  destruct (sort_by_separation_adds_column sep_equator
              (argsort_stable Qle_bool) argsort_stable_Q [cat_three] 0 3
              cat_three (0, 0)%Q ("ra", "dec") [3; 2; 1]%Q [0; 0; 0]%Q
              eq_refl)
    as [srt [Hrun [Htake [_ [_ [_ [_ [Hkeep _]]]]]]]];
    try reflexivity.
  - repeat constructor.
  - exists srt. split; [exact Hrun|]. split.
    + cbv in Htake. injection Htake as <-. reflexivity.
    + rewrite Hkeep; [reflexivity|discriminate].
Defined.

End CatalogWitnesses.

(** * Properties of catalog_utils.py: magnitudes to fluxes *)

Section MaskFacts.

Import CatalogUtils.
Local Open Scope R_scope.

Lemma combine_mask_select {A B : Type} (a : list A) (b : list B)
    (mask : list bool) :
  combine (mask_select a mask) (mask_select b mask) =
  mask_select (combine a b) mask.
Proof.
  revert b mask. induction a as [|x a IH]; intros b mask; [reflexivity|].
  destruct b as [|y b].
  - change (mask_select [] mask) with (@nil B). now rewrite combine_nil.
  - destruct mask as [|[|] mask]; cbn; [reflexivity| |]; now rewrite IH.
Qed.

(** The two masked assignments of a loop body, row by row. *)
Lemma mask_fill_assign {B : Type} (c : R) (f : B -> R) (m : list R)
    (pm : list B) :
  List.length m = List.length pm ->
  mask_assign (mask_fill m (lt0 m) c) (map negb (lt0 m))
    (map f (mask_select pm (map negb (lt0 m)))) =
  map (fun co => if Rlt_dec (fst co) 0 then c else f (snd co)) (combine m pm).
Proof.
  revert pm. induction m as [|x m IH]; intros [|y pm] Hlen; cbn in *;
    try reflexivity; try discriminate.
  destruct (Rlt_dec x 0); cbn; f_equal; apply IH; lia.
Qed.

End MaskFacts.

Section RenameFacts.

Context {A : Type}.

Lemma getitem_rename_other (d : list (string * list A))
    (name new_name k : string) :
  k <> name -> k <> new_name ->
  getitem (map (rename_key name new_name) d) k = getitem d k.
Proof.
  intros H1 H2. induction d as [|[k0 v0] d IH]; cbn; [reflexivity|].
  unfold rename_key at 1. cbn.
  destruct (String.eqb_spec k0 name) as [->|Hne]; cbn.
  - destruct (String.eqb_spec new_name k); [congruence|].
    destruct (String.eqb_spec name k); [congruence|exact IH].
  - destruct (String.eqb_spec k0 k); [reflexivity|exact IH].
Qed.

Lemma getitem_rename_new (d : list (string * list A))
    (name new_name : string) :
  ~ In new_name (map fst d) ->
  getitem (map (rename_key name new_name) d) new_name = getitem d name.
Proof.
  induction d as [|[k0 v0] d IH]; cbn; intros Hnew; [reflexivity|].
  unfold rename_key at 1. cbn.
  destruct (String.eqb_spec k0 name) as [->|Hne]; cbn.
  - now rewrite String.eqb_refl.
  - destruct (String.eqb_spec k0 new_name) as [->|Hne'].
    + exfalso. apply Hnew. now left.
    + apply IH. intros Hin. apply Hnew. now right.
Qed.

Lemma rename_column_inv (t t' : Table A) (name new_name : string) :
  rename_column t name new_name = Ok t' ->
  In name (colnames t) /\
  (name = new_name /\ t' = t \/
   name <> new_name /\ ~ In new_name (colnames t) /\
   t' = mkTable (map (rename_key name new_name) (columns t)) (meta t)).
Proof.
  unfold rename_column. destruct (inb name (colnames t)) eqn:E1; cbn [negb];
    [|discriminate].
  apply inb_In in E1. intros H. split; [exact E1|]. revert H.
  destruct (String.eqb_spec name new_name) as [->|Hne].
  - intros [= <-]. now left.
  - destruct (inb new_name (colnames t)) eqn:E2; [discriminate|].
    intros [= <-]. right. split; [exact Hne|]. split; [|reflexivity].
    intros Hin. apply inb_In in Hin. congruence.
Qed.

Lemma rename_column_frame (t t' : Table A) (name new_name k : string)
    (c : list A) :
  rename_column t name new_name = Ok t' ->
  k <> name -> col t k = Ok c -> col t' k = Ok c.
Proof.
  intros Hr Hk Hc. apply rename_column_inv in Hr as [_ [[_ ->]|[_ [Hnew ->]]]];
    [exact Hc|].
  unfold col. cbn. rewrite getitem_rename_other; [exact Hc|exact Hk|].
  intros ->. apply Hnew. apply inb_In. eapply col_colnames. exact Hc.
Qed.

Lemma rename_column_new (t t' : Table A) (name new_name : string)
    (c : list A) :
  rename_column t name new_name = Ok t' ->
  col t name = Ok c -> col t' new_name = Ok c.
Proof.
  intros Hr Hc. apply rename_column_inv in Hr as [_ [[<- ->]|[_ [Hnew ->]]]];
    [exact Hc|].
  unfold col. cbn. now rewrite getitem_rename_new.
Qed.

Lemma rename_column_rectangular (t t' : Table A) (name new_name : string)
    (n : nat) :
  rename_column t name new_name = Ok t' ->
  rectangular t n -> rectangular t' n.
Proof.
  intros Hr Hrect. apply rename_column_inv in Hr as [_ [[_ ->]|[_ [_ ->]]]];
    [exact Hrect|].
  unfold rectangular in *. cbn. rewrite Forall_map.
  eapply Forall_impl; [|exact Hrect]. intros [k v]. unfold rename_key. cbn.
  now destruct (String.eqb k name).
Qed.

Lemma set_assoc_twice (d : list (string * list A)) (k : string)
    (v v' : list A) :
  set_assoc (set_assoc d k v) k v' = set_assoc d k v'.
Proof.
  induction d as [|[k0 v0] d IH]; cbn.
  - now rewrite String.eqb_refl.
  - destruct (String.eqb k0 k) eqn:E; cbn.
    + now rewrite String.eqb_refl.
    + rewrite E. now rewrite IH.
Qed.

Lemma setitem_twice (t : Table A) (k : string) (v v' : list A) :
  setitem (setitem t k v) k v' = setitem t k v'.
Proof. unfold setitem. cbn. now rewrite set_assoc_twice. Qed.

Lemma setitem_rectangular (t : Table A) (k : string) (v : list A) (n : nat) :
  rectangular t n -> List.length v = n -> rectangular (setitem t k v) n.
Proof. apply set_assoc_rectangular. Qed.

End RenameFacts.

Section ColnamesFacts.

Context {A : Type}.

Lemma col_of_colnames (t : Table A) (k : string) :
  In k (colnames t) -> exists c, col t k = Ok c.
Proof.
  unfold col, colnames.
  induction (columns t) as [|[k0 v0] d IH]; cbn; [contradiction|].
  destruct (String.eqb_spec k0 k) as [->|Hne]; [now eexists|].
  intros [H|H]; [contradiction|now apply IH].
Qed.

Lemma colnames_set_assoc (d : list (string * list A)) (k : string)
    (v : list A) :
  In k (map fst d) -> map fst (set_assoc d k v) = map fst d.
Proof.
  induction d as [|[k0 v0] d IH]; cbn; [contradiction|].
  destruct (String.eqb_spec k0 k) as [->|Hne]; cbn; [reflexivity|].
  intros [H|H]; [contradiction|]. now rewrite IH.
Qed.

Lemma colnames_setitem (t : Table A) (k : string) (v : list A) :
  In k (colnames t) -> colnames (setitem t k v) = colnames t.
Proof. apply colnames_set_assoc. Qed.

Lemma rename_column_ok (t : Table A) (name new_name : string) :
  In name (colnames t) -> ~ In new_name (colnames t) ->
  rename_column t name new_name =
    Ok (mkTable (map (rename_key name new_name) (columns t)) (meta t)).
Proof.
  intros Hin Hnew. unfold rename_column.
  destruct (inb name (colnames t)) eqn:E1.
  - cbn [negb]. destruct (String.eqb_spec name new_name) as [->|Hne];
      [contradiction|].
    destruct (inb new_name (colnames t)) eqn:E2; [|reflexivity].
    apply inb_In in E2. contradiction.
  - apply inb_In in Hin. congruence.
Qed.

Lemma In_colnames_rename (d : list (string * list A))
    (name new_name k : string) :
  In k (map fst (map (rename_key name new_name) d)) <->
  (k = new_name /\ In name (map fst d)) \/ (k <> name /\ In k (map fst d)).
Proof.
  induction d as [|[k0 v0] d IH]; cbn; [tauto|].
  unfold rename_key at 1. cbn.
  destruct (String.eqb_spec k0 name) as [->|Hne]; cbn; rewrite IH.
  - split.
    + intros [<-|[[-> H]|[H1 H2]]]; auto.
    + intros [[-> _]|[H1 [H2|H2]]]; auto. congruence.
  - split.
    + intros [<-|[[-> H]|[H1 H2]]]; auto.
    + intros [[-> [H|H]]|[H1 [H2|H2]]]; auto. congruence.
Qed.

End ColnamesFacts.

Section BandFacts.

Import CatalogUtils.
Local Open Scope R_scope.

Variables (photometry_table : Table R) (convert : R) (n : nat).
Hypothesis Hpt : rectangular photometry_table n.

Lemma band_flux_length (fnu0 : R) (m pm : list R) :
  List.length m = n -> List.length pm = n ->
  List.length (band_flux fnu0 convert m pm) = n.
Proof.
  intros Hm Hpm. unfold band_flux. rewrite length_map, length_combine. lia.
Qed.

Lemma band_err_length (flux e pe : list R) :
  List.length flux = n -> List.length e = n -> List.length pe = n ->
  List.length (band_err flux e pe) = n.
Proof.
  intros Hf He Hpe. unfold band_err.
  rewrite length_map, !length_combine. lia.
Qed.

(** One pass of a loop body over a band whose four columns are known. *)
Lemma convert_band_run (wise : bool) (fluxtable : Table R)
    (mag err : string) (fnu0 : R) (m pm e pe : list R) :
  rectangular fluxtable n ->
  mag <> err ->
  col fluxtable mag = Ok m ->
  col photometry_table mag = Ok pm ->
  col fluxtable err = Ok e ->
  col photometry_table err = Ok pe ->
  convert_band photometry_table convert wise fluxtable (mag, (err, fnu0)) =
    (let flux := band_flux fnu0 convert m pm in
     let ft := setitem (setitem fluxtable mag flux) err (band_err flux e pe) in
     if wise && negb (contains "WISE" mag) then
       ft' <- rename_column ft mag (replace "W" "WISE" mag) ;;
       rename_column ft' err (replace "W" "WISE" err)
     else Ok ft).
Proof.
  intros Hft Hne Hm Hpm He Hpe.
  pose proof (rectangular_col _ _ _ _ Hft Hm) as Lm.
  pose proof (rectangular_col _ _ _ _ Hpt Hpm) as Lpm.
  pose proof (rectangular_col _ _ _ _ Hft He) as Le.
  pose proof (rectangular_col _ _ _ _ Hpt Hpe) as Lpe.
  unfold convert_band. rewrite Hm. cbn [bind]. rewrite Hpm. cbn [bind].
  rewrite col_setitem_same. cbn [bind]. rewrite setitem_twice.
  rewrite (mask_fill_assign _ _ m pm) by lia.
  fold (band_flux fnu0 convert m pm).
  set (flux := band_flux fnu0 convert m pm).
  assert (Lf : List.length flux = n) by now apply band_flux_length.
  rewrite col_setitem_other by congruence. rewrite He. cbn [bind].
  rewrite col_setitem_other by congruence. rewrite col_setitem_same.
  cbn [bind]. rewrite Hpe. cbn [bind]. rewrite col_setitem_same. cbn [bind].
  rewrite setitem_twice. rewrite combine_mask_select.
  rewrite (mask_fill_assign _ _ e (combine flux pe))
    by (rewrite length_combine; lia).
  reflexivity.
Qed.

End BandFacts.

Ltac bind_inv H :=
  match type of H with
  | bind ?m _ = Ok _ =>
      let E := fresh "E" in
      destruct m eqn:E; cbn [bind] in H; [|discriminate H]
  end.

Tactic Notation "bind_inv_as" hyp(H) ident(x) ident(E) :=
  match type of H with
  | bind ?m _ = Ok _ =>
      destruct m as [x|] eqn:E; cbn [bind] in H; [|discriminate H]
  end.

Section MaskLengths.

Context {A : Type}.

Lemma mask_fill_length (a : list A) (mask : list bool) (v : A) :
  List.length (mask_fill a mask v) = List.length a.
Proof.
  revert mask. induction a as [|x a IH]; intros [|b mask]; cbn; auto.
Qed.

Lemma mask_assign_length (a : list A) (mask : list bool) (vals : list A) :
  List.length (mask_assign a mask vals) = List.length a.
Proof.
  revert mask vals. induction a as [|x a IH]; intros [|[|] mask] vals; cbn;
    auto.
  destruct vals; cbn; auto.
Qed.

End MaskLengths.

Section BandFrame.

Import CatalogUtils.
Local Open Scope R_scope.

Variables (photometry_table : Table R) (convert : R).

(** A pass over one band leaves every other column as it was. *)
Lemma convert_band_frame (wise : bool) (fluxtable ft' : Table R)
    (mag err : string) (fnu0 : R) (k : string) (c : list R) :
  convert_band photometry_table convert wise fluxtable (mag, (err, fnu0))
    = Ok ft' ->
  k <> mag -> k <> err ->
  col fluxtable k = Ok c -> col ft' k = Ok c.
Proof.
  intros H Hm He Hc. unfold convert_band in H. repeat bind_inv H.
  match type of H with
  | (if _ then _ else Ok ?t) = _ =>
      assert (Hk : col t k = Ok c)
        by (rewrite !col_setitem_other by assumption; exact Hc)
  end.
  destruct (wise && negb (contains "WISE" mag)).
  - bind_inv H.
    eapply rename_column_frame; [exact H|exact He|].
    eapply rename_column_frame; [eassumption|exact Hm|exact Hk].
  - now injection H as <-.
Qed.

Lemma convert_band_rectangular (wise : bool) (fluxtable ft' : Table R)
    (band : string * (string * R)) (n : nat) :
  convert_band photometry_table convert wise fluxtable band = Ok ft' ->
  rectangular fluxtable n -> rectangular ft' n.
Proof.
  destruct band as [mag [err fnu0]].
  intros H Hr. unfold convert_band in H. repeat bind_inv H.
  match type of H with
  | (if _ then _ else Ok ?t) = _ => assert (Hk : rectangular t n)
  end.
  { repeat match goal with
           | |- rectangular (setitem _ _ _) n => apply setitem_rectangular
           | |- List.length (mask_fill _ _ _) = _ => rewrite mask_fill_length
           | |- List.length (mask_assign _ _ _) = _ =>
               rewrite mask_assign_length
           | Hc : col ?t ?k = Ok ?a |- List.length ?a = n =>
               apply (rectangular_col t n k a); [|exact Hc]
           | |- rectangular fluxtable n => exact Hr
           end. }
  destruct (wise && negb (contains "WISE" mag)).
  - bind_inv H.
    eapply rename_column_rectangular; [exact H|].
    eapply rename_column_rectangular; [eassumption|exact Hk].
  - now injection H as <-.
Qed.

Lemma foldM_frame (wise : bool) (bands : list (string * (string * R)))
    (fluxtable ft' : Table R) (k : string) (c : list R) :
  foldM (convert_band photometry_table convert wise) fluxtable bands = Ok ft' ->
  Forall (fun b => k <> fst b /\ k <> fst (snd b)) bands ->
  col fluxtable k = Ok c -> col ft' k = Ok c.
Proof.
  revert fluxtable. induction bands as [|[mag [err fnu0]] bands IH];
    intros fluxtable H Hk Hc; cbn [foldM] in H.
  - now injection H as <-.
  - bind_inv H. inversion Hk as [|? ? [H1 H2] Hk']; subst. cbn in H1, H2.
    eapply IH; [exact H|exact Hk'|].
    eapply convert_band_frame; eassumption.
Qed.

Lemma foldM_rectangular (wise : bool) (bands : list (string * (string * R)))
    (fluxtable ft' : Table R) (n : nat) :
  foldM (convert_band photometry_table convert wise) fluxtable bands = Ok ft' ->
  rectangular fluxtable n -> rectangular ft' n.
Proof.
  revert fluxtable. induction bands as [|band bands IH];
    intros fluxtable H Hr; cbn [foldM] in H.
  - now injection H as <-.
  - bind_inv H. eapply IH; [exact H|].
    eapply convert_band_rectangular; eassumption.
Qed.

Lemma foldM_app {S X : Type} (f : S -> X -> result S) (s : S)
    (l1 l2 : list X) :
  foldM f s (l1 ++ l2) = (s' <- foldM f s l1 ;; foldM f s' l2).
Proof.
  revert s. induction l1 as [|x l1 IH]; intros s; cbn; [reflexivity|].
  destruct (f s x); cbn; [apply IH|reflexivity].
Qed.

End BandFrame.

Section BandLists.

Import CatalogUtils.
Local Open Scope R_scope.

Lemma in_bands (l1 l2 : list string) (l3 : list R) (b : string * (string * R)) :
  In b (combine l1 (combine l2 l3)) ->
  In (band_mag b) l1 /\ In (band_err_name b) l2.
Proof.
  destruct b as [a [e z]]. intros H. split.
  - eapply in_combine_l. exact H.
  - apply in_combine_r in H. eapply in_combine_l. exact H.
Qed.

Lemma NoDup_combine_fst {A B : Type} (l1 : list A) (l2 : list B) :
  NoDup l1 -> NoDup (map fst (combine l1 l2)).
Proof.
  revert l2. induction l1 as [|x l1 IH]; intros l2 Hnd; cbn; [constructor|].
  destruct l2 as [|y l2]; cbn; [constructor|].
  inversion Hnd as [|? ? Hx Hnd']; subst. constructor; [|now apply IH].
  intros Hin. apply Hx. apply in_map_iff in Hin as [[a b] [<- Hab]].
  eapply in_combine_l. exact Hab.
Qed.

Lemma NoDup_combine_snd {A B : Type} (l1 : list A) (l2 : list B) :
  NoDup l2 -> NoDup (map snd (combine l1 l2)).
Proof.
  revert l2. induction l1 as [|x l1 IH]; intros l2 Hnd; cbn; [constructor|].
  destruct l2 as [|y l2]; cbn; [constructor|].
  inversion Hnd as [|? ? Hy Hnd']; subst. constructor; [|now apply IH].
  intros Hin. apply Hy. apply in_map_iff in Hin as [[a b] [<- Hab]].
  eapply in_combine_r. exact Hab.
Qed.

Lemma NoDup_band_mag (l1 l2 : list string) (l3 : list R) :
  NoDup l1 -> NoDup (map band_mag (combine l1 (combine l2 l3))).
Proof. apply NoDup_combine_fst. Qed.

Lemma NoDup_band_err (l1 l2 : list string) (l3 : list R) :
  NoDup l2 -> NoDup (map band_err_name (combine l1 (combine l2 l3))).
Proof.
  revert l2 l3. induction l1 as [|x l1 IH]; intros l2 l3 Hnd; cbn;
    [constructor|].
  destruct l2 as [|y l2]; cbn; [constructor|].
  destruct l3 as [|z l3]; cbn; [constructor|].
  inversion Hnd as [|? ? Hy Hnd']; subst. constructor; [|now apply IH].
  intros Hin. apply Hy. apply in_map_iff in Hin as [[a [e w]] [<- Hq]].
  apply in_combine_r in Hq. eapply in_combine_l. exact Hq.
Qed.

(** A band of a loop splits the loop in the passes before and after it,
    none of which names its columns again. *)
Lemma band_split (bands : list (string * (string * R)))
    (b : string * (string * R)) :
  In b bands ->
  NoDup (map band_mag bands) ->
  NoDup (map band_err_name bands) ->
  exists pre post,
    bands = pre ++ b :: post /\
    Forall (fun b' => band_mag b' <> band_mag b /\
                      band_err_name b' <> band_err_name b) (pre ++ post).
Proof.
  intros Hin Hm He. apply in_split in Hin as [pre [post ->]].
  exists pre, post. split; [reflexivity|].
  rewrite map_app in Hm, He. cbn in Hm, He.
  apply NoDup_remove_2 in Hm. apply NoDup_remove_2 in He.
  rewrite <- map_app in Hm, He.
  rewrite Forall_forall. intros b' Hb'. split; intros Heq.
  - apply Hm. rewrite <- Heq. now apply in_map.
  - apply He. rewrite <- Heq. now apply in_map.
Qed.

End BandLists.

Section BandAt.

Import CatalogUtils.
Local Open Scope R_scope.

Variables (photometry_table : Table R) (convert : R) (n : nat).
Hypothesis Hpt : rectangular photometry_table n.

(** The columns a single pass leaves for its own band. *)
Lemma convert_band_own (wise : bool) (fluxtable ft' : Table R)
    (mag err : string) (fnu0 : R) (m pm e pe : list R) :
  rectangular fluxtable n ->
  mag <> err ->
  col fluxtable mag = Ok m ->
  col photometry_table mag = Ok pm ->
  col fluxtable err = Ok e ->
  col photometry_table err = Ok pe ->
  convert_band photometry_table convert wise fluxtable (mag, (err, fnu0))
    = Ok ft' ->
  col ft' (wise_name wise mag mag) = Ok (band_flux fnu0 convert m pm) /\
  col ft' (wise_name wise mag err) =
    Ok (band_err (band_flux fnu0 convert m pm) e pe).
Proof.
  intros Hft Hne Hm Hpm He Hpe Hrun.
  rewrite (convert_band_run photometry_table convert n Hpt wise fluxtable
             mag err fnu0 m pm e pe Hft Hne Hm Hpm He Hpe) in Hrun.
  cbv zeta in Hrun. unfold wise_name.
  set (flux := band_flux fnu0 convert m pm) in *.
  set (ft := setitem (setitem fluxtable mag flux) err (band_err flux e pe))
    in *.
  assert (Cm : col ft mag = Ok flux).
  { unfold ft. rewrite col_setitem_other by exact Hne.
    apply col_setitem_same. }
  assert (Ce : col ft err = Ok (band_err flux e pe))
    by apply col_setitem_same.
  destruct (wise && negb (contains "WISE" mag)).
  - bind_inv_as Hrun t E.
    pose proof (rename_column_new _ _ _ _ _ E Cm) as Cm1.
    assert (Ce1 : col t err = Ok (band_err flux e pe))
      by (eapply rename_column_frame; [exact E| congruence |exact Ce]).
    split.
    + eapply rename_column_frame; [exact Hrun| |exact Cm1].
      apply rename_column_inv in E as [_ [[<- _]|[_ [Hnew _]]]];
        [exact Hne|].
      intros Heq. apply Hnew. rewrite Heq. apply inb_In.
      eapply col_colnames. exact Ce.
    + eapply rename_column_new; [exact Hrun|exact Ce1].
  - injection Hrun as <-. now split.
Qed.

(** The band at a given place of a loop: what the loop leaves for it,
    when the later passes of that loop do not touch its columns. *)
Lemma foldM_band_at (wise : bool) (pre post : list (string * (string * R)))
    (fluxtable ft' : Table R) (mag err : string) (fnu0 : R)
    (m pm e pe : list R) :
  rectangular fluxtable n ->
  mag <> err ->
  Forall (fun b => apart mag b /\ apart err b) pre ->
  col fluxtable mag = Ok m ->
  col photometry_table mag = Ok pm ->
  col fluxtable err = Ok e ->
  col photometry_table err = Ok pe ->
  foldM (convert_band photometry_table convert wise) fluxtable
    (pre ++ (mag, (err, fnu0)) :: post) = Ok ft' ->
  (Forall (apart (wise_name wise mag mag)) post ->
   col ft' (wise_name wise mag mag) = Ok (band_flux fnu0 convert m pm)) /\
  (Forall (apart (wise_name wise mag err)) post ->
   col ft' (wise_name wise mag err) =
     Ok (band_err (band_flux fnu0 convert m pm) e pe)).
Proof.
  intros Hft Hne Hpre Hm Hpm He Hpe Hrun.
  rewrite foldM_app in Hrun. bind_inv_as Hrun t E. cbn [foldM] in Hrun.
  bind_inv_as Hrun t0 E0.
  assert (Hm1 : col t mag = Ok m).
  { eapply foldM_frame; [exact E| |exact Hm].
    eapply Forall_impl; [|exact Hpre]. intros b [H _]. exact H. }
  assert (He1 : col t err = Ok e).
  { eapply foldM_frame; [exact E| |exact He].
    eapply Forall_impl; [|exact Hpre]. intros b [_ H]. exact H. }
  assert (Hr1 : rectangular t n) by (eapply foldM_rectangular; eassumption).
  destruct (convert_band_own wise t t0 mag err fnu0 m pm e pe
              Hr1 Hne Hm1 Hpm He1 Hpe E0) as [Om Oe].
  split; intros Hpost.
  - eapply foldM_frame; [exact Hrun|exact Hpost|exact Om].
  - eapply foldM_frame; [exact Hrun|exact Hpost|exact Oe].
Qed.

(** The same for a band found anywhere in a loop whose bands name each
    column once. *)
Lemma loop_band (wise : bool) (bands : list (string * (string * R)))
    (fluxtable ft' : Table R) (mag err : string) (fnu0 : R)
    (m pm e pe : list R) :
  rectangular fluxtable n ->
  In (mag, (err, fnu0)) bands ->
  NoDup (map band_mag bands) ->
  NoDup (map band_err_name bands) ->
  (forall b, In b bands -> band_mag b <> err /\ band_err_name b <> mag) ->
  col fluxtable mag = Ok m ->
  col photometry_table mag = Ok pm ->
  col fluxtable err = Ok e ->
  col photometry_table err = Ok pe ->
  foldM (convert_band photometry_table convert wise) fluxtable bands
    = Ok ft' ->
  ((forall b, In b bands -> band_mag b <> mag -> band_err_name b <> err ->
              apart (wise_name wise mag mag) b) ->
   col ft' (wise_name wise mag mag) = Ok (band_flux fnu0 convert m pm)) /\
  ((forall b, In b bands -> band_mag b <> mag -> band_err_name b <> err ->
              apart (wise_name wise mag err) b) ->
   col ft' (wise_name wise mag err) =
     Ok (band_err (band_flux fnu0 convert m pm) e pe)).
Proof.
  intros Hft Hin Hnm Hne Hcross Hm Hpm He Hpe Hrun.
  destruct (band_split bands (mag, (err, fnu0)) Hin Hnm Hne)
    as [pre [post [-> Hothers]]].
  assert (Hme : mag <> err).
  { intros Heq. destruct (Hcross _ Hin) as [H _]. cbn in H. congruence. }
  rewrite Forall_forall in Hothers. cbn in Hothers.
  assert (Hpre : Forall (fun b => apart mag b /\ apart err b) pre).
  { rewrite Forall_forall. intros b Hb.
    assert (Hb' : In b (pre ++ (mag, (err, fnu0)) :: post))
      by (apply in_or_app; now left).
    destruct (Hothers b) as [H1 H2]; [apply in_or_app; now left|].
    destruct (Hcross b Hb') as [H3 H4].
    unfold apart, band_mag, band_err_name in *. repeat split; congruence. }
  destruct (foldM_band_at wise pre post fluxtable ft' mag err fnu0 m pm e pe
              Hft Hme Hpre Hm Hpm He Hpe Hrun) as [Rm Re].
  split; intros Hout; [apply Rm|apply Re]; rewrite Forall_forall;
    intros b Hb;
    (apply Hout;
     [apply in_or_app; right; now right
     |apply (Hothers b); apply in_or_app; now right
     |apply (Hothers b); apply in_or_app; now right]).
Qed.

End BandAt.


Section BandOk.

Import CatalogUtils.
Local Open Scope R_scope.
Local Open Scope string_scope.

Variables (photometry_table : Table R) (convert : R) (n : nat).
Hypothesis Hpt : rectangular photometry_table n.

(** A pass of a loop without renaming returns, and keeps the names. *)
Lemma convert_band_plain_ok (fluxtable : Table R) (mag err : string)
    (fnu0 : R) :
  rectangular fluxtable n ->
  mag <> err ->
  In mag (colnames fluxtable) -> In err (colnames fluxtable) ->
  In mag (colnames photometry_table) -> In err (colnames photometry_table) ->
  exists ft',
    convert_band photometry_table convert false fluxtable (mag, (err, fnu0))
      = Ok ft' /\
    colnames ft' = colnames fluxtable.
Proof.
  intros Hft Hne Hm He Hpm Hpe.
  destruct (col_of_colnames _ _ Hm) as [m Cm].
  destruct (col_of_colnames _ _ He) as [e Ce].
  destruct (col_of_colnames _ _ Hpm) as [pm Cpm].
  destruct (col_of_colnames _ _ Hpe) as [pe Cpe].
  rewrite (convert_band_run photometry_table convert n Hpt false fluxtable
             mag err fnu0 m pm e pe Hft Hne Cm Cpm Ce Cpe).
  cbn [andb]. eexists. split; [reflexivity|].
  rewrite colnames_setitem; rewrite colnames_setitem; auto.
Qed.

(** A pass of the first loop returns when the names it gives are new. *)
Lemma convert_band_wise_ok (fluxtable : Table R) (mag err : string)
    (fnu0 : R) :
  rectangular fluxtable n ->
  mag <> err ->
  In mag (colnames fluxtable) -> In err (colnames fluxtable) ->
  In mag (colnames photometry_table) -> In err (colnames photometry_table) ->
  (contains "WISE" mag = false ->
   ~ In (replace "W" "WISE" mag) (colnames fluxtable) /\
   ~ In (replace "W" "WISE" err) (colnames fluxtable) /\
   replace "W" "WISE" mag <> replace "W" "WISE" err) ->
  exists ft',
    convert_band photometry_table convert true fluxtable (mag, (err, fnu0))
      = Ok ft' /\
    forall k, In k (colnames ft') ->
      In k (colnames fluxtable) \/
      (contains "WISE" mag = false /\
       (k = replace "W" "WISE" mag \/ k = replace "W" "WISE" err)).
Proof.
  intros Hft Hne Hm He Hpm Hpe Hnew.
  destruct (col_of_colnames _ _ Hm) as [m Cm].
  destruct (col_of_colnames _ _ He) as [e Ce].
  destruct (col_of_colnames _ _ Hpm) as [pm Cpm].
  destruct (col_of_colnames _ _ Hpe) as [pe Cpe].
  rewrite (convert_band_run photometry_table convert n Hpt true fluxtable
             mag err fnu0 m pm e pe Hft Hne Cm Cpm Ce Cpe).
  cbv zeta. cbn [andb].
  set (ft := setitem (setitem fluxtable mag _) err _).
  assert (Hcn : colnames ft = colnames fluxtable).
  { unfold ft. rewrite colnames_setitem; rewrite colnames_setitem; auto. }
  destruct (contains "WISE" mag) eqn:EW; cbn [negb].
  - eexists. split; [reflexivity|]. intros k Hk. left. now rewrite <- Hcn.
  - destruct (Hnew eq_refl) as [N1 [N2 N3]].
    rewrite rename_column_ok by (rewrite Hcn; assumption). cbn [bind].
    rewrite rename_column_ok.
    + eexists. split; [reflexivity|]. intros k Hk.
      unfold colnames in Hk. cbn [columns] in Hk.
      apply In_colnames_rename in Hk as [[-> _]|[_ Hk]];
        [right; split; [reflexivity|now right]|].
      apply In_colnames_rename in Hk as [[-> _]|[_ Hk]];
        [right; split; [reflexivity|now left]|].
      left. rewrite <- Hcn. exact Hk.
    + unfold colnames. cbn [columns]. apply In_colnames_rename. right.
      split; [congruence|]. fold (colnames ft). now rewrite Hcn.
    + unfold colnames. cbn [columns]. rewrite In_colnames_rename.
      fold (colnames ft). rewrite Hcn. intros [[H _]|[_ H]]; auto.
Qed.

(** ... and keeps the columns it does not treat. *)
Lemma convert_band_keeps (wise : bool) (fluxtable ft' : Table R)
    (mag err : string) (fnu0 : R) (k : string) :
  convert_band photometry_table convert wise fluxtable (mag, (err, fnu0))
    = Ok ft' ->
  k <> mag -> k <> err ->
  In k (colnames fluxtable) -> In k (colnames ft').
Proof.
  intros Hrun H1 H2 Hk. destruct (col_of_colnames _ _ Hk) as [c Hc].
  apply inb_In. eapply col_colnames.
  eapply convert_band_frame; eassumption.
Qed.

Lemma plain_loop_ok (bands : list (string * (string * R)))
    (fluxtable : Table R) :
  rectangular fluxtable n ->
  Forall (band_present photometry_table fluxtable) bands ->
  exists ft',
    foldM (convert_band photometry_table convert false) fluxtable bands
      = Ok ft' /\
    colnames ft' = colnames fluxtable.
Proof.
  revert fluxtable. induction bands as [|[mag [err z]] bands IH];
    intros fluxtable Hft Hb; cbn [foldM].
  - now eexists.
  - inversion Hb as [|? ? [P1 [P2 [P3 [P4 P5]]]] Hb']; subst.
    cbn in P1, P2, P3, P4, P5.
    destruct (convert_band_plain_ok fluxtable mag err z Hft P5 P1 P2 P3 P4)
      as [ft1 [Hrun Hcn]].
    rewrite Hrun. cbn [bind].
    destruct (IH ft1) as [ft' [Hrun' Hcn']].
    + eapply convert_band_rectangular; eassumption.
    + eapply Forall_impl; [|exact Hb']. unfold band_present.
      intros b. now rewrite Hcn.
    + exists ft'. split; [exact Hrun'|congruence].
Qed.

Lemma wise_loop_ok (bands : list (string * (string * R)))
    (fluxtable : Table R) :
  rectangular fluxtable n ->
  Forall (band_present photometry_table fluxtable) bands ->
  NoDup (map band_mag bands) ->
  NoDup (map band_err_name bands) ->
  (forall b b', In b bands -> In b' bands ->
                band_mag b <> band_err_name b') ->
  NoDup (wise_renames bands) ->
  (forall x, In x (wise_renames bands) -> ~ In x (colnames fluxtable)) ->
  exists ft',
    foldM (convert_band photometry_table convert true) fluxtable bands
      = Ok ft' /\
    forall k, In k (colnames fluxtable) ->
              Forall (apart k) bands -> In k (colnames ft').
Proof.
  revert fluxtable. induction bands as [|[mag [err z]] bands IH];
    intros fluxtable Hft Hb Hnm Hne Hcross Hnd Hfresh; cbn [foldM].
  - eexists. split; [reflexivity|]. auto.
  - inversion Hb as [|? ? [P1 [P2 [P3 [P4 P5]]]] Hb']; subst.
    cbn in P1, P2, P3, P4, P5.
    inversion Hnm as [|? ? Hm1 Hnm']; subst.
    inversion Hne as [|? ? He1 Hne']; subst.
    cbn [wise_renames flat_map band_mag band_err_name fst snd] in Hnd, Hfresh.
    fold (wise_renames bands) in Hnd, Hfresh.
    destruct (convert_band_wise_ok fluxtable mag err z Hft P5 P1 P2 P3 P4)
      as [ft1 [Hrun Hcn]].
    { intros EW. rewrite EW in Hnd, Hfresh. cbn in Hnd, Hfresh.
      repeat split.
      - apply Hfresh. now left.
      - apply Hfresh. right. now left.
      - inversion Hnd as [|? ? Hx _]; subst. intros Heq. apply Hx.
        left. now symmetry. }
    rewrite Hrun. cbn [bind].
    assert (Hkeep : forall b, In b bands ->
              In (band_mag b) (colnames ft1) /\
              In (band_err_name b) (colnames ft1)).
    { intros b Hin. rewrite Forall_forall in Hb'.
      destruct (Hb' b Hin) as [Q1 [Q2 _]]. split.
      - eapply convert_band_keeps; [exact Hrun| | |exact Q1].
        + intros Heq. apply Hm1. cbn [band_mag fst]. rewrite <- Heq.
          now apply in_map.
        + apply (Hcross b (mag, (err, z))); [now right|now left].
      - eapply convert_band_keeps; [exact Hrun| | |exact Q2].
        + intros Heq. symmetry in Heq. revert Heq.
          apply (Hcross (mag, (err, z)) b); [now left|now right].
        + intros Heq. apply He1. cbn [band_err_name fst snd].
          rewrite <- Heq. now apply in_map. }
    destruct (IH ft1) as [ft' [Hrun' Hk']].
    + eapply convert_band_rectangular; eassumption.
    + rewrite Forall_forall in *. intros b Hin.
      destruct (Hb' b Hin) as [_ [_ [Q3 [Q4 Q5]]]].
      destruct (Hkeep b Hin) as [K1 K2]. unfold band_present. auto.
    + exact Hnm'.
    + exact Hne'.
    + intros b b' H1 H2. apply Hcross; now right.
    + destruct (contains "WISE" mag); [exact Hnd|].
      cbn in Hnd. inversion Hnd as [|? ? _ Hnd1]; subst.
      now inversion Hnd1.
    + intros x Hx Hin. apply Hcn in Hin as [Hin|[EW Hin]].
      * apply (Hfresh x); [|exact Hin]. apply in_or_app. now right.
      * rewrite EW in Hnd. cbn in Hnd.
        inversion Hnd as [|? ? Hx1 Hnd1]; subst.
        inversion Hnd1 as [|? ? Hx2 _]; subst.
        destruct Hin as [-> | ->]; [apply Hx1; now right|now apply Hx2].
    + exists ft'. split; [exact Hrun'|]. intros k Hk Hap.
      inversion Hap as [|? ? [A1 A2] Hap']; subst. cbn in A1, A2.
      apply Hk'; [|exact Hap'].
      eapply convert_band_keeps; [exact Hrun|exact A1|exact A2|exact Hk].
Qed.

End BandOk.

(** ** The three loops of [convert_mags_to_flux] *)

Section Loops.

Import CatalogUtils.
Local Open Scope R_scope.
Local Open Scope string_scope.

Variable valid_filters : list string.
Variable photometry_table : Table R.

Local Abbreviation mag_cols := (mag_cols valid_filters photometry_table).
Local Abbreviation mag_errcols := (mag_errcols valid_filters photometry_table).
Local Abbreviation recognized := (recognized valid_filters photometry_table).
Local Abbreviation wisecols := (wisecols valid_filters photometry_table).
Local Abbreviation wise_errcols := (wise_errcols valid_filters photometry_table).
Local Abbreviation vistacols := (vistacols valid_filters photometry_table).
Local Abbreviation vista_errcols := (vista_errcols valid_filters photometry_table).
Local Abbreviation other_mags := (other_mags valid_filters photometry_table).
Local Abbreviation other_errs := (other_errs valid_filters photometry_table).
Local Abbreviation wise_bands := (wise_bands valid_filters photometry_table).
Local Abbreviation vista_bands := (vista_bands valid_filters photometry_table).
Local Abbreviation other_bands := (other_bands valid_filters photometry_table).
Local Abbreviation fresh_renames :=
  (fresh_renames valid_filters photometry_table).

Lemma convert_mags_to_flux_loops (convert : R) :
  convert_mags_to_flux valid_filters photometry_table convert =
  (ft1 <- foldM (convert_band photometry_table convert true)
            photometry_table wise_bands ;;
   ft2 <- foldM (convert_band photometry_table convert false) ft1
            vista_bands ;;
   foldM (convert_band photometry_table convert false) ft2 other_bands).
Proof. reflexivity. Qed.

Lemma mag_cols_colnames (k : string) :
  In k recognized -> In k (colnames photometry_table).
Proof.
  unfold recognized, mag_cols, mag_errcols, _detect_mag_cols. cbn.
  rewrite in_app_iff, !filter_In. intros [[_ H]|[_ H]]; now apply inb_In.
Qed.

Lemma recognized_col (k : string) :
  In k recognized -> exists c, col photometry_table k = Ok c.
Proof.
  intros H. apply mag_cols_colnames in H. unfold col, colnames in *.
  induction (columns photometry_table) as [|[k0 v0] d IH]; cbn in *;
    [contradiction|].
  destruct (String.eqb_spec k0 k) as [->|Hne]; [now eexists|].
  destruct H as [H|H]; [contradiction|now apply IH].
Qed.

Hypothesis Hnodup : NoDup recognized.

Lemma mag_err_apart (m e : string) :
  In m mag_cols -> In e mag_errcols -> m <> e.
Proof.
  intros Hm He ->. unfold recognized in Hnodup.
  apply NoDup_app_remove_l in Hnodup as Hr.
  revert Hm. clear -Hnodup He.
  induction mag_cols as [|x l IH]; cbn in *; [tauto|].
  inversion Hnodup as [|? ? Hx Hnd]; subst. intros [->|Hin].
  - apply Hx. apply in_or_app. now right.
  - now apply IH.
Qed.

Lemma NoDup_mag_cols : NoDup mag_cols.
Proof. unfold recognized in Hnodup. eapply NoDup_app_remove_r, Hnodup. Qed.

Lemma NoDup_mag_errcols : NoDup mag_errcols.
Proof. unfold recognized in Hnodup. eapply NoDup_app_remove_l, Hnodup. Qed.

Lemma In_setdiff1d (x : string) (a b : list string) :
  In x (setdiff1d a b) <-> In x a /\ ~ In x b.
Proof.
  unfold setdiff1d, unique. rewrite filter_In, sorted_In, nodup_In.
  rewrite negb_true_iff. split; intros [H1 H2]; (split; [exact H1|]).
  - intros Hin. apply inb_In in Hin. congruence.
  - destruct (inb x b) eqn:E; [|reflexivity]. apply inb_In in E. tauto.
Qed.

Lemma NoDup_setdiff1d (a b : list string) : NoDup (setdiff1d a b).
Proof.
  unfold setdiff1d, unique. apply NoDup_filter, sorted_NoDup, NoDup_nodup.
Qed.

Lemma wise_bands_names (b : string * (string * R)) :
  In b wise_bands ->
  In (band_mag b) wisecols /\ In (band_err_name b) wise_errcols.
Proof. apply in_bands. Qed.

Lemma vista_bands_names (b : string * (string * R)) :
  In b vista_bands ->
  In (band_mag b) vistacols /\ In (band_err_name b) vista_errcols.
Proof. apply in_bands. Qed.

Lemma other_bands_names (b : string * (string * R)) :
  In b other_bands ->
  In (band_mag b) other_mags /\ In (band_err_name b) other_errs /\
  snd (snd b) = 3630.7805.
Proof.
  unfold other_bands. rewrite in_map_iff. intros [[m e] [<- H]]. cbn.
  split; [|split; [|reflexivity]].
  - eapply in_combine_l. exact H.
  - eapply in_combine_r. exact H.
Qed.

Lemma In_filter_sorted (f : string -> bool) (l : list string) (x : string) :
  In x (sorted String.leb (filter f l)) <-> In x l /\ f x = true.
Proof. now rewrite sorted_In, filter_In. Qed.

Lemma NoDup_filter_sorted (f : string -> bool) (l : list string) :
  NoDup l -> NoDup (sorted String.leb (filter f l)).
Proof. intros H. now apply sorted_NoDup, NoDup_filter. Qed.

Lemma NoDup_other_bands_mag : NoDup (map band_mag other_bands).
Proof.
  unfold other_bands. rewrite map_map. cbn.
  apply NoDup_combine_fst, NoDup_setdiff1d.
Qed.

Lemma NoDup_other_bands_err : NoDup (map band_err_name other_bands).
Proof.
  unfold other_bands. rewrite map_map. cbn.
  apply NoDup_combine_snd, NoDup_setdiff1d.
Qed.

Variables (convert : R) (n : nat).
Hypothesis Hrect : rectangular photometry_table n.

Lemma wise_bands_cross (b : string * (string * R)) :
  In b wise_bands -> In (band_mag b) mag_cols /\ In (band_err_name b) mag_errcols.
Proof.
  intros H. apply wise_bands_names in H as [H1 H2].
  apply In_filter_sorted in H1 as [H1 _].
  apply In_filter_sorted in H2 as [H2 _]. now split.
Qed.

Lemma vista_bands_cross (b : string * (string * R)) :
  In b vista_bands ->
  (In (band_mag b) mag_cols /\ contains "VISTA" (band_mag b) = true) /\
  (In (band_err_name b) mag_errcols /\
   contains "VISTA" (band_err_name b) = true).
Proof.
  intros H. apply vista_bands_names in H as [H1 H2].
  apply In_filter_sorted in H1. apply In_filter_sorted in H2. now split.
Qed.

Lemma other_bands_cross (b : string * (string * R)) :
  In b other_bands ->
  (In (band_mag b) mag_cols /\ ~ In (band_mag b) wisecols) /\
  (In (band_err_name b) mag_errcols /\ ~ In (band_err_name b) wise_errcols).
Proof.
  intros H. apply other_bands_names in H as [H1 [H2 _]].
  apply In_setdiff1d in H1. apply In_setdiff1d in H2. now split.
Qed.

Lemma recognized_mag (k : string) : In k mag_cols -> In k recognized.
Proof. intros H. apply in_or_app. now left. Qed.

Lemma recognized_err (k : string) : In k mag_errcols -> In k recognized.
Proof. intros H. apply in_or_app. now right. Qed.

(** A band of the first loop: the columns the whole conversion leaves for
    it, under the new names when the loop renames them. *)
Lemma wise_band_result (ft : Table R) (mag err : string) (fnu0 : R)
    (pm pe : list R) :
  In (mag, (err, fnu0)) wise_bands ->
  col photometry_table mag = Ok pm ->
  col photometry_table err = Ok pe ->
  convert_mags_to_flux valid_filters photometry_table convert = Ok ft ->
  (contains "VISTA" mag = false ->
   (contains "WISE" mag = false ->
    ~ In (replace "W" "WISE" mag) recognized) ->
   col ft (wise_name true mag mag) = Ok (band_flux fnu0 convert pm pm)) /\
  (contains "VISTA" err = false ->
   (contains "WISE" mag = false ->
    ~ In (replace "W" "WISE" err) recognized) ->
   col ft (wise_name true mag err) =
     Ok (band_err (band_flux fnu0 convert pm pm) pe pe)).
Proof.
  intros Hin Hpm Hpe Hrun. rewrite convert_mags_to_flux_loops in Hrun.
  bind_inv_as Hrun ft1 E1. bind_inv_as Hrun ft2 E2.
  pose proof (wise_bands_names _ Hin) as [Hmw Hew]. cbn in Hmw, Hew.
  pose proof (wise_bands_cross _ Hin) as [Hmc Hec]. cbn in Hmc, Hec.
  assert (Hcross : forall b, In b wise_bands ->
                     band_mag b <> err /\ band_err_name b <> mag).
  { intros b Hb. apply wise_bands_cross in Hb as [H1 H2]. split.
    - now apply mag_err_apart.
    - intros Heq. rewrite Heq in H2. now apply (mag_err_apart mag mag). }
  destruct (loop_band photometry_table convert n Hrect true wise_bands
              photometry_table ft1 mag err fnu0 pm pm pe pe Hrect Hin
              (NoDup_band_mag _ _ _ (NoDup_filter_sorted _ _ NoDup_mag_cols))
              (NoDup_band_err _ _ _
                 (NoDup_filter_sorted _ _ NoDup_mag_errcols))
              Hcross Hpm Hpm Hpe Hpe E1) as [Rm Re].
  split; intros Hv Hfresh.
  - assert (Hout : forall b, In (band_mag b) mag_cols ->
                     In (band_err_name b) mag_errcols ->
                     band_mag b <> mag ->
                     apart (wise_name true mag mag) b).
    { intros b H1 H2 H3. unfold wise_name, apart.
      change (fst b) with (band_mag b).
      change (fst (snd b)) with (band_err_name b).
      destruct (contains "WISE" mag) eqn:EW; cbn [andb negb].
      - split; [congruence|]. now apply mag_err_apart.
      - specialize (Hfresh eq_refl). split; intros Heq; apply Hfresh;
          rewrite Heq; [now apply recognized_mag|now apply recognized_err]. }
    eapply foldM_frame; [exact Hrun| |].
    + rewrite Forall_forall. intros b Hb.
      apply other_bands_cross in Hb as [[H1 H1'] [H2 _]].
      apply Hout; [exact H1|exact H2|].
      intros Heq. apply H1'. now rewrite Heq.
    + eapply foldM_frame; [exact E2| |].
      * rewrite Forall_forall. intros b Hb.
        apply vista_bands_cross in Hb as [[H1 H1'] [H2 _]].
        apply Hout; [exact H1|exact H2|].
        intros Heq. rewrite Heq in H1'. congruence.
      * apply Rm. intros b Hb H1 _. apply wise_bands_cross in Hb as [H2 H3].
        now apply Hout.
  - assert (Hout : forall b, In (band_mag b) mag_cols ->
                     In (band_err_name b) mag_errcols ->
                     band_err_name b <> err ->
                     apart (wise_name true mag err) b).
    { intros b H1 H2 H3. unfold wise_name, apart.
      change (fst b) with (band_mag b).
      change (fst (snd b)) with (band_err_name b).
      destruct (contains "WISE" mag) eqn:EW; cbn [andb negb].
      - split; [|congruence]. intros Heq. rewrite <- Heq in H1.
        now apply (mag_err_apart err err).
      - specialize (Hfresh eq_refl). split; intros Heq; apply Hfresh;
          rewrite Heq; [now apply recognized_mag|now apply recognized_err]. }
    eapply foldM_frame; [exact Hrun| |].
    + rewrite Forall_forall. intros b Hb.
      apply other_bands_cross in Hb as [[H1 _] [H2 H2']].
      apply Hout; [exact H1|exact H2|].
      intros Heq. apply H2'. now rewrite Heq.
    + eapply foldM_frame; [exact E2| |].
      * rewrite Forall_forall. intros b Hb.
        apply vista_bands_cross in Hb as [[H1 _] [H2 H2']].
        apply Hout; [exact H1|exact H2|].
        intros Heq. rewrite Heq in H2'. congruence.
      * apply Re. intros b Hb _ H1. apply wise_bands_cross in Hb as [H2 H3].
        now apply Hout.
Qed.

(** A loop without renaming: the band's columns after the loop. *)
Lemma plain_loop_band (bands : list (string * (string * R)))
    (fluxtable ft' : Table R) (mag err : string) (fnu0 : R)
    (m pm e pe : list R) :
  rectangular fluxtable n ->
  In (mag, (err, fnu0)) bands ->
  NoDup (map band_mag bands) ->
  NoDup (map band_err_name bands) ->
  (forall b, In b bands ->
             In (band_mag b) mag_cols /\ In (band_err_name b) mag_errcols) ->
  col fluxtable mag = Ok m ->
  col photometry_table mag = Ok pm ->
  col fluxtable err = Ok e ->
  col photometry_table err = Ok pe ->
  foldM (convert_band photometry_table convert false) fluxtable bands
    = Ok ft' ->
  col ft' mag = Ok (band_flux fnu0 convert m pm) /\
  col ft' err = Ok (band_err (band_flux fnu0 convert m pm) e pe).
Proof.
  intros Hft Hin Hnm Hne Hnames Hm Hpm He Hpe Hrun.
  destruct (Hnames _ Hin) as [Hmc Hec]. cbn in Hmc, Hec.
  assert (Hcross : forall b, In b bands ->
                     band_mag b <> err /\ band_err_name b <> mag).
  { intros b Hb. apply Hnames in Hb as [H1 H2]. split.
    - now apply mag_err_apart.
    - intros Heq. rewrite Heq in H2. now apply (mag_err_apart mag mag). }
  destruct (loop_band photometry_table convert n Hrect false bands
              fluxtable ft' mag err fnu0 m pm e pe Hft Hin Hnm Hne
              Hcross Hm Hpm He Hpe Hrun) as [Rm Re].
  cbn in Rm, Re. split; [apply Rm|apply Re]; intros b Hb H1 H2;
    destruct (Hcross b Hb) as [H3 H4]; unfold apart;
    change (fst b) with (band_mag b);
    change (fst (snd b)) with (band_err_name b); split; congruence.
Qed.

(** A band of the last loop: the columns the whole conversion leaves for
    it, when the second loop passed over neither column ... *)
Lemma other_band_result (ft : Table R) (mag err : string) (zp : R)
    (pm pe : list R) :
  In (mag, (err, zp)) other_bands ->
  col photometry_table mag = Ok pm ->
  col photometry_table err = Ok pe ->
  convert_mags_to_flux valid_filters photometry_table convert = Ok ft ->
  (forall b, In b vista_bands ->
             band_mag b <> mag /\ band_err_name b <> err) ->
  col ft mag = Ok (band_flux zp convert pm pm) /\
  col ft err = Ok (band_err (band_flux zp convert pm pm) pe pe).
Proof.
  intros Hin Hpm Hpe Hrun Hv. rewrite convert_mags_to_flux_loops in Hrun.
  bind_inv_as Hrun ft1 E1. bind_inv_as Hrun ft2 E2.
  pose proof (other_bands_cross _ Hin) as [[Hmc Hmw] [Hec Hew]].
  cbn in Hmc, Hmw, Hec, Hew.
  assert (A1 : Forall (fun b => apart mag b /\ apart err b)
                 (wise_bands ++ vista_bands)).
  { rewrite Forall_forall. intros b Hb. unfold apart.
    change (fst b) with (band_mag b).
    change (fst (snd b)) with (band_err_name b).
    apply in_app_or in Hb as [Hb|Hb].
    - pose proof (wise_bands_names _ Hb) as [W1 W2].
      apply wise_bands_cross in Hb as [H1 H2]. repeat split.
      + intros Heq. apply Hmw. now rewrite Heq.
      + intros Heq. rewrite <- Heq in H2. now apply (mag_err_apart mag mag).
      + intros Heq. rewrite <- Heq in H1. now apply (mag_err_apart err err).
      + intros Heq. apply Hew. now rewrite Heq.
    - destruct (Hv b Hb) as [V1 V2].
      apply vista_bands_cross in Hb as [[H1 _] [H2 _]]. repeat split.
      + congruence.
      + intros Heq. rewrite <- Heq in H2. now apply (mag_err_apart mag mag).
      + intros Heq. rewrite <- Heq in H1. now apply (mag_err_apart err err).
      + congruence. }
  apply Forall_app in A1 as [A1 A2].
  assert (Hm2 : col ft2 mag = Ok pm).
  { eapply foldM_frame; [exact E2| |].
    - eapply Forall_impl; [|exact A2]. now intros b [H _].
    - eapply foldM_frame; [exact E1| |exact Hpm].
      eapply Forall_impl; [|exact A1]. now intros b [H _]. }
  assert (He2 : col ft2 err = Ok pe).
  { eapply foldM_frame; [exact E2| |].
    - eapply Forall_impl; [|exact A2]. now intros b [_ H].
    - eapply foldM_frame; [exact E1| |exact Hpe].
      eapply Forall_impl; [|exact A1]. now intros b [_ H]. }
  assert (Hr2 : rectangular ft2 n).
  { eapply foldM_rectangular; [exact E2|].
    eapply foldM_rectangular; [exact E1|exact Hrect]. }
  apply (plain_loop_band other_bands ft2 ft mag err zp pm pm pe pe Hr2 Hin
           NoDup_other_bands_mag NoDup_other_bands_err); try assumption.
  intros b Hb. apply other_bands_cross in Hb as [[H1 _] [H2 _]]. now split.
Qed.

(** ... and when the second loop treated the same pair before it. *)
Lemma vista_band_result (ft : Table R) (mag err : string) (zp fv : R)
    (pm pe : list R) :
  In (mag, (err, zp)) other_bands ->
  In (mag, (err, fv)) vista_bands ->
  col photometry_table mag = Ok pm ->
  col photometry_table err = Ok pe ->
  convert_mags_to_flux valid_filters photometry_table convert = Ok ft ->
  col ft mag = Ok (band_flux zp convert (band_flux fv convert pm pm) pm) /\
  col ft err =
    Ok (band_err (band_flux zp convert (band_flux fv convert pm pm) pm)
          (band_err (band_flux fv convert pm pm) pe pe) pe).
Proof.
  intros Hin Hvin Hpm Hpe Hrun. rewrite convert_mags_to_flux_loops in Hrun.
  bind_inv_as Hrun ft1 E1. bind_inv_as Hrun ft2 E2.
  pose proof (other_bands_cross _ Hin) as [[Hmc Hmw] [Hec Hew]].
  cbn in Hmc, Hmw, Hec, Hew.
  assert (A1 : Forall (fun b => apart mag b /\ apart err b) wise_bands).
  { rewrite Forall_forall. intros b Hb. unfold apart.
    change (fst b) with (band_mag b).
    change (fst (snd b)) with (band_err_name b).
    pose proof (wise_bands_names _ Hb) as [W1 W2].
    apply wise_bands_cross in Hb as [H1 H2]. repeat split.
    + intros Heq. apply Hmw. now rewrite Heq.
    + intros Heq. rewrite <- Heq in H2. now apply (mag_err_apart mag mag).
    + intros Heq. rewrite <- Heq in H1. now apply (mag_err_apart err err).
    + intros Heq. apply Hew. now rewrite Heq. }
  assert (Hm1 : col ft1 mag = Ok pm).
  { eapply foldM_frame; [exact E1| |exact Hpm].
    eapply Forall_impl; [|exact A1]. now intros b [H _]. }
  assert (He1 : col ft1 err = Ok pe).
  { eapply foldM_frame; [exact E1| |exact Hpe].
    eapply Forall_impl; [|exact A1]. now intros b [_ H]. }
  assert (Hr1 : rectangular ft1 n)
    by (eapply foldM_rectangular; [exact E1|exact Hrect]).
  assert (Hr2 : rectangular ft2 n)
    by (eapply foldM_rectangular; [exact E2|exact Hr1]).
  destruct (plain_loop_band vista_bands ft1 ft2 mag err fv pm pm pe pe Hr1
              Hvin
              (NoDup_band_mag _ _ _ (NoDup_filter_sorted _ _ NoDup_mag_cols))
              (NoDup_band_err _ _ _
                 (NoDup_filter_sorted _ _ NoDup_mag_errcols)))
    as [Hm2 He2]; try assumption.
  { intros b Hb. apply vista_bands_cross in Hb as [[H1 _] [H2 _]].
    now split. }
  apply (plain_loop_band other_bands ft2 ft mag err zp _ pm _ pe Hr2 Hin
           NoDup_other_bands_mag NoDup_other_bands_err); try assumption.
  intros b Hb. apply other_bands_cross in Hb as [[H1 _] [H2 _]]. now split.
Qed.

(** The conversion returns when the renaming of the first loop meets no
    column. *)
Lemma convert_mags_to_flux_returns :
  fresh_renames ->
  exists ft,
    convert_mags_to_flux valid_filters photometry_table convert = Ok ft.
Proof.
  intros [Hnd [Hfresh Hvista]]. rewrite convert_mags_to_flux_loops.
  assert (Hcol : forall b, In (band_mag b) mag_cols ->
                   In (band_err_name b) mag_errcols ->
                   In (band_mag b) (colnames photometry_table) /\
                   In (band_err_name b) (colnames photometry_table) /\
                   band_mag b <> band_err_name b).
  { intros b H1 H2. split; [|split].
    - apply mag_cols_colnames. now apply recognized_mag.
    - apply mag_cols_colnames. now apply recognized_err.
    - now apply mag_err_apart. }
  destruct (wise_loop_ok photometry_table convert n Hrect wise_bands
              photometry_table Hrect) as [ft1 [E1 K1]].
  { rewrite Forall_forall. intros b Hb.
    apply wise_bands_cross in Hb as [H1 H2].
    destruct (Hcol b H1 H2) as [C1 [C2 C3]]. unfold band_present. auto. }
  { apply NoDup_band_mag, NoDup_filter_sorted, NoDup_mag_cols. }
  { apply NoDup_band_err, NoDup_filter_sorted, NoDup_mag_errcols. }
  { intros b b' Hb Hb'. apply wise_bands_cross in Hb as [H1 _].
    apply wise_bands_cross in Hb' as [_ H2]. now apply mag_err_apart. }
  { exact Hnd. }
  { exact Hfresh. }
  rewrite E1. cbn [bind].
  assert (Hr1 : rectangular ft1 n)
    by (eapply foldM_rectangular; [exact E1|exact Hrect]).
  assert (Hkeep : forall b,
            In (band_mag b) mag_cols -> In (band_err_name b) mag_errcols ->
            (forall w, In w wise_bands ->
                       band_mag b <> band_mag w /\
                       band_err_name b <> band_err_name w) ->
            band_present photometry_table ft1 b).
  { intros b H1 H2 Hw. destruct (Hcol b H1 H2) as [C1 [C2 C3]].
    unfold band_present. repeat split; try assumption.
    - apply K1; [exact C1|]. rewrite Forall_forall. intros w Hin.
      destruct (Hw w Hin) as [W1 _].
      apply wise_bands_cross in Hin as [_ W2]. split; [exact W1|].
      now apply mag_err_apart.
    - apply K1; [exact C2|]. rewrite Forall_forall. intros w Hin.
      destruct (Hw w Hin) as [_ W1].
      apply wise_bands_cross in Hin as [W2 _]. split; [|exact W1].
      intros Heq. revert Heq. apply not_eq_sym. now apply mag_err_apart. }
  destruct (plain_loop_ok photometry_table convert n Hrect vista_bands ft1
              Hr1) as [ft2 [E2 C2]].
  { rewrite Forall_forall. intros b Hb.
    apply vista_bands_cross in Hb as [[H1 V1] [H2 V2]].
    apply Hkeep; [exact H1|exact H2|]. intros w Hw.
    destruct (Hvista w Hw) as [W1 W2]. split; intros Heq.
    - rewrite Heq in V1. congruence.
    - rewrite Heq in V2. congruence. }
  rewrite E2. cbn [bind].
  assert (Hr2 : rectangular ft2 n)
    by (eapply foldM_rectangular; [exact E2|exact Hr1]).
  destruct (plain_loop_ok photometry_table convert n Hrect other_bands ft2
              Hr2) as [ft3 [E3 _]].
  { rewrite Forall_forall. intros b Hb.
    apply other_bands_cross in Hb as [[H1 V1] [H2 V2]].
    unfold band_present. rewrite C2. apply Hkeep; [exact H1|exact H2|].
    intros w Hw. apply wise_bands_names in Hw as [W1 W2].
    split; intros Heq; [apply V1|apply V2]; now rewrite Heq. }
  now exists ft3.
Qed.

End Loops.

Section FluxRows.

Import CatalogUtils.
Local Open Scope R_scope.
Local Open Scope string_scope.

Lemma nth_error_combine {A B : Type} (a : list A) (b : list B) (r : nat)
    (x : A) (y : B) :
  nth_error a r = Some x -> nth_error b r = Some y ->
  nth_error (combine a b) r = Some (x, y).
Proof.
  revert a b. induction r as [|r IH]; intros [|x0 a] [|y0 b]; cbn;
    try discriminate.
  - now intros [= ->] [= ->].
  - apply IH.
Qed.

Lemma nth_band_flux (zp convert : R) (m pm : list R) (r : nat) (x y : R) :
  nth_error m r = Some x -> nth_error pm r = Some y ->
  nth_error (band_flux zp convert m pm) r = Some (flux_of zp convert x y).
Proof.
  intros Hx Hy. unfold band_flux. rewrite nth_error_map.
  now rewrite (nth_error_combine m pm r x y Hx Hy).
Qed.

Lemma nth_band_err (flux e pe : list R) (r : nat) (f x y : R) :
  nth_error flux r = Some f -> nth_error e r = Some x ->
  nth_error pe r = Some y ->
  nth_error (band_err flux e pe) r = Some (fluxerr_of f x y).
Proof.
  intros Hf Hx Hy. unfold band_err. rewrite nth_error_map.
  rewrite (nth_error_combine e (combine flux pe) r x (f, y) Hx
             (nth_error_combine flux pe r f y Hf Hy)).
  reflexivity.
Qed.

Lemma band_flux_diag (zp convert : R) (pm : list R) :
  band_flux zp convert pm pm = map (fun m => flux_of zp convert m m) pm.
Proof.
  unfold band_flux. induction pm as [|x pm IH]; cbn; [reflexivity|].
  now rewrite IH.
Qed.

Lemma pow10_ge_1 (x : R) : 0 <= x -> 1 <= pow10 x.
Proof.
  intros Hx. unfold pow10, Rpower. rewrite <- exp_0.
  assert (0 < ln 10) by (rewrite <- ln_1; apply ln_increasing; lra).
  destruct (Req_dec x 0) as [->|Hne].
  - rewrite Rmult_0_l. lra.
  - left. apply exp_increasing. apply Rmult_lt_0_compat; lra.
Qed.

Lemma flux_of_neg (zp convert cur orig : R) :
  cur < 0 -> flux_of zp convert cur orig = -99.
Proof. intros H. unfold flux_of. destruct (Rlt_dec cur 0); lra. Qed.

Lemma flux_of_nonneg (zp convert cur orig : R) :
  0 <= cur ->
  flux_of zp convert cur orig = zp * pow10 (- orig / 2.5) * 1000 * convert.
Proof. intros H. unfold flux_of. destruct (Rlt_dec cur 0); lra. Qed.

Lemma fluxerr_of_neg (flux cur orig : R) :
  cur < 0 -> fluxerr_of flux cur orig = -99.
Proof. intros H. unfold fluxerr_of. destruct (Rlt_dec cur 0); lra. Qed.

Lemma fluxerr_of_nonneg (flux cur orig : R) :
  0 <= cur -> fluxerr_of flux cur orig = flux * (pow10 (orig / 2.5) - 1).
Proof. intros H. unfold fluxerr_of. destruct (Rlt_dec cur 0); lra. Qed.

(** A band treated once. *)
Lemma row_single (zp convert m e : R) :
  row_converted zp convert m e (flux_of zp convert m m)
    (fluxerr_of (flux_of zp convert m m) e e).
Proof.
  unfold row_converted. repeat split; intros.
  - now apply flux_of_neg.
  - now apply flux_of_nonneg.
  - now apply fluxerr_of_neg.
  - now apply fluxerr_of_nonneg.
Qed.

Lemma flux_nonneg (zp convert x : R) :
  0 <= zp -> 0 <= convert -> 0 <= zp * pow10 x * 1000 * convert.
Proof.
  intros Hz Hc. pose proof (pow10_pos x).
  apply Rmult_le_pos; [|exact Hc].
  apply Rmult_le_pos; [|lra]. apply Rmult_le_pos; lra.
Qed.

(** A band treated by the second loop and again by the last. *)
Lemma row_double (zp fv convert m e : R) :
  0 <= fv -> 0 <= convert ->
  row_converted zp convert m e
    (flux_of zp convert (flux_of fv convert m m) m)
    (fluxerr_of (flux_of zp convert (flux_of fv convert m m) m)
       (fluxerr_of (flux_of fv convert m m) e e) e).
Proof.
  intros Hfv Hc. unfold row_converted.
  assert (Hneg : m < 0 -> flux_of fv convert m m < 0)
    by (intros H; rewrite flux_of_neg by exact H; lra).
  assert (Hpos : 0 <= m -> 0 <= flux_of fv convert m m)
    by (intros H; rewrite flux_of_nonneg by exact H; now apply flux_nonneg).
  repeat split.
  - intros H. apply flux_of_neg. now apply Hneg.
  - intros H. apply flux_of_nonneg. now apply Hpos.
  - intros H. apply fluxerr_of_neg. rewrite fluxerr_of_neg by exact H. lra.
  - intros Hm He. apply fluxerr_of_nonneg.
    rewrite fluxerr_of_nonneg by exact He.
    apply Rmult_le_pos; [now apply Hpos|].
    assert (1 <= pow10 (e / 2.5)) by (apply pow10_ge_1; lra). lra.
Qed.

Lemma vista_zero_point_nonneg (valid_filters : list string) (t : Table R)
    (mag err : string) (fv : R) :
  In (mag, (err, fv)) (vista_bands valid_filters t) -> 0 <= fv.
Proof.
  intros H. unfold vista_bands in H. apply in_combine_r in H.
  apply in_combine_r in H. unfold vista_fnu0 in H. cbn in H.
  destruct H as [<-|[<-|[<-|[<-|[]]]]]; lra.
Qed.

End FluxRows.

Section FluxTheorems.

Import CatalogUtils.
Local Open Scope R_scope.
Local Open Scope string_scope.

Variable valid_filters : list string.
Variable photometry_table : Table R.
Variables (convert : R) (n : nat).

Hypothesis Hrect : rectangular photometry_table n.
Hypothesis Hnodup : NoDup (recognized valid_filters photometry_table).

Lemma rows_of_columns (zp : R) (pm pe fluxes errs : list R)
    (F : R -> R) (S : R -> R -> R) :
  (forall r m, nth_error pm r = Some m -> nth_error fluxes r = Some (F m)) ->
  (forall r m e, nth_error pm r = Some m -> nth_error pe r = Some e ->
                 nth_error errs r = Some (S m e)) ->
  (forall m e, row_converted zp convert m e (F m) (S m e)) ->
  forall r m e, nth_error pm r = Some m -> nth_error pe r = Some e ->
    exists f s, nth_error fluxes r = Some f /\ nth_error errs r = Some s /\
                row_converted zp convert m e f s.
Proof.
  intros HF HS Hrow r m e Hm He. exists (F m), (S m e).
  split; [now apply HF|]. split; [now apply HS|apply Hrow].
Qed.

(** C3 (amended): for a magnitude column and the error column the
    conversion pairs with it, every row's flux is -99 where the input
    magnitude is negative and zero_point * 10^(-mag/2.5) * 1000 * convert
    otherwise; its flux error is -99 where the input magnitude error is
    negative, and flux * (10^(mag_err/2.5) - 1) where magnitude and error
    are both non-negative.  The conversion returns when the renaming of
    the first loop meets no column. *)
Theorem convert_mags_to_flux_rows (mag err : string) (zp : R)
    (out_mag out_err : string) (pm pe : list R) :
  0 <= convert ->
  treated valid_filters photometry_table mag err zp out_mag out_err ->
  col photometry_table mag = Ok pm ->
  col photometry_table err = Ok pe ->
  (fresh_renames valid_filters photometry_table ->
   exists ft,
     convert_mags_to_flux valid_filters photometry_table convert = Ok ft) /\
  (forall ft,
     convert_mags_to_flux valid_filters photometry_table convert = Ok ft ->
     exists fluxes errs,
       col ft out_mag = Ok fluxes /\
       col ft out_err = Ok errs /\
       forall r m e, nth_error pm r = Some m -> nth_error pe r = Some e ->
         exists f s, nth_error fluxes r = Some f /\
                     nth_error errs r = Some s /\
                     row_converted zp convert m e f s).
Proof.
  intros Hc Ht Hpm Hpe.
  split; [apply (convert_mags_to_flux_returns valid_filters photometry_table
                   Hnodup convert n Hrect)|].
  intros ft Hrun.
  destruct Ht as [mag err fnu0 Hin Hvm Hve Hfresh|mag err zp Hin Hv].
  - destruct (wise_band_result valid_filters photometry_table Hnodup convert
                n Hrect ft mag err fnu0 pm pe Hin Hpm Hpe Hrun) as [Rm Re].
    eexists _, _. split; [apply Rm; [exact Hvm|apply Hfresh]|].
    split; [apply Re; [exact Hve|apply Hfresh]|].
    apply (rows_of_columns fnu0 pm pe _ _
             (fun m => flux_of fnu0 convert m m)
             (fun m e => fluxerr_of (flux_of fnu0 convert m m) e e)).
    + intros r m Hm. now apply nth_band_flux.
    + intros r m e Hm He. apply nth_band_err; [|exact He|exact He].
      now apply nth_band_flux.
    + intros m e. apply row_single.
  - destruct (in_dec string_dec mag
                (map band_mag (vista_bands valid_filters photometry_table)))
      as [Hvin|Hvout].
    + apply in_map_iff in Hvin as [[vm [ve fv]] [Heq Hb]]. cbn in Heq.
      subst vm. assert (ve = err) by (now apply (Hv _ Hb)). subst ve.
      destruct (vista_band_result valid_filters photometry_table Hnodup
                  convert n Hrect ft mag err zp fv pm pe Hin Hb Hpm Hpe Hrun)
        as [Rm Re].
      eexists _, _. split; [exact Rm|]. split; [exact Re|].
      apply (rows_of_columns zp pm pe _ _
               (fun m => flux_of zp convert (flux_of fv convert m m) m)
               (fun m e =>
                  fluxerr_of (flux_of zp convert (flux_of fv convert m m) m)
                    (fluxerr_of (flux_of fv convert m m) e e) e)).
      * intros r m Hm. apply nth_band_flux; [|exact Hm].
        now apply nth_band_flux.
      * intros r m e Hm He. apply nth_band_err; [| |exact He].
        -- apply nth_band_flux; [|exact Hm]. now apply nth_band_flux.
        -- apply nth_band_err; [|exact He|exact He].
           now apply nth_band_flux.
      * intros m e. apply row_double; [|exact Hc].
        eapply vista_zero_point_nonneg. exact Hb.
    + assert (Hv' : forall b,
                 In b (vista_bands valid_filters photometry_table) ->
                 band_mag b <> mag /\ band_err_name b <> err).
      { intros b Hb. assert (Hm : band_mag b <> mag).
        { intros Heq. apply Hvout. rewrite <- Heq. now apply in_map. }
        split; [exact Hm|]. intros Heq. apply Hm. now apply (Hv b Hb). }
      destruct (other_band_result valid_filters photometry_table Hnodup
                  convert n Hrect ft mag err zp pm pe Hin Hpm Hpe Hrun Hv')
        as [Rm Re].
      eexists _, _. split; [exact Rm|]. split; [exact Re|].
      apply (rows_of_columns zp pm pe _ _
               (fun m => flux_of zp convert m m)
               (fun m e => fluxerr_of (flux_of zp convert m m) e e)).
      * intros r m Hm. now apply nth_band_flux.
      * intros r m e Hm He. apply nth_band_err; [|exact He|exact He].
        now apply nth_band_flux.
      * intros m e. apply row_single.
Qed.

(** C10, amended: the i-th W column in sorted order that is paired with
    an i-th W error column (the [zip] stops at the shorter list), is no
    VISTA name and whose new name is no recognized name, is converted
    with the i-th entry of (309.54, 171.787, 31.674, 8.363), whatever
    band it names.  The conversion returns when the renaming of the
    first loop meets no column. *)
Theorem wise_zero_point_by_position (i : nat) (mag err : string) (fnu0 : R)
    (pm : list R) :
  nth_error (wisecols valid_filters photometry_table) i = Some mag ->
  nth_error (wise_errcols valid_filters photometry_table) i = Some err ->
  nth_error wise_fnu0 i = Some fnu0 ->
  contains "VISTA" mag = false ->
  (contains "WISE" mag = false ->
   ~ In (replace "W" "WISE" mag) (recognized valid_filters photometry_table)) ->
  col photometry_table mag = Ok pm ->
  (fresh_renames valid_filters photometry_table ->
   exists ft,
     convert_mags_to_flux valid_filters photometry_table convert = Ok ft) /\
  (forall ft,
     convert_mags_to_flux valid_filters photometry_table convert = Ok ft ->
     col ft (wise_name true mag mag) =
       Ok (map (fun m => if Rlt_dec m 0 then -99.0
                         else fnu0 * pow10 (- m / 2.5) * 1000 * convert) pm)).
Proof.
  intros Hm He Hz Hv Hfresh Hpm.
  split; [apply (convert_mags_to_flux_returns valid_filters photometry_table
                   Hnodup convert n Hrect)|].
  intros ft Hrun.
  assert (Hin : In (mag, (err, fnu0))
                  (wise_bands valid_filters photometry_table)).
  { eapply nth_error_In. unfold wise_bands.
    apply nth_error_combine; [exact Hm|]. now apply nth_error_combine. }
  destruct (recognized_col valid_filters photometry_table err) as [pe Hpe].
  { apply nth_error_In in He. apply In_filter_sorted in He as [He _].
    apply in_or_app. now right. }
  destruct (wise_band_result valid_filters photometry_table Hnodup convert
              n Hrect ft mag err fnu0 pm pe Hin Hpm Hpe Hrun) as [Rm _].
  rewrite (Rm Hv Hfresh). now rewrite band_flux_diag.
Qed.

End FluxTheorems.

(** ** The conversion on the test tables *)

Section FluxRuns.

Import CatalogUtils Doubles.
Local Open Scope R_scope.
Local Open Scope string_scope.

Lemma rectangular_one_row (a b : string) (x y : R) :
  rectangular (mkTable [(a, [x]); (b, [y])] []) 1.
Proof. repeat constructor. Qed.

Lemma run_w3 :
  convert_mags_to_flux filters0 tab_w3 1 =
    Ok (mkTable
          [("WISE3", [flux_of 309.54 1 10 10]);
           ("WISE3_err", [fluxerr_of (flux_of 309.54 1 10 10) 0.1 0.1])] []).
Proof.
  rewrite convert_mags_to_flux_loops.
  change (wise_bands filters0 tab_w3) with [("W3", ("W3_err", 309.54))].
  change (vista_bands filters0 tab_w3) with (@nil (string * (string * R))).
  change (other_bands filters0 tab_w3) with (@nil (string * (string * R))).
  cbn [foldM bind].
  rewrite (convert_band_run tab_w3 1 1 (rectangular_one_row _ _ _ _) true
             tab_w3 "W3" "W3_err" 309.54 [10] [10] [0.1] [0.1]
             (rectangular_one_row _ _ _ _));
    [reflexivity|discriminate|reflexivity..].
Qed.

Lemma run_vista :
  convert_mags_to_flux filters0 tab_vista 1 =
    Ok (mkTable
          [("VISTA_Y", [flux_of 3630.7805 1 (flux_of 2087.32 1 20 20) 20]);
           ("VISTA_Y_err",
            [fluxerr_of (flux_of 3630.7805 1 (flux_of 2087.32 1 20 20) 20)
               (fluxerr_of (flux_of 2087.32 1 20 20) 0.1 0.1) 0.1])] []).
Proof.
  rewrite convert_mags_to_flux_loops.
  change (wise_bands filters0 tab_vista) with (@nil (string * (string * R))).
  change (vista_bands filters0 tab_vista)
    with [("VISTA_Y", ("VISTA_Y_err", 2087.32))].
  change (other_bands filters0 tab_vista)
    with [("VISTA_Y", ("VISTA_Y_err", 3630.7805))].
  cbn [foldM bind].
  rewrite (convert_band_run tab_vista 1 1 (rectangular_one_row _ _ _ _) false
             tab_vista "VISTA_Y" "VISTA_Y_err" 2087.32 [20] [20] [0.1] [0.1]
             (rectangular_one_row _ _ _ _));
    [|discriminate|reflexivity..].
  cbv zeta. cbn [andb bind].
  rewrite (convert_band_run tab_vista 1 1 (rectangular_one_row _ _ _ _) false
             _ "VISTA_Y" "VISTA_Y_err" 3630.7805
             [flux_of 2087.32 1 20 20] [20]
             [fluxerr_of (flux_of 2087.32 1 20 20) 0.1 0.1] [0.1]);
    [reflexivity|repeat constructor|discriminate|reflexivity..].
Qed.

Lemma run_des_bad :
  convert_mags_to_flux filters0 tab_des_bad 1 =
    Ok (mkTable
          [("DES_r", [flux_of 3630.7805 1 (-1) (-1)]);
           ("DES_r_err",
            [fluxerr_of (flux_of 3630.7805 1 (-1) (-1)) 0 0])] []).
Proof.
  rewrite convert_mags_to_flux_loops.
  change (wise_bands filters0 tab_des_bad)
    with (@nil (string * (string * R))).
  change (vista_bands filters0 tab_des_bad)
    with (@nil (string * (string * R))).
  change (other_bands filters0 tab_des_bad)
    with [("DES_r", ("DES_r_err", 3630.7805))].
  cbn [foldM bind].
  rewrite (convert_band_run tab_des_bad 1 1 (rectangular_one_row _ _ _ _)
             false tab_des_bad "DES_r" "DES_r_err" 3630.7805
             [-1] [-1] [0] [0] (rectangular_one_row _ _ _ _));
    [reflexivity|discriminate|reflexivity..].
Qed.

Lemma rectangular_tab_des : rectangular tab_des 2.
Proof. repeat constructor. Qed.

Lemma run_des :
  convert_mags_to_flux filters0 tab_des 1 =
    Ok (mkTable
          [("DES_r", band_flux 3630.7805 1 [20; -1] [20; -1]);
           ("DES_r_err",
            band_err (band_flux 3630.7805 1 [20; -1] [20; -1])
              [0.1; -1] [0.1; -1])] []).
Proof.
  rewrite convert_mags_to_flux_loops.
  change (wise_bands filters0 tab_des) with (@nil (string * (string * R))).
  change (vista_bands filters0 tab_des) with (@nil (string * (string * R))).
  change (other_bands filters0 tab_des)
    with [("DES_r", ("DES_r_err", 3630.7805))].
  cbn [foldM bind].
  rewrite (convert_band_run tab_des 1 2 rectangular_tab_des
             false tab_des "DES_r" "DES_r_err" 3630.7805
             [20; -1] [20; -1] [0.1; -1] [0.1; -1] rectangular_tab_des);
    [reflexivity|discriminate|reflexivity..].
Qed.

End FluxRuns.

Section FluxCases.

Import CatalogUtils Doubles.
Local Open Scope R_scope.
Local Open Scope string_scope.

(** C2 (as the code behaves): a VISTA column is first converted with its
    own zero point and then converted again by the last loop, so the
    table that is returned holds the flux for the default zero point
    3630.7805 Jy, not for 2087.32 Jy. *)
Theorem vista_column_default_zero_point :
  exists ft,
    convert_mags_to_flux filters0 tab_vista 1 = Ok ft /\
    col ft "VISTA_Y" = Ok [3630.7805 * pow10 (- 20 / 2.5) * 1000 * 1] /\
    3630.7805 * pow10 (- 20 / 2.5) * 1000 * 1 <>
      2087.32 * pow10 (- 20 / 2.5) * 1000 * 1.
Proof.
  eexists. split; [exact run_vista|]. split.
  - cbn. rewrite (flux_of_nonneg 3630.7805); [reflexivity|].
    rewrite flux_of_nonneg by lra. apply flux_nonneg; lra.
  - pose proof (pow10_pos (- 20 / 2.5)). nra.
Qed.

(** C3, as stated, fails: a row with magnitude -1 and error 0 gets the
    flux -99 but the flux error 0. *)
Lemma negative_magnitude_error_not_sentinel :
  exists ft s,
    convert_mags_to_flux filters0 tab_des_bad 1 = Ok ft /\
    col ft "DES_r" = Ok [-99] /\
    col ft "DES_r_err" = Ok [s] /\
    s <> -99.
Proof.
  eexists. exists 0. split; [exact run_des_bad|]. split; [|split].
  - cbn. rewrite flux_of_neg by lra. reflexivity.
  - cbn. rewrite fluxerr_of_nonneg by lra.
    replace (0 / 2.5) with 0 by lra. rewrite pow10_0.
    do 2 f_equal. lra.
  - lra.
Qed.

Lemma NoDup_two (a b : string) : a <> b -> NoDup [a; b].
Proof.
  intros H. constructor.
  - cbn. intros [E|[]]. now apply H.
  - constructor; [cbn; tauto|constructor].
Qed.

Lemma fresh_renames_no_wise (t : Table R) :
  wise_bands filters0 t = [] -> fresh_renames filters0 t.
Proof.
  intros E. unfold fresh_renames. rewrite E. cbn.
  split; [constructor|]. split; intros ? [].
Qed.

Lemma fresh_renames_w3 : fresh_renames filters0 tab_w3.
Proof.
  unfold fresh_renames.
  change (wise_bands filters0 tab_w3) with [("W3", ("W3_err", 309.54))].
  change (wise_renames [("W3", ("W3_err", 309.54))])
    with ["WISE3"; "WISE3_err"].
  split; [apply NoDup_two; discriminate|]. split.
  - intros x [<-|[<-|[]]] [H|[H|[]]]; discriminate.
  - intros b [<-|[]]. split; reflexivity.
Qed.

(** The three ways a pair of columns is treated: [tab_des] by the last
    loop alone, [tab_vista] by the second and the last loop, [tab_w3] by
    the first loop, which renames it. *)
Lemma convert_mags_to_flux_rows_witness :
  (exists ft fluxes errs,
     convert_mags_to_flux filters0 tab_des 1 = Ok ft /\
     col ft "DES_r" = Ok fluxes /\
     col ft "DES_r_err" = Ok errs /\
     forall r m e,
       nth_error [20; -1] r = Some m -> nth_error [0.1; -1] r = Some e ->
       exists f s, nth_error fluxes r = Some f /\ nth_error errs r = Some s /\
                   row_converted 3630.7805 1 m e f s) /\
  (exists ft fluxes errs,
     convert_mags_to_flux filters0 tab_vista 1 = Ok ft /\
     col ft "VISTA_Y" = Ok fluxes /\
     col ft "VISTA_Y_err" = Ok errs /\
     forall r m e,
       nth_error [20] r = Some m -> nth_error [0.1] r = Some e ->
       exists f s, nth_error fluxes r = Some f /\ nth_error errs r = Some s /\
                   row_converted 3630.7805 1 m e f s) /\
  (exists ft fluxes errs,
     convert_mags_to_flux filters0 tab_w3 1 = Ok ft /\
     col ft "WISE3" = Ok fluxes /\
     col ft "WISE3_err" = Ok errs /\
     forall r m e,
       nth_error [10] r = Some m -> nth_error [0.1] r = Some e ->
       exists f s, nth_error fluxes r = Some f /\ nth_error errs r = Some s /\
                   row_converted 309.54 1 m e f s).
Proof.
  split; [|split].
  - destruct (convert_mags_to_flux_rows filters0 tab_des 1 2
                rectangular_tab_des
                (NoDup_two "DES_r" "DES_r_err" ltac:(discriminate))
                "DES_r" "DES_r_err" 3630.7805 "DES_r" "DES_r_err"
                [20; -1] [0.1; -1] ltac:(lra)
                (treated_other filters0 tab_des "DES_r" "DES_r_err" 3630.7805
                   (or_introl eq_refl)
                   (fun b (H : False) => match H with end))
                eq_refl eq_refl)
      as [Hret Hrows].
    destruct (Hret (fresh_renames_no_wise tab_des eq_refl)) as [ft Hft].
    destruct (Hrows ft Hft) as [fluxes [errs H]].
    exists ft, fluxes, errs. split; [exact Hft|exact H].
  - assert (Hv : forall b, In b (vista_bands filters0 tab_vista) ->
                   band_mag b = "VISTA_Y" <-> band_err_name b = "VISTA_Y_err").
    { intros b [<-|[]]. split; reflexivity. }
    destruct (convert_mags_to_flux_rows filters0 tab_vista 1 1
                (rectangular_one_row _ _ _ _)
                (NoDup_two "VISTA_Y" "VISTA_Y_err" ltac:(discriminate))
                "VISTA_Y" "VISTA_Y_err" 3630.7805 "VISTA_Y" "VISTA_Y_err"
                [20] [0.1] ltac:(lra)
                (treated_other filters0 tab_vista "VISTA_Y" "VISTA_Y_err"
                   3630.7805 (or_introl eq_refl) Hv)
                eq_refl eq_refl)
      as [Hret Hrows].
    destruct (Hret (fresh_renames_no_wise tab_vista eq_refl)) as [ft Hft].
    destruct (Hrows ft Hft) as [fluxes [errs H]].
    exists ft, fluxes, errs. split; [exact Hft|exact H].
  - assert (Hf : contains "WISE" "W3" = false ->
                 ~ In (replace "W" "WISE" "W3") (recognized filters0 tab_w3) /\
                 ~ In (replace "W" "WISE" "W3_err")
                     (recognized filters0 tab_w3)).
    { intros _. split; intros [H|[H|[]]]; discriminate. }
    destruct (convert_mags_to_flux_rows filters0 tab_w3 1 1
                (rectangular_one_row _ _ _ _)
                (NoDup_two "W3" "W3_err" ltac:(discriminate))
                "W3" "W3_err" 309.54 "WISE3" "WISE3_err"
                [10] [0.1] ltac:(lra)
                (treated_wise filters0 tab_w3 "W3" "W3_err" 309.54
                   (or_introl eq_refl) eq_refl eq_refl Hf)
                eq_refl eq_refl)
      as [Hret Hrows].
    destruct (Hret fresh_renames_w3) as [ft Hft].
    destruct (Hrows ft Hft) as [fluxes [errs H]].
    exists ft, fluxes, errs. split; [exact Hft|exact H].
Defined.

(** The table that holds only W3 and its error: the third band is
    converted with the first zero point, 309.54. *)
Lemma wise_zero_point_by_position_witness :
  exists ft,
    convert_mags_to_flux filters0 tab_w3 1 = Ok ft /\
    nth_error wise_fnu0 0 = Some 309.54 /\
    col ft "WISE3" =
      Ok (map (fun m => if Rlt_dec m 0 then -99.0
                        else 309.54 * pow10 (- m / 2.5) * 1000 * 1) [10]).
Proof.
  destruct (wise_zero_point_by_position filters0 tab_w3 1 1
              (rectangular_one_row _ _ _ _)
              (NoDup_two "W3" "W3_err" ltac:(discriminate))
              0%nat "W3" "W3_err" 309.54 [10]
              eq_refl eq_refl eq_refl eq_refl)
    as [Hret Hcol].
  - intros _ [H|[H|[]]]; discriminate.
  - reflexivity.
  - destruct (Hret fresh_renames_w3) as [ft Hft].
    exists ft. split; [exact Hft|]. split; [reflexivity|].
    exact (Hcol ft Hft).
Defined.

(** C10, as stated, fails: in a table that holds W3 without its error
    column, W3 is the first W column, but the [zip] with the empty list
    of error columns stops at once and the last loop leaves W columns
    out: the table comes back as it was given, the magnitude 10 not
    converted and the column not renamed. *)
Lemma lone_w_column_not_converted :
  nth_error (wisecols filters0 tab_w3_alone) 0 = Some "W3" /\
  nth_error wise_fnu0 0 = Some 309.54 /\
  convert_mags_to_flux filters0 tab_w3_alone 1 = Ok tab_w3_alone /\
  col tab_w3_alone "W3" = Ok [10] /\
  col tab_w3_alone "WISE3" = Raise KeyError /\
  10 <> 309.54 * pow10 (- 10 / 2.5) * 1000 * 1.
Proof.
  split; [reflexivity|]. split; [reflexivity|]. split; [|split; [|split]].
  - rewrite convert_mags_to_flux_loops.
    change (wise_bands filters0 tab_w3_alone)
      with (@nil (string * (string * R))).
    change (vista_bands filters0 tab_w3_alone)
      with (@nil (string * (string * R))).
    change (other_bands filters0 tab_w3_alone)
      with (@nil (string * (string * R))).
    reflexivity.
  - reflexivity.
  - reflexivity.
  - unfold pow10. replace (- 10 / 2.5) with (- INR 4) by (cbn; lra).
    rewrite Rpower_Ropp, Rpower_pow by lra. intros H.
    assert (E : 10 ^ 4 = 10000) by (cbn; lra). rewrite E in H. lra.
Qed.

End FluxCases.

(** * Further properties of nebular.py *)

Section NebularMore.

Import Nebular.
Local Open Scope R_scope.
Local Open Scope string_scope.

Variable wrest : string -> option R.
Variable MW_dust : R -> option R.

(** X1: any method other than Ha and Hb is refused with [IOError], before
    a line or the line list is looked at. *)
Theorem calc_SFR_unsupported (neb_lines : NebLines) (method : string) (z : R)
    (cosmo : Cosmology) (AV : option R) (curve : string) :
  method <> "Ha" -> method <> "Hb" ->
  calc_SFR wrest MW_dust neb_lines method z cosmo AV curve = Raise IOError.
Proof.
  intros H1 H2. unfold calc_SFR.
  destruct (String.eqb_spec method "Ha"); [contradiction|].
  destruct (String.eqb_spec method "Hb"); [contradiction|]. reflexivity.
Qed.

Variable python_floats : bool.

(** X2: [calc_dust_extinct] fails in this order: an unknown curve
    ([IOError], whatever the method), an unknown method ([IOError]), a
    missing Halpha or Hbeta flux ([KeyError]), a wavelength outside the
    curve ([ValueError]); and then, on a zero Halpha or Hbeta flux,
    [ZeroDivisionError] when the fluxes are Python floats, while on
    numpy scalars nothing is raised and the value returned is not
    finite. *)
Theorem calc_dust_extinct_failures (neb_lines : NebLines)
    (method curve : string) :
  (curve <> "MW" ->
   calc_dust_extinct MW_dust python_floats neb_lines method curve
     = Raise IOError) /\
  (method <> "Ha/Hb" ->
   calc_dust_extinct MW_dust python_floats neb_lines method "MW"
     = Raise IOError) /\
  (getitem neb_lines "Halpha" = Raise KeyError ->
   calc_dust_extinct MW_dust python_floats neb_lines "Ha/Hb" "MW"
     = Raise KeyError) /\
  (forall fa,
     getitem neb_lines "Halpha" = Ok fa ->
     getitem neb_lines "Hbeta" = Raise KeyError ->
     calc_dust_extinct MW_dust python_floats neb_lines "Ha/Hb" "MW"
       = Raise KeyError) /\
  (forall fa fb,
     getitem neb_lines "Halpha" = Ok fa ->
     getitem neb_lines "Hbeta" = Ok fb ->
     MW_dust 6564.6 = None \/
     (MW_dust 6564.6 <> None /\ MW_dust 4862.7 = None) ->
     calc_dust_extinct MW_dust python_floats neb_lines "Ha/Hb" "MW"
       = Raise ValueError) /\
  (forall fa fb a1 a2,
     getitem neb_lines "Halpha" = Ok fa ->
     getitem neb_lines "Hbeta" = Ok fb ->
     MW_dust 6564.6 = Some a1 -> MW_dust 4862.7 = Some a2 ->
     fa = 0 \/ fb = 0 ->
     calc_dust_extinct MW_dust python_floats neb_lines "Ha/Hb" "MW"
       = if python_floats then Raise ZeroDivisionError else Ok non_finite).
Proof.
  repeat split.
  - intros Hc. unfold calc_dust_extinct, load_extinction.
    destruct (String.eqb_spec curve "MW"); [contradiction|reflexivity].
  - intros Hm. unfold calc_dust_extinct, load_extinction.
    cbn [String.eqb Ascii.eqb Bool.eqb bind].
    destruct (String.eqb_spec method "Ha/Hb"); [contradiction|reflexivity].
  - intros H. unfold calc_dust_extinct, load_extinction.
    cbn [String.eqb Ascii.eqb Bool.eqb bind]. now rewrite H.
  - intros fa Ha Hb. unfold calc_dust_extinct, load_extinction.
    cbn [String.eqb Ascii.eqb Bool.eqb bind]. rewrite Ha. cbn [bind].
    now rewrite Hb.
  - intros fa fb Ha Hb Hout. unfold calc_dust_extinct, load_extinction.
    cbn [String.eqb Ascii.eqb Bool.eqb bind]. rewrite Ha. cbn [bind].
    rewrite Hb. cbn [bind]. destruct Hout as [H1|[H1 H2]].
    + now rewrite H1.
    + destruct (MW_dust 6564.6); [|contradiction]. cbn [bind].
      now rewrite H2.
  - intros fa fb a1 a2 Ha Hb H1 H2 Hz.
    exact (proj1 (calc_dust_extinct_degenerate MW_dust python_floats
                    neb_lines fa fb a1 a2 Ha Hb H1 H2) Hz).
Qed.

(** X3: [calc_lum] fails in this order: a line that is not in the line
    list gives [TypeError] (the list returns [None], which is then
    subscripted); when A_V is supplied, and only then, an unknown curve
    gives [IOError] and a wavelength outside the curve [ValueError]; a
    line whose flux or whose [_err] entry is missing from the dict gives
    [KeyError]. *)
Theorem calc_lum_failures (neb_lines : NebLines) (line : string) (z : R)
    (cosmo : Cosmology) (AV : option R) (curve : string) :
  (wrest line = None ->
   calc_lum wrest MW_dust neb_lines line z cosmo AV curve = Raise TypeError) /\
  (forall w av,
     wrest line = Some w -> curve <> "MW" ->
     calc_lum wrest MW_dust neb_lines line z cosmo (Some av) curve
       = Raise IOError) /\
  (forall w av,
     wrest line = Some w -> MW_dust w = None ->
     calc_lum wrest MW_dust neb_lines line z cosmo (Some av) "MW"
       = Raise ValueError) /\
  (forall w al,
     wrest line = Some w ->
     attenuation MW_dust w AV curve = Ok al ->
     getitem neb_lines line = Raise KeyError ->
     calc_lum wrest MW_dust neb_lines line z cosmo AV curve
       = Raise KeyError) /\
  (forall w al f,
     wrest line = Some w ->
     attenuation MW_dust w AV curve = Ok al ->
     getitem neb_lines line = Ok f ->
     getitem neb_lines (line ++ "_err") = Raise KeyError ->
     calc_lum wrest MW_dust neb_lines line z cosmo AV curve
       = Raise KeyError).
Proof.
  repeat split.
  - intros H. unfold calc_lum. now rewrite H.
  - intros w av Hw Hc. unfold calc_lum, load_extinction. rewrite Hw.
    cbn [bind]. destruct (String.eqb_spec curve "MW"); [contradiction|].
    reflexivity.
  - intros w av Hw Hout. unfold calc_lum, load_extinction. rewrite Hw.
    cbn [String.eqb Ascii.eqb Bool.eqb bind]. now rewrite Hout.
  - intros w al Hw Hal Hf. unfold calc_lum. rewrite Hw. cbn [bind].
    unfold attenuation in Hal. rewrite Hal. cbn [bind]. now rewrite Hf.
  - intros w al f Hw Hal Hf He. unfold calc_lum. rewrite Hw. cbn [bind].
    unfold attenuation in Hal. rewrite Hal. cbn [bind]. rewrite Hf.
    cbn [bind]. now rewrite He.
Qed.

(** X4: supplying A_V = 0 gives the same result as supplying none
    (luminosity, error or exception alike) when the line's wavelength is
    on the curve; and without A_V the curve name plays no part. *)
Theorem calc_lum_zero_extinction (neb_lines : NebLines) (line : string)
    (z : R) (cosmo : Cosmology) (w a : R) (curve curve' : string) :
  wrest line = Some w ->
  MW_dust w = Some a ->
  calc_lum wrest MW_dust neb_lines line z cosmo (Some 0) "MW" =
    calc_lum wrest MW_dust neb_lines line z cosmo None curve /\
  calc_lum wrest MW_dust neb_lines line z cosmo None curve =
    calc_lum wrest MW_dust neb_lines line z cosmo None curve'.
Proof.
  intros Hw Ha. split; [|reflexivity].
  unfold calc_lum, load_extinction. rewrite Hw.
  cbn [String.eqb Ascii.eqb Bool.eqb bind]. rewrite Ha. cbn [bind].
  now rewrite Rmult_0_l.
Qed.

(** X22: the rate is the luminosity that [calc_lum] computes, for
    Halpha times 7.9e-42 with the method Ha and for Hbeta times
    7.9e-42 * 2.8 with the method Hb; the luminosity error plays no
    part. *)
Theorem calc_SFR_value (neb_lines : NebLines) (method line : string)
    (K z : R) (cosmo : Cosmology) (AV : option R) (curve : string)
    (w al f e : R) :
  (method = "Ha" /\ line = "Halpha" /\ K = 7.9e-42) \/
  (method = "Hb" /\ line = "Hbeta" /\ K = 7.9e-42 * 2.8) ->
  wrest line = Some w ->
  attenuation MW_dust w AV curve = Ok al ->
  getitem neb_lines line = Ok f ->
  getitem neb_lines (line ++ "_err") = Ok e ->
  calc_SFR wrest MW_dust neb_lines method z cosmo AV curve =
    Ok (f * pow10 (al / 2.5) * (4 * PI * luminosity_distance cosmo z ^ 2)
        * K).
Proof.
  intros [[-> [-> ->]]|[-> [-> ->]]] Hw Hal Hf He; unfold calc_SFR;
    cbn [String.eqb Ascii.eqb Bool.eqb bind];
    rewrite (calc_lum_spec wrest MW_dust _ _ z cosmo _ _ _ _ _ _
               Hw Hal Hf He);
    reflexivity.
Qed.

End NebularMore.

Section NebularMoreWitnesses.

Import Nebular Doubles MoreDoubles.
Local Open Scope R_scope.
Local Open Scope string_scope.

Lemma curve_red_blue : curve_red 4862.7 = None.
Proof. unfold curve_red. destruct (Rlt_dec 4862.7 6000); [reflexivity|lra]. Qed.

Lemma curve_red_red : curve_red 6564.6 = Some (5500 / 6564.6).
Proof. unfold curve_red. destruct (Rlt_dec 6564.6 6000); [lra|reflexivity]. Qed.

(** The method "OIII" on [neb0]. *)
Lemma calc_SFR_unsupported_witness :
  calc_SFR wrest0 curve0 neb0 "OIII" 0.1 cosmo0 None "MW" = Raise IOError.
Proof.
  apply (calc_SFR_unsupported wrest0 curve0 neb0 "OIII" 0.1 cosmo0 None "MW");
    discriminate.
Defined.

(** The method Hb on [neb0], without extinction. *)
Lemma calc_SFR_value_witness :
  calc_SFR wrest0 curve0 neb0 "Hb" 0.1 cosmo0 None "MW" =
    Ok (2 * pow10 (0 / 2.5) * (4 * PI * luminosity_distance cosmo0 0.1 ^ 2)
        * (7.9e-42 * 2.8)).
Proof.
  apply (calc_SFR_value wrest0 curve0 neb0 "Hb" "Hbeta" (7.9e-42 * 2.8)
           0.1 cosmo0 None "MW" 4862.7 0 2 (-999));
    try reflexivity.
  right. repeat split.
Defined.

(** Each failure of [calc_dust_extinct] on a concrete input. *)
Lemma calc_dust_extinct_failures_witness :
  calc_dust_extinct curve0 true neb0 "OIII" "SMC" = Raise IOError /\
  calc_dust_extinct curve0 true neb0 "OIII" "MW" = Raise IOError /\
  calc_dust_extinct curve0 true [] "Ha/Hb" "MW" = Raise KeyError /\
  calc_dust_extinct curve0 true neb_noerr "Ha/Hb" "MW" = Raise KeyError /\
  calc_dust_extinct curve_red true neb0 "Ha/Hb" "MW" = Raise ValueError /\
  calc_dust_extinct curve0 true neb_zero "Ha/Hb" "MW"
    = Raise ZeroDivisionError /\
  calc_dust_extinct curve0 false neb_zero "Ha/Hb" "MW" = Ok non_finite.
Proof.
  split; [|split; [|split; [|split; [|split; [|split]]]]].
  - apply (proj1 (calc_dust_extinct_failures curve0 true neb0 "OIII" "SMC")).
    discriminate.
  - apply (proj1 (proj2 (calc_dust_extinct_failures curve0 true neb0
                           "OIII" "MW"))).
    discriminate.
  - apply (proj1 (proj2 (proj2
             (calc_dust_extinct_failures curve0 true [] "Ha/Hb" "MW")))).
    reflexivity.
  - apply (proj1 (proj2 (proj2 (proj2
             (calc_dust_extinct_failures curve0 true neb_noerr
                "Ha/Hb" "MW")))) 4); reflexivity.
  - apply (proj1 (proj2 (proj2 (proj2 (proj2
             (calc_dust_extinct_failures curve_red true neb0
                "Ha/Hb" "MW"))))) 5.6 2); try reflexivity.
    right. split; [rewrite curve_red_red; discriminate|exact curve_red_blue].
  - apply (proj2 (proj2 (proj2 (proj2 (proj2
             (calc_dust_extinct_failures curve0 true neb_zero
                "Ha/Hb" "MW"))))) 4 0 (5500 / 6564.6) (5500 / 4862.7));
      try reflexivity. now right.
  - apply (proj2 (proj2 (proj2 (proj2 (proj2
             (calc_dust_extinct_failures curve0 false neb_zero
                "Ha/Hb" "MW"))))) 4 0 (5500 / 6564.6) (5500 / 4862.7));
      try reflexivity. now right.
Defined.

(** Each failure of [calc_lum] on a concrete input. *)
Lemma calc_lum_failures_witness :
  calc_lum wrest0 curve0 neb0 "OIII" 0.1 cosmo0 None "MW" = Raise TypeError /\
  calc_lum wrest0 curve0 neb0 "Halpha" 0.1 cosmo0 (Some 1) "SMC"
    = Raise IOError /\
  calc_lum wrest0 curve_red neb0 "Hbeta" 0.1 cosmo0 (Some 1) "MW"
    = Raise ValueError /\
  calc_lum wrest0 curve0 [] "Halpha" 0.1 cosmo0 None "MW" = Raise KeyError /\
  calc_lum wrest0 curve0 neb_noerr "Halpha" 0.1 cosmo0 None "MW"
    = Raise KeyError.
Proof.
  split; [|split; [|split; [|split]]].
  - apply (proj1 (calc_lum_failures wrest0 curve0 neb0 "OIII" 0.1 cosmo0
                    None "MW")). reflexivity.
  - apply (proj1 (proj2 (calc_lum_failures wrest0 curve0 neb0 "Halpha" 0.1
                           cosmo0 (Some 1) "SMC")) 6564.6 1);
      [reflexivity|discriminate].
  - apply (proj1 (proj2 (proj2
             (calc_lum_failures wrest0 curve_red neb0 "Hbeta" 0.1 cosmo0
                (Some 1) "MW"))) 4862.7 1);
      [reflexivity|exact curve_red_blue].
  - apply (proj1 (proj2 (proj2 (proj2
             (calc_lum_failures wrest0 curve0 [] "Halpha" 0.1 cosmo0
                None "MW")))) 6564.6 0); reflexivity.
  - apply (proj2 (proj2 (proj2 (proj2
             (calc_lum_failures wrest0 curve0 neb_noerr "Halpha" 0.1 cosmo0
                None "MW")))) 6564.6 0 4); reflexivity.
Defined.

(** Halpha in [neb0] with A_V = 0 and with none. *)
Lemma calc_lum_zero_extinction_witness :
  calc_lum wrest0 curve0 neb0 "Halpha" 0.1 cosmo0 (Some 0) "MW" =
    calc_lum wrest0 curve0 neb0 "Halpha" 0.1 cosmo0 None "SMC" /\
  calc_lum wrest0 curve0 neb0 "Halpha" 0.1 cosmo0 None "SMC" =
    calc_lum wrest0 curve0 neb0 "Halpha" 0.1 cosmo0 None "MW".
Proof.
  apply (calc_lum_zero_extinction wrest0 curve0 neb0 "Halpha" 0.1 cosmo0
           6564.6 (5500 / 6564.6) "SMC" "MW"); reflexivity.
Defined.

End NebularMoreWitnesses.

(** * Further properties of catalog_utils.py: match_ids *)

Section MatchIdsMore.

Import CatalogUtils.

Variable argsort : list Z -> list nat.
Hypothesis Hargsort : argsort_contract Z.leb argsort.

Lemma existsb_eqb_In (x : Z) (l : list Z) :
  existsb (Z.eqb x) l = true <-> In x l.
Proof.
  rewrite existsb_exists. split.
  - intros [y [Hy E]]. apply Z.eqb_eq in E. now subst.
  - intros H. exists x. split; [exact H|apply Z.eqb_refl].
Qed.

Lemma match_ids_rows (IDs match_IDs rows : list Z) (require_in_match : bool) :
  match_ids argsort IDs match_IDs require_in_match = Ok rows ->
  rows = map (fun x => if existsb (Z.eqb x) match_IDs
                       then Z.of_nat
                              (sorter_row match_IDs (argsort match_IDs) x)
                       else (-1)%Z) IDs /\
  (require_in_match = true ->
   forallb (fun x => existsb (Z.eqb x) match_IDs) IDs = true).
Proof.
  unfold match_ids. unfold in1d at 1. rewrite count_true_negb_0.
  destruct require_in_match; cbn [andb].
  - destruct (forallb _ IDs) eqn:E; cbn [negb]; [|discriminate].
    rewrite (match_ids_any argsort Hargsort). intros [= <-]. now split.
  - rewrite (match_ids_any argsort Hargsort). intros [= <-].
    split; [reflexivity|]. discriminate.
Qed.

(** X8: the rows that [match_ids] returns are aligned with the input:
    there is one per identifier, and each is either a row of [match_IDs]
    that holds that identifier or -1, the latter only for an identifier
    that is absent and only when matches are not required.  This holds
    for every sort that keeps what numpy promises of [np.argsort]. *)
Theorem match_ids_rows_hold_ids (IDs match_IDs rows : list Z)
    (require_in_match : bool) :
  match_ids argsort IDs match_IDs require_in_match = Ok rows ->
  List.length rows = List.length IDs /\
  forall i id r,
    nth_error IDs i = Some id -> nth_error rows i = Some r ->
    ((0 <= r)%Z /\ nth_error match_IDs (Z.to_nat r) = Some id) \/
    (r = (-1)%Z /\ ~ In id match_IDs /\ require_in_match = false).
Proof.
  intros H. apply match_ids_rows in H as [-> Hreq].
  split; [apply length_map|].
  intros i id r Hid Hr. rewrite nth_error_map, Hid in Hr. cbn in Hr.
  injection Hr as <-.
  destruct (existsb (Z.eqb id) match_IDs) eqn:E.
  - left. apply existsb_eqb_In in E. split; [lia|].
    rewrite Nat2Z.id. apply (sorter_row_hit argsort Hargsort). exact E.
  - right. split; [reflexivity|]. split.
    + intros Hin. apply existsb_eqb_In in Hin. congruence.
    + destruct require_in_match; [|reflexivity].
      specialize (Hreq eq_refl). rewrite forallb_forall in Hreq.
      apply nth_error_In in Hid. specialize (Hreq id Hid). congruence.
Qed.

End MatchIdsMore.

(** The stable sort on identifiers of which two are repeated and one is
    absent. *)
Lemma match_ids_rows_hold_ids_witness :
  List.length [3; -1; 0]%Z = List.length [9; 4; 7]%Z /\
  forall i id r,
    nth_error [9; 4; 7]%Z i = Some id ->
    nth_error [3; -1; 0]%Z i = Some r ->
    ((0 <= r)%Z /\ nth_error [7; 5; 5; 9; 9]%Z (Z.to_nat r) = Some id) \/
    (r = (-1)%Z /\ ~ In id [7; 5; 5; 9; 9]%Z /\ false = false).
Proof.
  apply (match_ids_rows_hold_ids (argsort_stable Z.leb) argsort_stable_Z
           [9; 4; 7]%Z [7; 5; 5; 9; 9]%Z [3; -1; 0]%Z false).
  reflexivity.
Defined.

(** * Further properties of catalog_utils.py: sorting *)

Section SortMore.

Import CatalogUtils.
Local Open Scope string_scope.
Local Open Scope list_scope.

Variable separation : SkyCoord -> SkyCoord -> Q.

(** Any sort that keeps what numpy promises of [np.argsort]. *)
Variable argsort : list Q -> list nat.
Hypothesis Hargsort : argsort_contract Qle_bool argsort.

Lemma arcmin_sorted (l : list Q) :
  StronglySorted Qle l ->
  StronglySorted Qle (map (fun s => (s * 60)%Q) l).
Proof.
  induction 1 as [|x l Hs IH Hx]; cbn; constructor; [exact IH|].
  rewrite Forall_map. eapply Forall_impl; [|exact Hx]. cbn.
  intros y Hy. apply Qmult_le_compat_r; [exact Hy|discriminate].
Qed.

(** What a call with both coordinate columns present does. *)
Lemma sort_by_separation_run (h : Heap) (catalog n : nat) (t : Table Q)
    (coord : SkyCoord) (radec : string * string) (ra dec : list Q)
    (add_sep : bool) :
  deref h catalog = Ok t ->
  rectangular t n ->
  col t (fst radec) = Ok ra ->
  col t (snd radec) = Ok dec ->
  let seps := map (separation coord) (combine ra dec) in
  let t1 := if add_sep
            then setitem t "separation" (map (fun s => s * 60)%Q seps)
            else t in
  let h1 := if add_sep then update h catalog t1 else h in
  List.length seps = n /\
  rectangular t1 n /\
  exists c,
    take_columns (columns t1) (argsort seps) = Ok c /\
    sort_by_separation separation argsort catalog coord radec add_sep h =
      (Ok (List.length h), h1 ++ [mkTable c (meta t1)]).
Proof.
  intros Hd Hrect Hra Hdec seps t1 h1.
  pose proof (deref_lt _ _ _ Hd) as Hlt.
  assert (Hn : List.length seps = n).
  { unfold seps. rewrite length_map. unfold SkyCoord. rewrite length_combine.
    rewrite (rectangular_col _ _ _ _ Hrect Hra).
    rewrite (rectangular_col _ _ _ _ Hrect Hdec). lia. }
  assert (Hrect1 : rectangular t1 n).
  { unfold t1. destruct add_sep; [|exact Hrect].
    apply set_assoc_rectangular; [exact Hrect|]. now rewrite length_map. }
  split; [exact Hn|]. split; [exact Hrect1|].
  destruct (take_columns_ok (columns t1) (argsort seps) n Hrect1)
    as [c Hc].
  { rewrite <- Hn. apply argsort_range, Hargsort. }
  exists c. split; [exact Hc|].
  unfold sort_by_separation. rewrite Hd.
  rewrite (col_colnames _ _ _ Hra), (col_colnames _ _ _ Hdec).
  cbn [negb]. rewrite Hra, Hdec. cbv zeta.
  unfold h1, t1, seps in *. clear h1 t1 seps. destruct add_sep.
  - rewrite deref_update_same by exact Hlt. cbn [bind]. unfold take_rows.
    rewrite Hc. cbn [bind]. unfold alloc. now rewrite update_length.
  - rewrite Hd. cbn [bind]. unfold take_rows. rewrite Hc. reflexivity.
Qed.

(** X9: a catalogue without one of the two coordinate columns is refused
    with [IOError] before anything is computed: no table of the store is
    changed and none is added. *)
Theorem sort_by_separation_missing_column (h : Heap) (catalog : nat)
    (t : Table Q) (coord : SkyCoord) (radec : string * string)
    (add_sep : bool) :
  deref h catalog = Ok t ->
  ~ In (fst radec) (colnames t) \/ ~ In (snd radec) (colnames t) ->
  sort_by_separation separation argsort catalog coord radec add_sep h =
    (Raise IOError, h).
Proof.
  intros Hd Hmiss. unfold sort_by_separation. rewrite Hd.
  destruct (inb (fst radec) (colnames t)) eqn:E1; cbn [negb]; [|reflexivity].
  destruct (inb (snd radec) (colnames t)) eqn:E2; cbn [negb]; [|reflexivity].
  apply inb_In in E1. apply inb_In in E2. tauto.
Qed.

(** X10: with [add_sep = False] the caller's table is not touched: the
    store keeps every table it had, and the sorted table, added as a new
    object, has the columns of the input and no other. *)
Theorem sort_by_separation_no_add (h : Heap) (catalog n : nat) (t : Table Q)
    (coord : SkyCoord) (radec : string * string) (ra dec : list Q) :
  deref h catalog = Ok t ->
  rectangular t n ->
  col t (fst radec) = Ok ra ->
  col t (snd radec) = Ok dec ->
  exists srt,
    sort_by_separation separation argsort catalog coord radec false h =
      (Ok (List.length h), h ++ [srt]) /\
    colnames srt = colnames t /\
    forall r, r < List.length h -> deref (h ++ [srt]) r = deref h r.
Proof.
  intros Hd Hrect Hra Hdec.
  destruct (sort_by_separation_run h catalog n t coord radec ra dec false
              Hd Hrect Hra Hdec) as [_ [_ [c [Hc Hrun]]]].
  cbn in Hc, Hrun. eexists. split; [exact Hrun|]. split.
  - unfold colnames. cbn [columns]. eapply take_columns_names. exact Hc.
  - intros r Hr. now apply deref_app_old.
Qed.

(** X11: the table that is returned holds the rows of the input in the
    order of ascending separation: one permutation of the row numbers,
    along which the separations do not decrease, is applied to every
    column; with [add_sep = True] its column [separation] is ascending
    and holds the separations in arc-minutes. *)
Theorem sort_by_separation_sorted (h : Heap) (catalog n : nat) (t : Table Q)
    (coord : SkyCoord) (radec : string * string) (ra dec : list Q)
    (add_sep : bool) :
  deref h catalog = Ok t ->
  rectangular t n ->
  col t (fst radec) = Ok ra ->
  col t (snd radec) = Ok dec ->
  let seps := map (separation coord) (combine ra dec) in
  let isrt := argsort seps in
  exists srt,
    fst (sort_by_separation separation argsort catalog coord radec add_sep h) =
      Ok (List.length h) /\
    deref (snd (sort_by_separation separation argsort catalog coord radec add_sep h))
      (List.length h) = Ok srt /\
    Permutation isrt (seq 0 n) /\
    StronglySorted Qle (map (fun i => nth i seps 0%Q) isrt) /\
    (forall k v, col t k = Ok v -> add_sep = false \/ k <> "separation" ->
                 col srt k = Ok (map (fun i => nth i v 0%Q) isrt)) /\
    (add_sep = true ->
     exists l, col srt "separation" = Ok l /\
               StronglySorted Qle l /\
               Permutation l (map (fun s => s * 60)%Q seps)).
Proof.
  intros Hd Hrect Hra Hdec seps isrt.
  destruct (sort_by_separation_run h catalog n t coord radec ra dec add_sep
              Hd Hrect Hra Hdec) as [Hn [Hrect1 [c [Hc Hrun]]]].
  fold seps in Hn, Hrect1, Hc, Hrun. fold isrt in Hc.
  set (t1 := if add_sep
             then setitem t "separation" (map (fun s => (s * 60)%Q) seps)
             else t) in *.
  assert (Hperm : Permutation isrt (seq 0 n)).
  { rewrite <- Hn. apply argsort_perm, Hargsort. }
  assert (Hrange : forall v : list Q, List.length v = n ->
            Forall (fun i => i < List.length v) isrt).
  { intros v Hv. rewrite Hv, <- Hn. apply argsort_range, Hargsort. }
  assert (Hcol : forall k v d, col t1 k = Ok v ->
            col (mkTable c (meta t1)) k =
              Ok (map (fun i => nth i v d) isrt)).
  { intros k v d Hk.
    destruct (take_columns_col _ _ _ _ _ Hc Hk) as [v' [Hv' Hg]].
    rewrite (take_nth d) in Hv'
      by (apply Hrange; eapply rectangular_col; eassumption).
    injection Hv' as <-. exact Hg. }
  exists (mkTable c (meta t1)). rewrite Hrun. cbn [fst snd].
  split; [reflexivity|]. split.
  { replace (List.length h)
      with (List.length (if add_sep then update h catalog t1 else h))
      by (destruct add_sep; [apply update_length|reflexivity]).
    apply deref_app_new. }
  split; [exact Hperm|]. split; [apply argsort_sorted_Q, Hargsort|]. split.
  - intros k v Hk Hcase. apply Hcol. unfold t1.
    destruct add_sep; [|exact Hk].
    destruct Hcase as [Hcase|Hcase]; [discriminate|].
    now rewrite col_setitem_other.
  - intros ->. eexists. split.
    + apply (Hcol "separation" (map (fun s => (s * 60)%Q) seps)
               (0 * 60)%Q).
      apply col_setitem_same.
    + assert (E : map (fun i => nth i (map (fun s => (s * 60)%Q) seps)
                                  (0 * 60)%Q) isrt =
                  map (fun s => (s * 60)%Q)
                    (map (fun i => nth i seps 0%Q) isrt)).
      { rewrite map_map. apply map_ext. intros i.
        apply (map_nth (fun s => (s * 60)%Q)). }
      rewrite E. split.
      * apply arcmin_sorted, argsort_sorted_Q, Hargsort.
      * apply Permutation_map.
        transitivity (map (fun i => nth i seps 0%Q) (seq 0 n));
          [now apply Permutation_map|].
        rewrite <- Hn, map_nth_seq. reflexivity.
Qed.

End SortMore.

Section SortMoreWitnesses.

Import CatalogUtils Doubles.
Local Open Scope string_scope.
Local Open Scope list_scope.

Lemma rectangular_cat_three : rectangular cat_three 3.
Proof. repeat constructor. Qed.

(** [cat_three] has no column "declination". *)
Lemma sort_by_separation_missing_column_witness :
  sort_by_separation sep_equator (argsort_stable Qle_bool) 0 (0, 0)%Q
    ("ra", "declination") true [cat_three] = (Raise IOError, [cat_three]).
Proof.
  apply (sort_by_separation_missing_column sep_equator
           (argsort_stable Qle_bool) [cat_three] 0
           cat_three (0, 0)%Q ("ra", "declination") true eq_refl).
  right. cbn. intros [H|[H|[H|[]]]]; discriminate.
Defined.

(** Sorting [cat_three] without adding the column. *)
Lemma sort_by_separation_no_add_witness :
  exists srt,
    sort_by_separation sep_equator (argsort_stable Qle_bool) 0 (0, 0)%Q
      ("ra", "dec") false [cat_three] = (Ok 1, [cat_three; srt]) /\
    colnames srt = ["ra"; "dec"; "r"].
Proof.
  destruct (sort_by_separation_no_add sep_equator (argsort_stable Qle_bool)
              argsort_stable_Q [cat_three] 0 3 cat_three
              (0, 0)%Q ("ra", "dec") [3; 2; 1]%Q [0; 0; 0]%Q
              eq_refl rectangular_cat_three eq_refl eq_refl)
    as [srt [Hrun [Hnames _]]].
  exists srt. split; [exact Hrun|exact Hnames].
Defined.

(** Sorting [cat_three], which lists its sources from the farthest. *)
Lemma sort_by_separation_sorted_witness :
  exists srt,
    deref (snd (sort_by_separation sep_equator (argsort_stable Qle_bool) 0
                  (0, 0)%Q ("ra", "dec") true [cat_three])) 1 = Ok srt /\
    col srt "r" = Ok [23; 22; 21]%Q /\
    exists l, col srt "separation" = Ok l /\ StronglySorted Qle l.
Proof.
  destruct (sort_by_separation_sorted sep_equator (argsort_stable Qle_bool)
              argsort_stable_Q [cat_three] 0 3 cat_three
              (0, 0)%Q ("ra", "dec") [3; 2; 1]%Q [0; 0; 0]%Q true
              eq_refl rectangular_cat_three eq_refl eq_refl)
    as [srt [_ [Hd [_ [_ [Hcols Hsep]]]]]].
  exists srt. split; [exact Hd|]. split.
  - apply (Hcols "r" [21; 22; 23]%Q eq_refl). right. discriminate.
  - destruct (Hsep eq_refl) as [l [Hl [Hs _]]]. now exists l.
Defined.

End SortMoreWitnesses.

(** * Further properties of catalog_utils.py: summaries *)

Section ArgBest.

Import CatalogUtils.

Variable better : Q -> Q -> bool.
Variable R : Q -> Q -> Prop.
Hypothesis R_refl : forall x, R x x.
Hypothesis R_trans : forall x y z, R x y -> R y z -> R x z.
Hypothesis better_true : forall x b, better x b = true -> R x b.
Hypothesis better_false : forall x b, better x b = false -> R b x.

Lemma arg_best_spec (l : list Q) (bi : nat) (b : Q) (i : nat) :
  exists m,
    ((arg_best better bi b i l = bi /\ m = b) \/
     (exists k, arg_best better bi b i l = i + k /\
                nth_error l k = Some m)) /\
    R m b /\ Forall (R m) l.
Proof.
  revert bi b i. induction l as [|x l IH]; intros bi b i; cbn.
  - exists b. split; [left; now split|]. split; [apply R_refl|constructor].
  - destruct (better x b) eqn:E.
    + destruct (IH i x (S i)) as [m [Hpos [Hmx Hall]]].
      exists m. split; [right|split].
      * destruct Hpos as [[-> ->]|[k [-> Hk]]].
        -- exists 0. split; [lia|reflexivity].
        -- exists (S k). split; [lia|exact Hk].
      * eapply R_trans; [exact Hmx|now apply better_true].
      * now constructor.
    + destruct (IH bi b (S i)) as [m [Hpos [Hmb Hall]]].
      exists m. split; [|split].
      * destruct Hpos as [[-> ->]|[k [-> Hk]]]; [left; now split|].
        right. exists (S k). split; [lia|exact Hk].
      * exact Hmb.
      * constructor; [|exact Hall].
        eapply R_trans; [exact Hmb|now apply better_false].
Qed.

End ArgBest.

Section SummaryMore.

Import CatalogUtils.
Local Open Scope string_scope.
Local Open Scope list_scope.

Lemma Qltb_true (x b : Q) : Qltb x b = true -> (x <= b)%Q.
Proof.
  unfold Qltb. intros H. apply negb_true_iff in H.
  apply Qlt_le_weak, Qnot_le_lt. intros Hle. apply Qle_bool_iff in Hle.
  congruence.
Qed.

Lemma Qltb_false (x b : Q) : Qltb x b = false -> (b <= x)%Q.
Proof.
  unfold Qltb. intros H. apply negb_false_iff in H. now apply Qle_bool_iff.
Qed.

Lemma Qltb_lt (x b : Q) : Qltb x b = true -> (x < b)%Q.
Proof.
  unfold Qltb. intros H. apply negb_true_iff in H.
  apply Qnot_le_lt. intros Hle. apply Qle_bool_iff in Hle. congruence.
Qed.

Lemma argmin_spec (l : list Q) :
  l <> [] ->
  exists j m, argmin l = Ok j /\ nth_error l j = Some m /\
              Forall (Qle m) l.
Proof.
  destruct l as [|x l]; [congruence|]. intros _. cbn.
  destruct (arg_best_spec Qltb Qle Qle_refl Qle_trans Qltb_true Qltb_false
              l 0 x 1) as [m [Hpos [Hmx Hall]]].
  exists (arg_best Qltb 0 x 1 l), m. split; [reflexivity|]. split.
  - destruct Hpos as [[-> ->]|[k [-> Hk]]]; [reflexivity|exact Hk].
  - now constructor.
Qed.

Lemma argmax_spec (l : list Q) :
  l <> [] ->
  exists j m, argmax l = Ok j /\ nth_error l j = Some m /\
              Forall (fun y => (y <= m)%Q) l.
Proof.
  destruct l as [|x l]; [congruence|]. intros _. cbn.
  destruct (arg_best_spec (fun a b => Qltb b a) (fun m y => (y <= m)%Q)
              Qle_refl (fun x y z H1 H2 => Qle_trans _ _ _ H2 H1)
              (fun x b H => Qltb_true b x H)
              (fun x b H => Qltb_false b x H)
              l 0 x 1) as [m [Hpos [Hmx Hall]]].
  exists (arg_best (fun a b => Qltb b a) 0 x 1 l), m.
  split; [reflexivity|]. split.
  - destruct Hpos as [[-> ->]|[k [-> Hk]]]; [reflexivity|exact Hk].
  - now constructor.
Qed.

Lemma mask_select_nonempty {A : Type} (a : list A) (mask : list bool) :
  List.length a = List.length mask -> any mask = true ->
  mask_select a mask <> [].
Proof.
  revert mask. induction a as [|x a IH]; intros [|b mask] Hlen Hany;
    cbn in *; try discriminate.
  destruct b; [discriminate|]. apply IH; [lia|exact Hany].
Qed.

Lemma mask_select_In {A : Type} (a : list A) (mask : list bool) (x : A) :
  In x (mask_select a mask) -> In x a.
Proof.
  revert mask. induction a as [|y a IH]; intros [|b mask]; cbn;
    try contradiction.
  destruct b; cbn; intros H.
  - destruct H as [H|H]; [now left|right; eapply IH; exact H].
  - right. eapply IH. exact H.
Qed.

Lemma mask_select_map_true {A : Type} (f : A -> bool) (a : list A) (x : A) :
  In x (mask_select a (map f a)) -> f x = true.
Proof.
  rewrite mask_select_map. intros H. now apply filter_In in H.
Qed.

Lemma any_false_count (mask : list bool) :
  any mask = false -> count_true mask = 0.
Proof.
  unfold any, count_true. induction mask as [|b mask IH]; cbn;
    [reflexivity|]. destruct b; cbn; [discriminate|exact IH].
Qed.

Variable separation : SkyCoord -> SkyCoord -> Q.

(** What [summarize_catalog] returns when a source lies within the
    radius. *)
Lemma summarize_catalog_within (frbc_coord : SkyCoord) (catalog : Table Q)
    (n : nat) (summary_radius : Q) (photom_column : string)
    (magnitude : bool) (ra dec phot : list Q) (sv : string) :
  rectangular catalog n ->
  col catalog "ra" = Ok ra ->
  col catalog "dec" = Ok dec ->
  getitem (meta catalog) "survey" = Ok sv ->
  col catalog photom_column = Ok phot ->
  let seps := map (separation frbc_coord) (combine ra dec) in
  let in_radius := map (fun s => Qltb s summary_radius) seps in
  any in_radius = true ->
  exists b s,
    summarize_catalog separation frbc_coord catalog summary_radius
      photom_column magnitude =
      Ok [CountLine sv (count_true in_radius) (summary_radius * 3600)%Q;
          BrightestLine sv photom_column b;
          ClosestLine sv (s * 3600)%Q photom_column b] /\
    In b (mask_select phot in_radius) /\
    Forall (fun v => if magnitude then (b <= v)%Q else (v <= b)%Q)
      (mask_select phot in_radius) /\
    In s (mask_select seps in_radius) /\
    Forall (Qle s) (mask_select seps in_radius) /\
    (s < summary_radius)%Q.
Proof.
  intros Hrect Hra Hdec Hsv Hphot seps in_radius Hany.
  assert (Hn : List.length seps = n).
  { unfold seps. rewrite length_map. unfold SkyCoord. rewrite length_combine.
    rewrite (rectangular_col _ _ _ _ Hrect Hra).
    rewrite (rectangular_col _ _ _ _ Hrect Hdec). lia. }
  assert (Hlen : List.length in_radius = n)
    by (unfold in_radius; now rewrite length_map).
  assert (Hvals : mask_select phot in_radius <> []).
  { apply mask_select_nonempty; [|exact Hany].
    rewrite (rectangular_col _ _ _ _ Hrect Hphot). now rewrite Hlen. }
  assert (Hdists : mask_select seps in_radius <> []).
  { apply mask_select_nonempty; [|exact Hany]. now rewrite Hn, Hlen. }
  destruct (argmin_spec _ Hdists) as [jc [s [Ec [Hs Hsmin]]]].
  assert (Hbright : exists jb b,
            (if magnitude then argmin (mask_select phot in_radius)
             else argmax (mask_select phot in_radius)) = Ok jb /\
            nth_error (mask_select phot in_radius) jb = Some b /\
            Forall (fun v => if magnitude then (b <= v)%Q else (v <= b)%Q)
              (mask_select phot in_radius)).
  { destruct magnitude.
    - destruct (argmin_spec _ Hvals) as [jb [b [E [H1 H2]]]].
      now exists jb, b.
    - destruct (argmax_spec _ Hvals) as [jb [b [E [H1 H2]]]].
      now exists jb, b. }
  destruct Hbright as [jb [b [Eb [Hb Hbbest]]]].
  exists b, s. split; [|split; [|split; [|split; [|split]]]].
  - unfold summarize_catalog. rewrite Hra. cbn [bind]. rewrite Hdec.
    cbn [bind]. rewrite Hsv. cbn [bind]. fold seps. fold in_radius.
    rewrite Hany. rewrite Hphot. cbn [bind]. rewrite Eb. cbn [bind].
    unfold item. rewrite Hb. cbn [bind]. rewrite Ec. cbn [bind].
    rewrite Hs. cbn [bind]. reflexivity.
  - eapply nth_error_In. exact Hb.
  - exact Hbbest.
  - eapply nth_error_In. exact Hs.
  - exact Hsmin.
  - apply nth_error_In in Hs. unfold in_radius in Hs.
    apply (mask_select_map_true (fun s => Qltb s summary_radius)) in Hs.
    now apply Qltb_lt.
Qed.

(** X12: when no source lies within the radius, the summary is the one
    line that counts 0 sources; the photometry column is not looked at
    and may be absent. *)
Theorem summarize_catalog_none_within (frbc_coord : SkyCoord)
    (catalog : Table Q) (summary_radius : Q) (photom_column : string)
    (magnitude : bool) (ra dec : list Q) (sv : string) :
  col catalog "ra" = Ok ra ->
  col catalog "dec" = Ok dec ->
  getitem (meta catalog) "survey" = Ok sv ->
  Forall (fun c => (summary_radius <= separation frbc_coord c)%Q)
    (combine ra dec) ->
  summarize_catalog separation frbc_coord catalog summary_radius
    photom_column magnitude =
    Ok [CountLine sv 0 (summary_radius * 3600)%Q].
Proof.
  intros Hra Hdec Hsv Hfar. unfold summarize_catalog. rewrite Hra.
  cbn [bind]. rewrite Hdec. cbn [bind]. rewrite Hsv. cbn [bind].
  assert (E : any (map (fun s => Qltb s summary_radius)
                     (map (separation frbc_coord) (combine ra dec)))
              = false).
  { induction Hfar as [|c l Hc Hl IH]; cbn; [reflexivity|].
    unfold Qltb at 1. apply Qle_bool_iff in Hc. rewrite Hc. cbn.
    exact IH. }
  rewrite E. now rewrite (any_false_count _ E).
Qed.

(** X13: when a source lies within the radius, the summary has three
    lines: the count; the brightest value, which is the least of the
    values within the radius for a magnitude and the greatest otherwise;
    and the closest line, which carries the least separation within the
    radius (in arcsec) together with the value of the brightest line. *)
Theorem summarize_catalog_three_lines (frbc_coord : SkyCoord)
    (catalog : Table Q) (n : nat) (summary_radius : Q)
    (photom_column : string) (magnitude : bool) (ra dec phot : list Q)
    (sv : string) :
  rectangular catalog n ->
  col catalog "ra" = Ok ra ->
  col catalog "dec" = Ok dec ->
  getitem (meta catalog) "survey" = Ok sv ->
  col catalog photom_column = Ok phot ->
  let seps := map (separation frbc_coord) (combine ra dec) in
  let in_radius := map (fun s => Qltb s summary_radius) seps in
  any in_radius = true ->
  exists b s,
    summarize_catalog separation frbc_coord catalog summary_radius
      photom_column magnitude =
      Ok [CountLine sv (count_true in_radius) (summary_radius * 3600)%Q;
          BrightestLine sv photom_column b;
          ClosestLine sv (s * 3600)%Q photom_column b] /\
    In b (mask_select phot in_radius) /\
    Forall (fun v => if magnitude then (b <= v)%Q else (v <= b)%Q)
      (mask_select phot in_radius) /\
    In s (mask_select seps in_radius) /\
    Forall (Qle s) (mask_select seps in_radius) /\
    (s < summary_radius)%Q.
Proof. apply summarize_catalog_within. Qed.

Lemma getitem_of_key {V : Type} (d : list (string * V)) (k : string) :
  inb k (map fst d) = true -> exists v, getitem d k = Ok v.
Proof.
  intros H. apply inb_In in H.
  induction d as [|[k0 v0] d IH]; cbn in *; [contradiction|].
  destruct (String.eqb_spec k0 k) as [->|Hne]; [now eexists|].
  destruct H as [H|H]; [contradiction|now apply IH].
Qed.

(** X14: what [validate_catalog] checks is what [summarize_catalog]
    looks up.  For a catalogue of numeric columns (a [Table Q]) with
    rows that [validate_catalog] passes, [summarize_catalog] on any of
    its columns finds the coordinates and the survey name, raises
    nothing and returns one line or three. *)
Theorem validated_catalog_summarizes (self : SurveyCoord.SurveyCoord)
    (cat : Table Q) (n : nat) (summary_radius : Q) (photom_column : string)
    (magnitude : bool) :
  SurveyCoord.validate_catalog self = SurveyCoord.Passed ->
  SurveyCoord.catalog self = Some cat ->
  0 < SurveyCoord.len cat ->
  rectangular cat n ->
  In photom_column (colnames cat) ->
  exists lines,
    summarize_catalog separation (SurveyCoord.coord self) cat summary_radius
      photom_column magnitude = Ok lines /\
    (List.length lines = 1 \/ List.length lines = 3).
Proof.
  intros Hval Hcat Hlen Hrect Hphot.
  unfold SurveyCoord.validate_catalog in Hval. rewrite Hcat in Hval.
  apply Nat.ltb_lt in Hlen. rewrite Hlen in Hval.
  destruct (inb "ra" (colnames cat)) eqn:E1; cbn [negb] in Hval;
    [|discriminate].
  destruct (inb "dec" (colnames cat)) eqn:E2; cbn [negb] in Hval;
    [|discriminate].
  destruct (inb "radius" (map fst (meta cat))); cbn [negb] in Hval;
    [|discriminate].
  destruct (inb "survey" (map fst (meta cat))) eqn:E4; cbn [negb] in Hval;
    [|discriminate].
  apply inb_In in E1. apply inb_In in E2.
  destruct (col_of_colnames _ _ E1) as [ra Hra].
  destruct (col_of_colnames _ _ E2) as [dec Hdec].
  destruct (col_of_colnames _ _ Hphot) as [phot Hph].
  destruct (getitem_of_key _ _ E4) as [sv Hsv].
  destruct (any (map (fun s => Qltb s summary_radius)
                   (map (separation (SurveyCoord.coord self))
                      (combine ra dec)))) eqn:Eany.
  - destruct (summarize_catalog_within (SurveyCoord.coord self) cat n
                summary_radius photom_column magnitude ra dec phot sv
                Hrect Hra Hdec Hsv Hph Eany) as [b [s [Hrun _]]].
    eexists. split; [exact Hrun|]. now right.
  - exists [CountLine sv
              (count_true (map (fun s => Qltb s summary_radius)
                             (map (separation (SurveyCoord.coord self))
                                (combine ra dec))))
              (summary_radius * 3600)%Q].
    split; [|now left].
    unfold summarize_catalog. rewrite Hra. cbn [bind]. rewrite Hdec.
    cbn [bind]. rewrite Hsv. cbn [bind]. rewrite Eany. reflexivity.
Qed.

End SummaryMore.

Section SummaryMoreWitnesses.

Import CatalogUtils Doubles MoreDoubles.
Local Open Scope string_scope.
Local Open Scope list_scope.

Lemma rectangular_cat_two : rectangular cat_two 2.
Proof. repeat constructor. Qed.

(** Both sources of [cat_two] lie beyond half an arcsec; the table has
    no column "nope". *)
Lemma summarize_catalog_none_within_witness :
  summarize_catalog sep_equator (0, 0)%Q cat_two (1 # 7200)%Q "nope" true =
    Ok [CountLine "DES" 0 ((1 # 7200) * 3600)%Q].
Proof.
  apply (summarize_catalog_none_within sep_equator (0, 0)%Q cat_two
           (1 # 7200)%Q "nope" true [1 # 3600; 2 # 3600]%Q [0; 0]%Q "DES"
           eq_refl eq_refl eq_refl).
  repeat constructor; apply Qle_bool_iff; reflexivity.
Defined.

(** Both sources of [cat_two] lie within 5 arcsec. *)
Lemma summarize_catalog_three_lines_witness :
  exists b s,
    summarize_catalog sep_equator (0, 0)%Q cat_two (5 # 3600)%Q "r" true =
      Ok [CountLine "DES" 2 ((5 # 3600) * 3600)%Q;
          BrightestLine "DES" "r" b;
          ClosestLine "DES" (s * 3600)%Q "r" b] /\
    Forall (Qle b) [20; 18]%Q /\
    Forall (Qle s) [Qabs ((1 # 3600) - 0); Qabs ((2 # 3600) - 0)]%Q.
Proof.
  destruct (summarize_catalog_three_lines sep_equator (0, 0)%Q cat_two 2
              (5 # 3600)%Q "r" true [1 # 3600; 2 # 3600]%Q [0; 0]%Q
              [20; 18]%Q "DES" rectangular_cat_two
              eq_refl eq_refl eq_refl eq_refl eq_refl)
    as [b [s [Hrun [_ [Hb [_ [Hs _]]]]]]].
  exists b, s. split; [exact Hrun|]. split; [exact Hb|exact Hs].
Defined.

(** The survey object around [cat_two], summarized on its column "r". *)
Lemma validated_catalog_summarizes_witness :
  exists lines,
    summarize_catalog sep_equator (0, 0)%Q
      (mkTable (columns cat_two) [("survey", "DES"); ("radius", "5")])
      (5 # 3600)%Q "r" true = Ok lines /\
    (List.length lines = 1 \/ List.length lines = 3).
Proof.
  apply (validated_catalog_summarizes sep_equator survey_two
           (mkTable (columns cat_two) [("survey", "DES"); ("radius", "5")])
           2 (5 # 3600)%Q "r" true eq_refl eq_refl).
  - cbn. lia.
  - repeat constructor.
  - cbn. tauto.
Defined.

End SummaryMoreWitnesses.

(** * Further properties of catalog_utils.py: renaming the columns *)

Section CleanCat.

Import CatalogClean.
Local Open Scope string_scope.
Local Open Scope list_scope.

Context {A : Type}.

(** The body of the loop of [clean_cat]. *)
Local Abbreviation rename_item :=
  (fun (catalog : Table A) (kv : string * string) =>
     let '(key, value) := kv in
     if inb value (colnames catalog)
     then rename_column catalog value key else Ok catalog).

Lemma clean_cat_loop (catalog : Table A) (pdict : list (string * string))
    (fill_mask : option A) :
  clean_cat catalog pdict fill_mask = foldM rename_item catalog pdict.
Proof.
  unfold clean_cat. destruct (foldM _ catalog pdict); cbn; [|reflexivity].
  now destruct fill_mask.
Qed.

Lemma inb_not_In (k : string) (l : list string) :
  ~ In k l -> inb k l = false.
Proof.
  intros H. destruct (inb k l) eqn:E; [|reflexivity].
  apply inb_In in E. contradiction.
Qed.

Lemma rename_loop_no_match (catalog : Table A)
    (pdict : list (string * string)) :
  Forall (fun kv => ~ In (snd kv) (colnames catalog)) pdict ->
  foldM rename_item catalog pdict = Ok catalog.
Proof.
  induction 1 as [|[key value] pdict Hv _ IH]; cbn [foldM]; [reflexivity|].
  cbn in Hv. rewrite (inb_not_In _ _ Hv). cbn [bind]. exact IH.
Qed.






(** X15: when no value of [pdict] is the name of a column, [clean_cat]
    returns the catalogue as it was. *)
Theorem clean_cat_no_match (catalog : Table A)
    (pdict : list (string * string)) (fill_mask : option A) :
  Forall (fun kv => ~ In (snd kv) (colnames catalog)) pdict ->
  clean_cat catalog pdict fill_mask = Ok catalog.
Proof.
  intros H. rewrite clean_cat_loop. now apply rename_loop_no_match.
Qed.

(** X16: [clean_cat] raises [KeyError] at the first item of [pdict]
    whose value is a column when the desired name is another column of
    the catalogue. *)
Theorem clean_cat_collision (catalog : Table A)
    (pre post : list (string * string)) (key value : string)
    (fill_mask : option A) :
  Forall (fun kv => ~ In (snd kv) (colnames catalog)) pre ->
  In value (colnames catalog) ->
  In key (colnames catalog) ->
  key <> value ->
  clean_cat catalog (pre ++ (key, value) :: post) fill_mask = Raise KeyError.
Proof.
  intros Hpre Hv Hk Hne. rewrite clean_cat_loop, foldM_app.
  rewrite (rename_loop_no_match _ _ Hpre). cbn [bind foldM].
  apply inb_In in Hv. apply inb_In in Hk. rewrite Hv.
  unfold rename_column. rewrite Hv. cbn [negb].
  destruct (String.eqb_spec value key) as [->|_]; [contradiction|].
  now rewrite Hk.
Qed.


End CleanCat.

Section CleanCatWitnesses.

Import CatalogClean Doubles MoreDoubles.
Local Open Scope string_scope.
Local Open Scope list_scope.

(** [cat_two] has none of the columns "RA", "DEC" and "S1.4". *)
Lemma clean_cat_no_match_witness :
  clean_cat cat_two pdict_radec (Some (-999)%Q) = Ok cat_two.
Proof.
  apply (clean_cat_no_match cat_two pdict_radec (Some (-999)%Q)).
  repeat constructor; cbn; intros [H|[H|[H|[]]]]; discriminate.
Defined.

(** [cat_both] holds "RA" and "ra". *)
Lemma clean_cat_collision_witness :
  clean_cat cat_both (("x", "X") :: ("ra", "RA") :: ("dec", "DEC") :: nil)
    None = Raise KeyError.
Proof.
  apply (clean_cat_collision cat_both (("x", "X") :: nil)
           (("dec", "DEC") :: nil) "ra" "RA" None).
  - repeat constructor; cbn; intros [H|[H|[]]]; discriminate.
  - cbn. tauto.
  - cbn. tauto.
  - discriminate.
Defined.


End CleanCatWitnesses.

(** * Further properties of catalog_utils.py: magnitudes to fluxes *)

Section FluxMore.

Import CatalogUtils.
Local Open Scope R_scope.
Local Open Scope string_scope.
Local Open Scope list_scope.

Variable valid_filters : list string.
Variable photometry_table : Table R.
Variable convert : R.

Lemma set_assoc_length {V : Type} (d : list (string * list V)) (k : string)
    (v : list V) :
  In k (map fst d) -> List.length (set_assoc d k v) = List.length d.
Proof.
  induction d as [|[k0 v0] d IH]; cbn; [contradiction|].
  destruct (String.eqb_spec k0 k) as [->|Hne]; [reflexivity|].
  intros [H|H]; [contradiction|]. cbn. f_equal. now apply IH.
Qed.

Lemma setitem_shape (t : Table R) (k : string) (v c : list R) :
  col t k = Ok c ->
  meta (setitem t k v) = meta t /\
  List.length (columns (setitem t k v)) = List.length (columns t).
Proof.
  intros H. split; [reflexivity|]. cbn. apply set_assoc_length.
  apply inb_In. eapply col_colnames. exact H.
Qed.

Lemma rename_column_shape (t t' : Table R) (name new_name : string) :
  rename_column t name new_name = Ok t' ->
  meta t' = meta t /\
  List.length (columns t') = List.length (columns t).
Proof.
  intros H. apply rename_column_inv in H as [_ [[_ ->]|[_ [_ ->]]]];
    [now split|]. cbn. split; [reflexivity|apply length_map].
Qed.

Lemma convert_band_shape (wise : bool) (fluxtable ft' : Table R)
    (band : string * (string * R)) :
  convert_band photometry_table convert wise fluxtable band = Ok ft' ->
  meta ft' = meta fluxtable /\
  List.length (columns ft') = List.length (columns fluxtable).
Proof.
  destruct band as [mag [err fnu0]].
  intros H. unfold convert_band in H. repeat bind_inv H.
  match type of H with
  | (if _ then _ else Ok ?t) = _ =>
      assert (Hk : meta t = meta fluxtable /\
                   List.length (columns t) = List.length (columns fluxtable))
  end.
  { repeat match goal with
           | |- meta (setitem ?t ?k ?v) = _ /\
                List.length (columns (setitem ?t ?k ?v)) = _ =>
               let c := fresh "c" in
               let Hc := fresh "Hc" in
               assert (Hc : exists c, col t k = Ok c)
                 by (eexists; eassumption);
               destruct Hc as [c Hc];
               destruct (setitem_shape t k v c Hc) as [-> ->]
           end.
    now split. }
  destruct Hk as [Hm Hl].
  destruct (wise && negb (contains "WISE" mag)).
  - bind_inv H.
    apply rename_column_shape in H as [-> ->].
    match goal with
    | E : rename_column _ _ _ = Ok _ |- _ =>
        apply rename_column_shape in E as [-> ->]
    end.
    now split.
  - injection H as <-. now split.
Qed.

Lemma foldM_shape (wise : bool) (bands : list (string * (string * R)))
    (fluxtable ft' : Table R) :
  foldM (convert_band photometry_table convert wise) fluxtable bands
    = Ok ft' ->
  meta ft' = meta fluxtable /\
  List.length (columns ft') = List.length (columns fluxtable).
Proof.
  revert fluxtable. induction bands as [|b bands IH]; intros fluxtable H;
    cbn [foldM] in H.
  - injection H as <-. now split.
  - bind_inv H. apply IH in H as [-> ->].
    eapply convert_band_shape. eassumption.
Qed.

Lemma bands_apart_unrecognized (k : string)
    (bands : list (string * (string * R))) :
  ~ In k (recognized valid_filters photometry_table) ->
  (forall b, In b bands ->
     In (band_mag b) (mag_cols valid_filters photometry_table) /\
     In (band_err_name b) (mag_errcols valid_filters photometry_table)) ->
  Forall (fun b => k <> fst b /\ k <> fst (snd b)) bands.
Proof.
  intros Hk Hb. apply Forall_forall. intros b Hin.
  destruct (Hb b Hin) as [H1 H2]. split; intros ->; apply Hk.
  - now apply recognized_mag.
  - now apply recognized_err.
Qed.

(** X18: a column whose name [_detect_mag_cols] does not recognize is in
    the returned table with the content it has in the input. *)
Theorem convert_mags_to_flux_frame (ft : Table R) (k : string)
    (c : list R) :
  ~ In k (recognized valid_filters photometry_table) ->
  col photometry_table k = Ok c ->
  convert_mags_to_flux valid_filters photometry_table convert = Ok ft ->
  col ft k = Ok c.
Proof.
  intros Hk Hc H. rewrite convert_mags_to_flux_loops in H.
  bind_inv_as H ft1 E1. bind_inv_as H ft2 E2.
  eapply foldM_frame; [exact H| |].
  - apply bands_apart_unrecognized; [exact Hk|]. intros b Hb.
    destruct (other_bands_cross _ _ b Hb) as [[H1 _] [H2 _]]. now split.
  - eapply foldM_frame; [exact E2| |].
    + apply bands_apart_unrecognized; [exact Hk|]. intros b Hb.
      destruct (vista_bands_cross _ _ b Hb) as [[H1 _] [H2 _]]. now split.
    + eapply foldM_frame; [exact E1| |exact Hc].
      apply bands_apart_unrecognized; [exact Hk|]. intros b Hb.
      now apply wise_bands_cross.
Qed.

(** X19: the returned table has the shape of the input: as many rows in
    every column, as many columns, and the same meta data. *)
Theorem convert_mags_to_flux_shape (ft : Table R) (n : nat) :
  rectangular photometry_table n ->
  convert_mags_to_flux valid_filters photometry_table convert = Ok ft ->
  rectangular ft n /\
  List.length (columns ft) = List.length (columns photometry_table) /\
  meta ft = meta photometry_table.
Proof.
  intros Hrect H. rewrite convert_mags_to_flux_loops in H.
  bind_inv_as H ft1 E1. bind_inv_as H ft2 E2.
  split.
  - eapply foldM_rectangular; [exact H|].
    eapply foldM_rectangular; [exact E2|].
    eapply foldM_rectangular; [exact E1|exact Hrect].
  - apply foldM_shape in H as [-> ->].
    apply foldM_shape in E2 as [-> ->].
    apply foldM_shape in E1 as [-> ->]. now split.
Qed.

End FluxMore.

Section FluxSkipped.

Import CatalogUtils.
Local Open Scope R_scope.
Local Open Scope string_scope.
Local Open Scope list_scope.

Variable valid_filters : list string.
Variable photometry_table : Table R.
Variable convert : R.

Lemma combine_fst_index {X Y : Type} (l1 : list X) (l2 : list Y)
    (p : X * Y) :
  In p (combine l1 l2) ->
  exists j, (j < List.length l2)%nat /\ nth_error l1 j = Some (fst p).
Proof.
  revert l2. induction l1 as [|x l1 IH]; intros [|y l2]; cbn;
    try contradiction.
  intros [<-|H].
  - exists 0%nat. split; [lia|reflexivity].
  - destruct (IH l2 H) as [j [Hj Hn]]. exists (S j). split; [lia|exact Hn].
Qed.

(** X20: the first loop pairs the sorted W columns with its four zero
    points and the last loop leaves out every W column, so that a W
    column after the fourth, when it is no VISTA column, is returned as
    it was given: not converted. *)
Theorem convert_mags_to_flux_fifth_w (ft : Table R) (i : nat)
    (mag : string) (pm : list R) :
  NoDup (recognized valid_filters photometry_table) ->
  nth_error (wisecols valid_filters photometry_table) i = Some mag ->
  (4 <= i)%nat ->
  contains "VISTA" mag = false ->
  col photometry_table mag = Ok pm ->
  convert_mags_to_flux valid_filters photometry_table convert = Ok ft ->
  col ft mag = Ok pm.
Proof.
  intros Hnodup Hi Hfour Hv Hc H.
  pose proof (nth_error_In _ _ Hi) as Hw.
  assert (Hmc : In mag (mag_cols valid_filters photometry_table)).
  { unfold wisecols in Hw. now apply In_filter_sorted in Hw. }
  assert (Hnd : NoDup (wisecols valid_filters photometry_table)).
  { apply NoDup_filter_sorted. now apply NoDup_mag_cols. }
  rewrite convert_mags_to_flux_loops in H.
  bind_inv_as H ft1 E1. bind_inv_as H ft2 E2.
  eapply foldM_frame; [exact H| |].
  - apply Forall_forall. intros b Hb.
    destruct (other_bands_cross _ _ b Hb) as [[_ H1] [H2 _]].
    split; [intros Heq; apply H1|].
    + change (fst b) with (band_mag b) in Heq. now rewrite <- Heq.
    + apply (mag_err_apart _ _ Hnodup); assumption.
  - eapply foldM_frame; [exact E2| |].
    + apply Forall_forall. intros b Hb.
      destruct (vista_bands_cross _ _ b Hb) as [[_ H1] [H2 _]].
      split; [intros Heq|].
      * change (fst b) with (band_mag b) in Heq. rewrite <- Heq in H1.
        congruence.
      * apply (mag_err_apart _ _ Hnodup); assumption.
    + eapply foldM_frame; [exact E1| |exact Hc].
      apply Forall_forall. intros b Hb.
      destruct (wise_bands_cross _ _ b Hb) as [_ H2].
      split; [intros Heq|apply (mag_err_apart _ _ Hnodup); assumption].
      unfold wise_bands in Hb.
      destruct (combine_fst_index _ _ b Hb) as [j [Hj Hn]].
      rewrite <- Heq in Hn.
      assert (Hlen : (j < 4)%nat).
      { rewrite length_combine in Hj. cbn [wise_fnu0 List.length] in Hj.
        lia. }
      assert (Hji : j = i).
      { apply (proj1 (NoDup_nth_error _) Hnd).
        - apply nth_error_Some. congruence.
        - congruence. }
      lia.
Qed.

Variable n : nat.
Hypothesis Hrect : rectangular photometry_table n.
Hypothesis Hnodup : NoDup (recognized valid_filters photometry_table).

(** X21: for a pair of columns that only the last loop treats, a row
    whose magnitude is negative and whose error is not gets the flux -99
    and the flux error -99 * (10^(e/2.5) - 1): the error is computed from
    the sentinel flux. *)
Theorem negative_magnitude_error_row (ft : Table R) (mag err : string)
    (zp : R) (pm pe : list R) (r : nat) (m e : R) :
  In (mag, (err, zp)) (other_bands valid_filters photometry_table) ->
  (forall b, In b (vista_bands valid_filters photometry_table) ->
             band_mag b <> mag /\ band_err_name b <> err) ->
  col photometry_table mag = Ok pm ->
  col photometry_table err = Ok pe ->
  convert_mags_to_flux valid_filters photometry_table convert = Ok ft ->
  nth_error pm r = Some m ->
  nth_error pe r = Some e ->
  m < 0 -> 0 <= e ->
  exists fluxes errs,
    col ft mag = Ok fluxes /\ col ft err = Ok errs /\
    nth_error fluxes r = Some (-99) /\
    nth_error errs r = Some (-99 * (pow10 (e / 2.5) - 1)).
Proof.
  intros Hb Hv Hpm Hpe H Hm He Hneg Hpos.
  destruct (other_band_result valid_filters photometry_table Hnodup convert
              n Hrect ft mag err zp pm pe Hb Hpm Hpe H Hv) as [Hf Hs].
  eexists. eexists. split; [exact Hf|]. split; [exact Hs|].
  pose proof (nth_band_flux zp convert pm pm r m m Hm Hm) as Hfr.
  rewrite flux_of_neg in Hfr by exact Hneg.
  split; [exact Hfr|].
  rewrite (nth_band_err _ pe pe r _ e e Hfr He He).
  now rewrite fluxerr_of_nonneg by exact Hpos.
Qed.

End FluxSkipped.

Section FluxMoreWitnesses.

Import CatalogUtils Doubles MoreDoubles.
Local Open Scope R_scope.
Local Open Scope string_scope.
Local Open Scope list_scope.

Lemma rectangular_tab_mixed : rectangular tab_mixed 1.
Proof. repeat constructor. Qed.

Lemma run_tab_mixed :
  exists ft, convert_mags_to_flux filters0 tab_mixed 1 = Ok ft.
Proof.
  apply (convert_mags_to_flux_returns filters0 tab_mixed
           (NoDup_two "DES_r" "DES_r_err" ltac:(discriminate))
           1 1%nat rectangular_tab_mixed).
  now apply fresh_renames_no_wise.
Qed.

(** The redshift column "z" of [tab_mixed] is no filter. *)
Lemma convert_mags_to_flux_frame_witness :
  exists ft,
    convert_mags_to_flux filters0 tab_mixed 1 = Ok ft /\
    col ft "z" = Ok [0.3].
Proof.
  destruct run_tab_mixed as [ft Hft]. exists ft. split; [exact Hft|].
  apply (convert_mags_to_flux_frame filters0 tab_mixed 1 ft "z" [0.3]);
    [|reflexivity|exact Hft].
  intros [H|[H|[]]]; discriminate.
Defined.

Lemma convert_mags_to_flux_shape_witness :
  exists ft,
    convert_mags_to_flux filters0 tab_mixed 1 = Ok ft /\
    rectangular ft 1 /\
    List.length (columns ft) = 3%nat /\
    meta ft = [].
Proof.
  destruct run_tab_mixed as [ft Hft]. exists ft. split; [exact Hft|].
  exact (convert_mags_to_flux_shape filters0 tab_mixed 1 ft 1%nat
           rectangular_tab_mixed Hft).
Defined.

Lemma rectangular_tab_w5 : rectangular tab_w5 1.
Proof. repeat constructor. Qed.

Lemma NoDup_recognized_w5 : NoDup (recognized filters_w6 tab_w5).
Proof.
  change (recognized filters_w6 tab_w5)
    with ["W1"; "W2"; "W3"; "W4"; "W5";
          "W1_err"; "W2_err"; "W3_err"; "W4_err"; "W5_err"].
  repeat constructor; cbn; intros H;
    repeat (destruct H as [H|H]; [discriminate|]); exact H.
Qed.

Lemma fresh_renames_w5 : fresh_renames filters_w6 tab_w5.
Proof.
  unfold fresh_renames.
  change (wise_bands filters_w6 tab_w5)
    with [("W1", ("W1_err", 309.54)); ("W2", ("W2_err", 171.787));
          ("W3", ("W3_err", 31.674)); ("W4", ("W4_err", 8.363))].
  change (wise_renames
            [("W1", ("W1_err", 309.54)); ("W2", ("W2_err", 171.787));
             ("W3", ("W3_err", 31.674)); ("W4", ("W4_err", 8.363))])
    with ["WISE1"; "WISE1_err"; "WISE2"; "WISE2_err";
          "WISE3"; "WISE3_err"; "WISE4"; "WISE4_err"].
  split; [|split].
  - repeat constructor; cbn; intros H;
      repeat (destruct H as [H|H]; [discriminate|]); exact H.
  - intros x Hx Hin. cbn in Hx, Hin.
    repeat (destruct Hx as [<-|Hx];
            [repeat (destruct Hin as [Hin|Hin]; [discriminate|]);
             exact Hin|]).
    exact Hx.
  - intros b Hb. cbn in Hb.
    repeat (destruct Hb as [<-|Hb]; [split; reflexivity|]).
    destruct Hb.
Qed.

(** [tab_w5] holds five W columns; the fifth comes back as a
    magnitude. *)
Lemma convert_mags_to_flux_fifth_w_witness :
  exists ft,
    convert_mags_to_flux filters_w6 tab_w5 1 = Ok ft /\
    col ft "W5" = Ok [10].
Proof.
  destruct (convert_mags_to_flux_returns filters_w6 tab_w5
              NoDup_recognized_w5 1 1%nat rectangular_tab_w5
              fresh_renames_w5) as [ft Hft].
  exists ft. split; [exact Hft|].
  apply (convert_mags_to_flux_fifth_w filters_w6 tab_w5 1 ft 4%nat "W5" [10]
           NoDup_recognized_w5 eq_refl ltac:(lia) eq_refl eq_refl Hft).
Defined.

(** [tab_des_bad]: magnitude -1 with error 0. *)
Lemma negative_magnitude_error_row_witness :
  exists ft fluxes errs,
    convert_mags_to_flux filters0 tab_des_bad 1 = Ok ft /\
    col ft "DES_r" = Ok fluxes /\ col ft "DES_r_err" = Ok errs /\
    nth_error fluxes 0 = Some (-99) /\
    nth_error errs 0 = Some (-99 * (pow10 (0 / 2.5) - 1)).
Proof.
  destruct (negative_magnitude_error_row filters0 tab_des_bad 1 1%nat
              (rectangular_one_row _ _ _ _)
              (NoDup_two "DES_r" "DES_r_err" ltac:(discriminate))
              _ "DES_r" "DES_r_err" 3630.7805 [-1] [0] 0%nat (-1) 0
              (or_introl eq_refl)
              (fun b (H : False) => match H with end)
              eq_refl eq_refl run_des_bad eq_refl eq_refl
              ltac:(lra) ltac:(lra))
    as [fluxes [errs [H1 [H2 [H3 H4]]]]].
  eexists. exists fluxes, errs.
  split; [exact run_des_bad|]. split; [exact H1|]. split; [exact H2|].
  split; [exact H3|exact H4].
Defined.

End FluxMoreWitnesses.
